(** * Voltage log analyzer: the parsing and reconciliation engine

    A shallow embedding of the log parser ([extractJsonFrom], [parseISO],
    [evaluateStatus], [parseLogFile]) and of the dashboard reduction
    ([allData], [analysisStats]), then of the dashboard state
    ([handleUpload], [removeFile], [parsingErrorAgg]) and of the pure parts
    of its components (the chart's [clampDomain], [niceStep], [downsample],
    [rangeStats] and CSV cells, the report's [histogramData], the event
    table's [filteredData] and paging), followed by the properties
    established about them.

    Conventions of the embedding.
    - A JavaScript value is a [jsval].  Numbers are the finite doubles,
      read as exact rationals ([Q]), plus [JNaN]; infinities are not
      represented.
    - A JavaScript exception is the [Throw] outcome of the [exc] type; a
      function that cannot throw is a plain Rocq function.
    - Built-ins of the platform that the source merely calls ([JSON.parse],
      [Date.parse], [Date.now], [String(n)] and [Number(s)], [parseFloat],
      [toFixed]) are the fields of the [Host] class.
    - A plain object used as a dictionary is a property list in insertion
      order ([jsobj]); [objectKeys] gives the enumeration order of the
      language (array indices first, ascending).
    - The device-metadata enrichment of [parseLogFile] (the BootNotification,
      GetConfiguration and DataTransfer handlers, the raw-text fallback, the
      alert line counter) writes only the optional vendor / firmware /
      controller / connector-type fields and [alertCounts]; these fields are
      left out of the records below, and so are those handlers.  Of their
      helpers, [looksLikeVersion], [maybeSetFirmware] and
      [normalizeConnectorType] are embedded on their own.
    - Text is ASCII where the source converts letter case or strips white
      space; where it is not (the deviation texts of the event table) the
      conversion is a parameter.
    - The tables of the parser are plain objects keyed by transaction and
      connector ids taken from the log.  The embedding keeps own
      properties only and starts a parse with the built-in prototypes as
      the platform ships them: it follows the source on the logs whose ids
      are not names of inherited members and whose payloads convert to
      text ([plainLog]); outside them the source answers such an id from
      the prototype chain (claims C3 and C10). *)

From Stdlib Require Import QArith Qround Qminmax Qabs Lqa Lia ZArith.
From Stdlib Require Import List String Ascii Bool Arith Permutation Sorted.
From Stdlib Require Import DecimalString.
From Stdlib Require DecimalPos DecimalZ.
Import ListNotations.

Local Open Scope string_scope.
Local Open Scope list_scope.
Local Open Scope nat_scope.

(** String concatenation ([+] on strings, template literals). *)
Infix "+++" := String.append (right associativity, at level 60).

(** The double-quote character and the one-character string made of it. *)
Definition dquote : ascii := "034"%char.
Definition dq : string := String dquote EmptyString.

(* ================================================================== *)
(** ** JavaScript values, exceptions, host built-ins                    *)
(* ================================================================== *)

#[warnings="-register-all"]
Inductive jsval : Type :=
| JUndefined
| JNull
| JBool (b : bool)
| JNum (q : Q)
| JNaN
| JStr (s : string)
| JArr (items : list jsval)
| JObj (props : list (string * jsval)).

Inductive jserror : Type := TypeError | RangeError.

(** Outcome of a computation that may throw.  [Fuel] is not a JavaScript
    outcome: it marks a loop of the model that ran out of its iteration
    budget (the scans are shown never to produce it). *)
Inductive exc (A : Type) : Type :=
| Ret (a : A)
| Throw (e : jserror)
| Fuel.
Arguments Ret {A} a.
Arguments Throw {A} e.
Arguments Fuel {A}.

Definition bind {A B : Type} (c : exc A) (k : A -> exc B) : exc B :=
  match c with
  | Ret a => k a
  | Throw e => Throw e
  | Fuel => Fuel
  end.

Notation "x <- c ;; k" := (bind c (fun x => k))
  (at level 61, c at next level, right associativity).

(** Dictionaries ([Record<K, V>]) as property lists. *)
Definition jsobj (A : Type) : Type := list (string * A).

Fixpoint objGet {A : Type} (o : jsobj A) (k : string) : option A :=
  match o with
  | [] => None
  | (k', v) :: o' => if String.eqb k' k then Some v else objGet o' k
  end.

(** [o[k] = v]: overwrite in place, or append a new property. *)
Fixpoint objSet {A : Type} (o : jsobj A) (k : string) (v : A) : jsobj A :=
  match o with
  | [] => [(k, v)]
  | (k', v') :: o' =>
      if String.eqb k' k then (k', v) :: o' else (k', v') :: objSet o' k v
  end.

Definition isDigit (c : ascii) : bool :=
  let n := nat_of_ascii c in (48 <=? n) && (n <=? 57).

Fixpoint digitsValue (s : string) (acc : N) : N :=
  match s with
  | EmptyString => acc
  | String c s' => digitsValue s' (acc * 10 + N.of_nat (nat_of_ascii c - 48))%N
  end.

Fixpoint allDigits (s : string) : bool :=
  match s with
  | EmptyString => true
  | String c s' => isDigit c && allDigits s'
  end.

(** A property key is an array index when it is the canonical decimal
    form of an integer below 2^32 - 1. *)
Definition arrayIndex (k : string) : option N :=
  match k with
  | EmptyString => None
  | String c rest =>
      if allDigits k && (negb (Ascii.eqb c "0") || String.eqb rest "")
         && (String.length k <=? 10)
      then let n := digitsValue k 0%N in
           if (n <? 4294967295)%N then Some n else None
      else None
  end.

Fixpoint insertIndex {A : Type} (e : N * A) (l : list (N * A)) : list (N * A) :=
  match l with
  | [] => [e]
  | e' :: l' => if (fst e <=? fst e')%N then e :: l else e' :: insertIndex e l'
  end.

Definition indexProps {A : Type} (o : jsobj A) : list (N * (string * A)) :=
  fold_right
    (fun kv acc => match arrayIndex (fst kv) with
                   | Some n => insertIndex (n, kv) acc
                   | None => acc
                   end) [] o.

Definition namedProps {A : Type} (o : jsobj A) : jsobj A :=
  filter (fun kv => match arrayIndex (fst kv) with Some _ => false | None => true end) o.

(** Own-property enumeration order: array indices ascending, then the
    other keys in insertion order. *)
Definition objectEntries {A : Type} (o : jsobj A) : jsobj A :=
  map snd (indexProps o) ++ namedProps o.

Definition objectKeys {A : Type} (o : jsobj A) : list string :=
  map fst (objectEntries o).

Definition objectValues {A : Type} (o : jsobj A) : list A :=
  map snd (objectEntries o).

Definition Qltb (x y : Q) : bool := negb (Qle_bool y x).

Definition truthy (v : jsval) : bool :=
  match v with
  | JUndefined | JNull | JNaN => false
  | JBool b => b
  | JNum q => negb (Qeq_bool q 0%Q)
  | JStr s => negb (String.eqb s "")
  | JArr _ | JObj _ => true
  end.

Definition nullish (v : jsval) : bool :=
  match v with
  | JUndefined | JNull => true
  | _ => false
  end.

(** [a || b] and [a ?? b]; the operands used in the source are property
    reads on a non-nullish receiver, so evaluating both is harmless. *)
Definition orElse (a b : jsval) : jsval := if truthy a then a else b.
Definition coalesce (a b : jsval) : jsval := if nullish a then b else a.

Infix "|||" := orElse (at level 50, left associativity).
Infix "???" := coalesce (at level 50, left associativity).

(** [v.k] on a receiver that is neither [null] nor [undefined]: own
    properties of an object, [undefined] otherwise.  None of the keys
    read by the source is a member of a built-in prototype as the platform
    ships it; a parse that files a transaction under the id [__proto__]
    writes [connectorId] and [idTag] onto [Object.prototype], where later
    reads find them, and is outside the embedding (see [plainLog]). *)
Definition field (v : jsval) (k : string) : jsval :=
  match v with
  | JObj props => match objGet props k with Some x => x | None => JUndefined end
  | _ => JUndefined
  end.

(** [v.k] on an arbitrary receiver. *)
Definition getProp (v : jsval) (k : string) : exc jsval :=
  if nullish v then Throw TypeError else Ret (field v k).

(** [v?.k]. *)
Definition optField (v : jsval) (k : string) : jsval :=
  if nullish v then JUndefined else field v k.

(** The sequence visited by [for (const x of v)]. *)
Definition iterate (v : jsval) : exc (list jsval) :=
  match v with
  | JArr items => Ret items
  | JStr s => Ret (map (fun c => JStr (String c EmptyString)) (list_ascii_of_string s))
  | _ => Throw TypeError
  end.

Class Host : Type := {
  (** [JSON.parse]; [None] when it throws a SyntaxError. *)
  JSON_parse : string -> option jsval;
  (** [Date.parse]; [None] for NaN. *)
  Date_parse : string -> option Q;
  (** [Date.now()], fixed for the duration of one parse. *)
  Date_now : Q;
  (** Text of [new Date(t).toISOString()] for a time value in range. *)
  Date_isoText : Q -> string;
  (** [String(n)] on a number. *)
  NumberToString : Q -> string;
  (** [Number(s)] on a string; [None] for NaN. *)
  StringToNumber : string -> option Q;
  (** [parseFloat]; [None] for NaN. *)
  parseFloat : string -> option Q;
  (** [n.toFixed(0)]. *)
  toFixed0 : Q -> string
}.

Section WithHost.
Context {H : Host}.

(** [String(v)], also the conversion applied by template literals and by
    property keys.  Arrays join their elements with a comma, [null] and
    [undefined] elements giving the empty string.  On an object with an
    own [toString] property the source throws [TypeError]; the embedding
    is for the values that pass [printable]. *)
Fixpoint ToString (v : jsval) : string :=
  match v with
  | JUndefined => "undefined"
  | JNull => "null"
  | JBool b => if b then "true" else "false"
  | JNum q => NumberToString q
  | JNaN => "NaN"
  | JStr s => s
  | JArr items =>
      (fix join (l : list jsval) : string :=
         match l with
         | [] => ""
         | x :: l' =>
             (if nullish x then "" else ToString x) +++
             match l' with [] => "" | _ :: _ => "," +++ join l' end
         end) items
  | JObj _ => "[object Object]"
  end.

Definition numOrNaN (o : option Q) : jsval :=
  match o with Some q => JNum q | None => JNaN end.

(** [Number(v)]. *)
Definition ToNumber (v : jsval) : jsval :=
  match v with
  | JUndefined => JNaN
  | JNull => JNum 0%Q
  | JBool b => JNum (if b then 1%Q else 0%Q)
  | JNum q => JNum q
  | JNaN => JNaN
  | JStr s => numOrNaN (StringToNumber s)
  | JArr _ | JObj _ => numOrNaN (StringToNumber (ToString v))
  end.

Definition natStr (n : nat) : string := ToString (JNum (inject_Z (Z.of_nat n))).

(** Largest time value a Date can hold (8.64e15 ms). *)
Definition MAX_TIME_VALUE : Q := 8640000000000000%Q.

(** [new Date(t).toISOString()] on a number [t]. *)
Definition Date_toISOString (t : Q) : exc string :=
  if Qle_bool (Qabs t) MAX_TIME_VALUE then Ret (Date_isoText t)
  else Throw RangeError.

(** [new Date(v).getTime()] for a truthy [v] that is not a number. *)
Definition Date_getTime (v : jsval) : option Q :=
  match v with
  | JBool true => Some 1%Q
  | JStr s => Date_parse s
  | JArr _ | JObj _ => Date_parse (ToString v)
  | _ => None
  end.

(* ================================================================== *)
(** ** Bracket-aware JSON extractor                                     *)
(* ================================================================== *)

Fixpoint dropStr (n : nat) (s : string) : string :=
  match n, s with
  | O, _ => s
  | S n', String _ s' => dropStr n' s'
  | S _, EmptyString => EmptyString
  end.

(** The [for (let j = i; j < text.length; j++)] loop, on the suffix of the
    text that starts at [j]; the result is the index [j] at which the
    loop reaches [JSON.parse]. *)
Fixpoint scanBraces (s : string) (j : nat) (depth : Z) (inStr esc : bool)
  : option nat :=
  match s with
  | EmptyString => None
  | String ch s' =>
      if inStr then
        if esc then scanBraces s' (S j) depth inStr false
        else if Ascii.eqb ch "\" then scanBraces s' (S j) depth inStr true
        else if Ascii.eqb ch "034" then scanBraces s' (S j) depth false esc
        else scanBraces s' (S j) depth inStr esc
      else
        if Ascii.eqb ch "034" then scanBraces s' (S j) depth true esc
        else if Ascii.eqb ch "{" then scanBraces s' (S j) (depth + 1)%Z inStr esc
        else if Ascii.eqb ch "}" then
          if ((depth - 1) =? 0)%Z then Some j
          else scanBraces s' (S j) (depth - 1)%Z inStr esc
        else scanBraces s' (S j) depth inStr esc
  end.

(** [text.slice(i, j + 1)] for [i <= j]. *)
Definition slice (text : string) (i j1 : nat) : string :=
  substring i (j1 - i) text.

Definition extractJsonFrom (text : string) (start : nat) : option jsval :=
  match index start "{" text with
  | None => None
  | Some i =>
      match scanBraces (dropStr i text) i 0%Z false false with
      | Some j => JSON_parse (slice text i (j + 1))
      | None => None
      end
  end.

(* ================================================================== *)
(** ** Timestamp normalizer                                             *)
(* ================================================================== *)

Definition parseISO (t : jsval) : option Q :=
  if negb (truthy t) then None
  else match t with
       | JNum q => Some q
       | _ => Date_getTime t
       end.

(** [Date.UTC(2015, 0, 1)]. *)
Definition MIN_REASONABLE_TS : Q := 1420070400000%Q.
Definition MAX_REASONABLE_TS : Q := (Date_now + 7 * 24 * 60 * 60 * 1000)%Q.

Definition outOfWindow (ts : Q) : bool :=
  Qltb ts MIN_REASONABLE_TS || Qltb MAX_REASONABLE_TS ts.

(* ================================================================== *)
(** ** Data model                                                       *)
(* ================================================================== *)

Inductive Phase : Type := L1 | L2 | L3.
Inductive Status : Type := ok | over | under | imbalance.
Inductive Session : Type := session | idle.
Inductive RiskLevel : Type := low | medium | high.

Record VoltagePoint : Type := {
  p_dataset : string;
  p_connectorId : jsval;
  p_phase : Phase;
  p_ts : Q;
  p_voltage : Q
}.

Record VoltageTriplet : Type := {
  t_id : string;
  t_ts : Q;
  t_dataset : string;
  t_connectorId : jsval;
  t_L1 : option Q;
  t_L2 : option Q;
  t_L3 : option Q;
  t_delta : Q;
  t_status : Status;
  t_session : Session;
  t_sessionId : option string;
  t_sessionStatus : option string;
  t_sessionErrorCode : option string;
  t_idTag : option string;
  t_deviationDetails : list string
}.

Record TxSpan : Type := {
  tx : string;
  sp_connectorId : jsval;
  startTs : Q;
  endTs : Q;
  sp_idTag : option string
}.

Record StatusEvent : Type := {
  ev_ts : Q;
  ev_status : option string;
  ev_errorCode : option string
}.

Record FileData : Type := {
  f_name : string;
  f_enabled : bool;
  f_triplets : list VoltageTriplet;
  f_parsingErrors : list string
}.

Definition getPhase (t : VoltageTriplet) (ph : Phase) : option Q :=
  match ph with
  | L1 => t_L1 t
  | L2 => t_L2 t
  | L3 => t_L3 t
  end.

(* ================================================================== *)
(** ** Status evaluator                                                 *)
(* ================================================================== *)

Fixpoint presentValues (l : list (option Q)) : list Q :=
  match l with
  | [] => []
  | Some v :: l' => v :: presentValues l'
  | None :: l' => presentValues l'
  end.

(** [[t.L1, t.L2, t.L3].filter(v => v !== null)]. *)
Definition phaseValues (t : VoltageTriplet) : list Q :=
  presentValues [t_L1 t; t_L2 t; t_L3 t].

Definition nonEmpty {A : Type} (l : list A) : bool :=
  match l with [] => false | _ :: _ => true end.

Definition isOver (s : Status) : bool :=
  match s with over => true | _ => false end.

Definition isOk (s : Status) : bool :=
  match s with ok => true | _ => false end.

Definition evaluateStatus (t : VoltageTriplet) (vmin vmax : Q)
  : Status * list string :=
  let vals := phaseValues t in
  let deviations : list string := [] in
  let status := ok in
  if nonEmpty vals then
    let overVals := filter (fun v => Qltb vmax v) vals in
    let underVals := filter (fun v => Qltb v vmin) vals in
    let '(status, deviations) :=
      if nonEmpty overVals then (over, deviations ++ ["High"])
      else (status, deviations) in
    let '(status, deviations) :=
      if nonEmpty underVals
      then ((if negb (isOver status) then under else status), deviations ++ ["Low"])
      else (status, deviations) in
    let '(status, deviations) :=
      if Qle_bool 15 (t_delta t)
      then ((if isOk status then imbalance else status),
            deviations ++ ["Δ " +++ toFixed0 (t_delta t) +++ "V"])
      else (status, deviations) in
    (status, deviations)
  else (status, deviations).

(* ================================================================== *)
(** ** Voltage sample extraction helpers                                *)
(* ================================================================== *)

Definition upperChar (c : ascii) : ascii :=
  let n := nat_of_ascii c in
  if (97 <=? n) && (n <=? 122) then ascii_of_nat (n - 32) else c.

Definition lowerChar (c : ascii) : ascii :=
  let n := nat_of_ascii c in
  if (65 <=? n) && (n <=? 90) then ascii_of_nat (n + 32) else c.

Fixpoint mapStr (f : ascii -> ascii) (s : string) : string :=
  match s with
  | EmptyString => EmptyString
  | String c s' => String (f c) (mapStr f s')
  end.

Definition toUpperCase : string -> string := mapStr upperChar.
Definition toLowerCase : string -> string := mapStr lowerChar.

(** [s.includes(sub)]. *)
Definition includes (s sub : string) : bool :=
  match index 0 sub s with Some _ => true | None => false end.

Definition normPhase (p : jsval) : option Phase :=
  if negb (truthy p) then None
  else
    let s := toUpperCase (ToString p) in
    if includes s "L1" then Some L1
    else if includes s "L2" then Some L2
    else if includes s "L3" then Some L3
    else None.

(** [m === 'Voltage' || /^Voltage(\.L[123])?$/i.test(m)]. *)
Definition isVolts (m : string) : bool :=
  String.eqb m "Voltage" ||
  (let l := toLowerCase m in
   String.eqb l "voltage" || String.eqb l "voltage.l1" ||
   String.eqb l "voltage.l2" || String.eqb l "voltage.l3").

(** [s.split('.').pop()]. *)
Fixpoint afterLastDot (s : string) : string :=
  match s with
  | EmptyString => EmptyString
  | String c s' =>
      if includes s' "." then afterLastDot s'
      else if Ascii.eqb c "." then s'
      else s
  end.

(** [s.replace(',', '.')]: the first comma only. *)
Fixpoint replaceComma (s : string) : string :=
  match s with
  | EmptyString => EmptyString
  | String c s' =>
      if Ascii.eqb c "," then String "." s' else String c (replaceComma s')
  end.

(* ================================================================== *)
(** ** Parse context and message handlers                               *)
(* ================================================================== *)

(** The mutable tables of one [parseLogFile] call. *)
Record Ctx : Type := {
  points : list VoltagePoint;
  parsingErrors : list string;
  statusTimeline : jsobj (list StatusEvent);
  txSpansByTx : jsobj TxSpan
}.

Definition emptyCtx : Ctx :=
  {| points := []; parsingErrors := []; statusTimeline := []; txSpansByTx := [] |}.

Definition pushError (c : Ctx) (msg : string) : Ctx :=
  {| points := points c;
     parsingErrors := parsingErrors c ++ [msg];
     statusTimeline := statusTimeline c;
     txSpansByTx := txSpansByTx c |}.

Definition setPoints (c : Ctx) (pts : list VoltagePoint) : Ctx :=
  {| points := pts;
     parsingErrors := parsingErrors c;
     statusTimeline := statusTimeline c;
     txSpansByTx := txSpansByTx c |}.

Definition setTimeline (c : Ctx) (tl : jsobj (list StatusEvent)) : Ctx :=
  {| points := points c;
     parsingErrors := parsingErrors c;
     statusTimeline := tl;
     txSpansByTx := txSpansByTx c |}.

Definition setSpans (c : Ctx) (sp : jsobj TxSpan) : Ctx :=
  {| points := points c;
     parsingErrors := parsingErrors c;
     statusTimeline := statusTimeline c;
     txSpansByTx := sp |}.

Fixpoint forEachM {A S : Type} (f : S -> A -> exc S) (l : list A) (s : S)
  : exc S :=
  match l with
  | [] => Ret s
  | a :: l' => s' <- f s a ;; forEachM f l' s'
  end.

Definition readAnyTimestamp (o : jsval) : option Q :=
  if negb (truthy o) then None
  else parseISO (field o "timestamp" ??? field o "timeStamp" ??? field o "ts"
                 ??? field o "time" ??? field o "datetime" ??? field o "dateTime").

Definition orNone (a b : option Q) : option Q :=
  match a with Some _ => a | None => b end.

Definition strOrUndefined (v : jsval) : option string :=
  if truthy v then Some (ToString v) else None.

(** [pushStatus(connectorId, ts, status, errorCode)]; the connector is a
    number, used as a property key. *)
Definition pushStatus (c : Ctx) (connectorId : jsval) (ev : StatusEvent) : Ctx :=
  let k := ToString connectorId in
  let cur := match objGet (statusTimeline c) k with Some l => l | None => [] end in
  setTimeline c (objSet (statusTimeline c) k (cur ++ [ev])).

(** Handler of the [StatusNotification] scan; [obj] is truthy. *)
Definition onStatusNotification (obj : jsval) (pos : nat) (c : Ctx) : exc Ctx :=
  let conn := ToNumber (field obj "connectorId" ??? JNum 0%Q) in
  match orNone (readAnyTimestamp obj) (readAnyTimestamp (field obj "payload")) with
  | None => Ret c
  | Some ts =>
      if outOfWindow ts then
        iso <- Date_toISOString ts ;;
        Ret (pushError c
               ("Suspicious timestamp (StatusNotification): " +++ dq +++
                ToString (field obj "timestamp" ??? field obj "ts" ??? JStr "") +++
                dq +++ " -> " +++ iso +++ " near char " +++ natStr pos))
      else
        let st := field obj "status" ??? optField (field obj "statusInfo") "status" in
        let err := field obj "errorCode" ??? optField (field obj "statusInfo") "errorCode" in
        Ret (pushStatus c conn
               {| ev_ts := ts;
                  ev_status := strOrUndefined st;
                  ev_errorCode := strOrUndefined err |})
  end.

(** The span update shared by the three sources of transaction evidence:
    [cur = txSpansByTx[key] ?? fresh; widen; cur.connectorId = conn;
    (idTag); txSpansByTx[key] = cur].  The table is a plain object: for a
    key that names an inherited member the source finds that member, not
    a span, and updates it; the embedding is for the keys that pass
    [plainKey]. *)
Definition widenSpan (c : Ctx) (key : string) (conn : jsval) (ts : Q)
  (newTag : option string) : Ctx :=
  let cur := match objGet (txSpansByTx c) key with
             | Some s => s
             | None => {| tx := key; sp_connectorId := conn;
                          startTs := ts; endTs := ts; sp_idTag := None |}
             end in
  let cur' := {| tx := tx cur;
                 sp_connectorId := conn;
                 startTs := Qmin (startTs cur) ts;
                 endTs := Qmax (endTs cur) ts;
                 sp_idTag := match newTag with
                             | Some g => Some g
                             | None => sp_idTag cur
                             end |} in
  setSpans c (objSet (txSpansByTx c) key cur').

(** Handler of the [StartTransaction] scan. *)
Definition onStartTransaction (obj : jsval) (pos : nat) (c : Ctx) : exc Ctx :=
  let txv := field obj "transactionId" ??? field obj "transactionID" in
  let conn := field obj "connectorId" ??? JNum 1%Q in
  match readAnyTimestamp obj with
  | Some ts =>
      if negb (truthy txv) then Ret c
      else Ret (widenSpan c (ToString txv) (ToNumber conn) ts
                  (strOrUndefined (field obj "idTag")))
  | None => Ret c
  end.

(** Handler of the [StopTransaction] scan. *)
Definition onStopTransaction (obj : jsval) (pos : nat) (c : Ctx) : exc Ctx :=
  let txv := field obj "transactionId" ??? field obj "transactionID" in
  let conn := field obj "connectorId" ??? JNum 1%Q in
  match readAnyTimestamp obj with
  | Some ts =>
      if negb (truthy txv) then Ret c
      else Ret (widenSpan c (ToString txv) (ToNumber conn) ts None)
  | None => Ret c
  end.

(** The marker scanner: [while (true) { p = text.indexOf(marker, j); ... }].
    One unit of [fuel] is spent per marker occurrence. *)
Fixpoint scanFrom (fuel : nat) (text marker : string)
  (handler : jsval -> nat -> Ctx -> exc Ctx) (j : nat) (c : Ctx) : exc Ctx :=
  match index j marker text with
  | None => Ret c
  | Some p =>
      match fuel with
      | O => Fuel
      | S fuel' =>
          c' <- match extractJsonFrom text p with
                | Some obj => if truthy obj then handler obj p c else Ret c
                | None => Ret c
                end ;;
          scanFrom fuel' text marker handler (p + String.length marker) c'
      end
  end.

Definition scan (text marker : string)
  (handler : jsval -> nat -> Ctx -> exc Ctx) (c : Ctx) : exc Ctx :=
  scanFrom (S (String.length text)) text marker handler 0 c.

(** One [sampledValue] entry of the meter loop. *)
Definition sampleStep (dataset : string) (conn : jsval) (dt : Q)
  (pts : list VoltagePoint) (sv : jsval) : exc (list VoltagePoint) :=
  measurand <- getProp sv "measurand" ;;
  let m := ToString (measurand ||| JStr "") in
  if negb (isVolts m) then Ret pts
  else
    let phaseRaw := field sv "phase" ||| JStr (afterLastDot (ToString measurand)) in
    let phase := normPhase phaseRaw in
    let val := parseFloat (replaceComma (ToString (field sv "value" ??? JStr ""))) in
    match phase, val with
    | Some ph, Some v =>
        if Qltb v 600
        then Ret (pts ++ [{| p_dataset := dataset; p_connectorId := conn;
                             p_phase := ph; p_ts := dt; p_voltage := v |}])
        else Ret pts
    | _, _ => Ret pts
    end.

(** One [meterValue] entry of the meter loop. *)
Definition meterEntry (dataset : string) (conn tx : jsval) (pos : nat)
  (c : Ctx) (mv : jsval) : exc Ctx :=
  stamp <- getProp mv "timestamp" ;;
  match parseISO stamp with
  | None =>
      Ret (pushError c ("Invalid timestamp: " +++ dq +++ ToString stamp +++
                        dq +++ " near char " +++ natStr pos))
  | Some dt =>
      if outOfWindow dt then
        iso <- Date_toISOString dt ;;
        Ret (pushError c ("Suspicious timestamp: " +++ dq +++ ToString stamp +++
                          dq +++ " -> " +++ iso +++ " near char " +++ natStr pos))
      else
        let c1 := if truthy tx then widenSpan c (ToString tx) conn dt None else c in
        samples <- iterate (field mv "sampledValue" ||| JArr []) ;;
        pts <- forEachM (sampleStep dataset conn dt) samples (points c1) ;;
        Ret (setPoints c1 pts)
  end.

(** Body of the meter loop for one marker occurrence whose JSON object
    [obj] is truthy and has a truthy [meterValue]. *)
Definition onMeterValues (dataset : string) (obj : jsval) (pos : nat) (c : Ctx)
  : exc Ctx :=
  let conn := field obj "connectorId" ||| JNum 1%Q in
  let tx := field obj "transactionId" ??? field obj "transactionID"
            ??? field obj "transactionid" ??? JNull in
  entries <- iterate (field obj "meterValue" ||| JArr []) ;;
  forEachM (meterEntry dataset conn tx pos) entries c.

(** The [while (true)] loop over the [MeterValues] marker; the cursor
    advances by 12.  One unit of [fuel] is spent per marker occurrence. *)
Fixpoint meterLoop (fuel : nat) (dataset text : string) (idx : nat) (c : Ctx)
  : exc Ctx :=
  match index idx "MeterValues" text with
  | None => Ret c
  | Some pos =>
      match fuel with
      | O => Fuel
      | S fuel' =>
          c' <- match extractJsonFrom text pos with
                | Some obj =>
                    if truthy obj && truthy (field obj "meterValue")
                    then onMeterValues dataset obj pos c
                    else Ret c
                | None => Ret c
                end ;;
          meterLoop fuel' dataset text (pos + 12) c'
      end
  end.

(* ================================================================== *)
(** ** Sorting                                                          *)
(* ================================================================== *)

(** [Array.prototype.sort] with the comparator [(a, b) => key a - key b]
    is a stable sort by [key]. *)
Fixpoint insertBy {A : Type} (key : A -> Q) (x : A) (l : list A) : list A :=
  match l with
  | [] => [x]
  | y :: l' => if Qle_bool (key x) (key y) then x :: l else y :: insertBy key x l'
  end.

Definition sortBy {A : Type} (key : A -> Q) (l : list A) : list A :=
  fold_right (insertBy key) [] l.

(** [for (const k of Object.keys(o)) o[Number(k)].sort(cmp)]: the key is
    converted to a number and back to a property key; a missing entry
    makes [.sort] a call on [undefined]. *)
Definition sortEntries {A : Type} (key : A -> Q) (o : jsobj (list A))
  : exc (jsobj (list A)) :=
  forEachM
    (fun acc k =>
       let k' := ToString (ToNumber (JStr k)) in
       match objGet acc k' with
       | Some l => Ret (objSet acc k' (sortBy key l))
       | None => Throw TypeError
       end)
    (objectKeys o) o.

(* ================================================================== *)
(** ** Triplet builder                                                  *)
(* ================================================================== *)

(** [Math.floor(p.ts / 1000) * 1000]. *)
Definition roundedTs (ts : Q) : Q := inject_Z (Qfloor (ts / 1000) * 1000).

Definition tripletKey (p : VoltagePoint) : string :=
  p_dataset p +++ "|" +++ ToString (p_connectorId p) +++ "|" +++
  ToString (JNum (roundedTs (p_ts p))).

Definition freshTriplet (p : VoltagePoint) : VoltageTriplet :=
  {| t_id := tripletKey p;
     t_ts := roundedTs (p_ts p);
     t_dataset := p_dataset p;
     t_connectorId := p_connectorId p;
     t_L1 := None; t_L2 := None; t_L3 := None;
     t_delta := 0%Q;
     t_status := ok;
     t_session := idle;
     t_sessionId := None;
     t_sessionStatus := None;
     t_sessionErrorCode := None;
     t_idTag := None;
     t_deviationDetails := [] |}.

Definition setPhase (t : VoltageTriplet) (ph : Phase) (v : Q) : VoltageTriplet :=
  {| t_id := t_id t;
     t_ts := t_ts t;
     t_dataset := t_dataset t;
     t_connectorId := t_connectorId t;
     t_L1 := match ph with L1 => Some v | _ => t_L1 t end;
     t_L2 := match ph with L2 => Some v | _ => t_L2 t end;
     t_L3 := match ph with L3 => Some v | _ => t_L3 t end;
     t_delta := t_delta t;
     t_status := t_status t;
     t_session := t_session t;
     t_sessionId := t_sessionId t;
     t_sessionStatus := t_sessionStatus t;
     t_sessionErrorCode := t_sessionErrorCode t;
     t_idTag := t_idTag t;
     t_deviationDetails := t_deviationDetails t |}.

(** Body of [for (const p of points)]; [tripletMap] is a [Map], iterated
    in insertion order. *)
Definition addPoint (tripletMap : jsobj VoltageTriplet) (p : VoltagePoint)
  : jsobj VoltageTriplet :=
  let key := tripletKey p in
  let m := match objGet tripletMap key with
           | Some _ => tripletMap
           | None => objSet tripletMap key (freshTriplet p)
           end in
  match objGet m key with
  | Some t => objSet m key (setPhase t (p_phase p) (p_voltage p))
  | None => m
  end.

Definition buildTripletMap (pts : list VoltagePoint) : jsobj VoltageTriplet :=
  fold_left addPoint pts [].

(* ================================================================== *)
(** ** Finalization: delta, status, session, status timeline            *)
(* ================================================================== *)

Definition groupByConnector (spans : list TxSpan) : jsobj (list TxSpan) :=
  fold_left
    (fun acc sp =>
       let k := ToString (sp_connectorId sp) in
       let cur := match objGet acc k with Some l => l | None => [] end in
       objSet acc k (cur ++ [sp]))
    spans [].

(** [Math.min(...vals)] and [Math.max(...vals)] on a non-empty list. *)
Definition minOf (v : Q) (vs : list Q) : Q := fold_left Qmin vs v.
Definition maxOf (v : Q) (vs : list Q) : Q := fold_left Qmax vs v.

Definition isMatch (ts : Q) (s : TxSpan) : bool :=
  Qle_bool (startTs s) (ts + 60000) && Qle_bool ts (endTs s + 60000).

Definition tooOld (ts : Q) (s : TxSpan) : bool :=
  Qltb (startTs s) (ts - 10 * 60 * 1000).

(** The loop [for (let i = spans.length - 1; i >= 0; i--)], on the spans
    listed from the last index down to the first. *)
Fixpoint findActive (ts : Q) (fromLast : list TxSpan) : option TxSpan :=
  match fromLast with
  | [] => None
  | s :: rest =>
      if isMatch ts s then Some s
      else if tooOld ts s then None
      else findActive ts rest
  end.

Definition matchSession (spans : list TxSpan) (ts : Q) : option TxSpan :=
  findActive ts (rev spans).

(** Predecessor search in a status timeline:
    [while (lo <= hi) { mid = (lo + hi) >> 1; ... }]. *)
Fixpoint bsearch (fuel : nat) (arr : list StatusEvent) (ts : Q) (lo hi best : Z)
  : Z :=
  match fuel with
  | O => best
  | S fuel' =>
      if (lo <=? hi)%Z then
        let mid := Z.shiftr (lo + hi) 1 in
        match nth_error arr (Z.to_nat mid) with
        | Some e =>
            if Qle_bool (ev_ts e) ts
            then bsearch fuel' arr ts (mid + 1)%Z hi mid
            else bsearch fuel' arr ts lo (mid - 1)%Z best
        | None => best
        end
      else best
  end.

Definition lastStatusAtOrBefore (arr : list StatusEvent) (ts : Q)
  : option StatusEvent :=
  let best := bsearch (S (List.length arr)) arr ts 0%Z (Z.of_nat (List.length arr) - 1)%Z (-1)%Z in
  if (0 <=? best)%Z then nth_error arr (Z.to_nat best) else None.

Definition nonEmptyStr (o : option string) : option string :=
  match o with
  | Some s => if String.eqb s "" then None else Some s
  | None => None
  end.

(** Body of [for (const t of tripletMap.values())]; [None] when the
    triplet is not pushed.  The span table and the status timelines are
    plain objects, looked up here by own key: the embedding is for
    connector ids whose text passes [plainKey]. *)
Definition finalizeTriplet (txSpansByConn : jsobj (list TxSpan))
  (timeline : jsobj (list StatusEvent)) (vmin vmax : Q) (t : VoltageTriplet)
  : option VoltageTriplet :=
  match phaseValues t with
  | [] => None
  | v :: vs =>
      let minV := minOf v vs in
      let maxV := maxOf v vs in
      let delta := (if nonEmpty vs then maxV - minV else 0)%Q in
      let t1 := {| t_id := t_id t; t_ts := t_ts t; t_dataset := t_dataset t;
                   t_connectorId := t_connectorId t;
                   t_L1 := t_L1 t; t_L2 := t_L2 t; t_L3 := t_L3 t;
                   t_delta := delta;
                   t_status := t_status t; t_session := t_session t;
                   t_sessionId := t_sessionId t;
                   t_sessionStatus := t_sessionStatus t;
                   t_sessionErrorCode := t_sessionErrorCode t;
                   t_idTag := t_idTag t;
                   t_deviationDetails := t_deviationDetails t |} in
      let '(status, deviationDetails) := evaluateStatus t1 vmin vmax in
      let connKey := ToString (t_connectorId t) in
      let spans := match objGet txSpansByConn connKey with
                   | Some l => l
                   | None => []
                   end in
      let active := matchSession spans (t_ts t) in
      let stArr := match objGet timeline connKey with
                   | Some l => l
                   | None => match objGet timeline (ToString (JNum 0%Q)) with
                             | Some l => l
                             | None => []
                             end
                   end in
      let found := lastStatusAtOrBefore stArr (t_ts t) in
      Some {| t_id := t_id t; t_ts := t_ts t; t_dataset := t_dataset t;
              t_connectorId := t_connectorId t;
              t_L1 := t_L1 t; t_L2 := t_L2 t; t_L3 := t_L3 t;
              t_delta := delta;
              t_status := status;
              t_session := match active with Some _ => session | None => idle end;
              t_sessionId := match active with
                             | Some s => Some (tx s)
                             | None => t_sessionId t
                             end;
              t_sessionStatus := match found with
                                 | Some e => ev_status e
                                 | None => t_sessionStatus t
                                 end;
              t_sessionErrorCode := match found with
                                    | Some e => ev_errorCode e
                                    | None => t_sessionErrorCode t
                                    end;
              t_idTag := match active with
                         | Some s => match nonEmptyStr (sp_idTag s) with
                                     | Some g => Some g
                                     | None => t_idTag t
                                     end
                         | None => t_idTag t
                         end;
              t_deviationDetails := deviationDetails |}
  end.

Fixpoint keepSome {A : Type} (l : list (option A)) : list A :=
  match l with
  | [] => []
  | Some a :: l' => a :: keepSome l'
  | None :: l' => keepSome l'
  end.

(** Everything [parseLogFile] does after the meter loop. *)
Definition finishParse (name : string) (c : Ctx) (vmin vmax : Q) : exc FileData :=
  let sorted := sortBy p_ts (points c) in
  let tripletMap := buildTripletMap sorted in
  txSpansByConn <- sortEntries startTs (groupByConnector (objectValues (txSpansByTx c))) ;;
  let triplets :=
    keepSome (map (fun kv => finalizeTriplet txSpansByConn (statusTimeline c)
                               vmin vmax (snd kv)) tripletMap) in
  Ret {| f_name := name;
         f_enabled := true;
         f_triplets := sortBy t_ts triplets;
         f_parsingErrors := parsingErrors c |}.

(** [parseLogFile(file, vmin, vmax)], with [name = file.name] and
    [text = await file.text()]. *)
Definition parseLogFile (name text : string) (vmin vmax : Q) : exc FileData :=
  c1 <- scan text "StatusNotification" onStatusNotification emptyCtx ;;
  c2 <- scan text "StartTransaction" onStartTransaction c1 ;;
  c3 <- scan text "StopTransaction" onStopTransaction c2 ;;
  tl <- sortEntries ev_ts (statusTimeline c3) ;;
  c4 <- meterLoop (S (String.length text)) name text 0 (setTimeline c3 tl) ;;
  finishParse name c4 vmin vmax.

(* ================================================================== *)
(** ** Aggregate statistics engine                                      *)
(* ================================================================== *)

Definition reEvaluate (vmin vmax : Q) (t : VoltageTriplet) : VoltageTriplet :=
  let '(status, deviationDetails) := evaluateStatus t vmin vmax in
  {| t_id := t_id t; t_ts := t_ts t; t_dataset := t_dataset t;
     t_connectorId := t_connectorId t;
     t_L1 := t_L1 t; t_L2 := t_L2 t; t_L3 := t_L3 t;
     t_delta := t_delta t;
     t_status := status;
     t_session := t_session t;
     t_sessionId := t_sessionId t;
     t_sessionStatus := t_sessionStatus t;
     t_sessionErrorCode := t_sessionErrorCode t;
     t_idTag := t_idTag t;
     t_deviationDetails := deviationDetails |}.

Definition allData (files : list FileData) (vmin vmax : Q) : list VoltageTriplet :=
  sortBy t_ts
    (map (reEvaluate vmin vmax) (flat_map f_triplets (filter f_enabled files))).

Definition isStatus (a b : Status) : bool :=
  match a, b with
  | ok, ok | over, over | under, under | imbalance, imbalance => true
  | _, _ => false
  end.

Record PhaseDetailedStats : Type := {
  ps_min : Q;
  ps_max : Q;
  ps_avg : Q;
  underCount : nat;
  overCount : nat;
  zeroCount : nat
}.

Record AnalysisStats : Type := {
  totalPoints : nat;
  startTime : option Q;
  endTime : option Q;
  durationHours : Q;
  cntUnder : nat;
  cntOver : nat;
  cntImbalance : nat;
  cntDeepDip : nat;
  cntInvalidDates : nat;
  maxDelta : Q;
  riskLevel : RiskLevel;
  phases_L1 : PhaseDetailedStats;
  phases_L2 : PhaseDetailedStats;
  phases_L3 : PhaseDetailedStats
}.

Definition initPhaseStats : PhaseDetailedStats :=
  {| ps_min := 999; ps_max := 0; ps_avg := 0;
     underCount := 0; overCount := 0; zeroCount := 0 |}.

(** Per-phase accumulator of the main loop: [s.phases[ph]], [sums[ph]]
    and [counts[ph]]. *)
Record PhaseAcc : Type := {
  a_stats : PhaseDetailedStats;
  a_sum : Q;
  a_count : nat
}.

(** Everything the loop [for (const t of allData)] updates. *)
Record Acc : Type := {
  a_cntUnder : nat;
  a_cntOver : nat;
  a_cntImbalance : nat;
  a_cntDeepDip : nat;
  a_maxDelta : Q;
  a_L1 : PhaseAcc;
  a_L2 : PhaseAcc;
  a_L3 : PhaseAcc
}.

Definition initAcc : Acc :=
  {| a_cntUnder := 0; a_cntOver := 0; a_cntImbalance := 0; a_cntDeepDip := 0;
     a_maxDelta := 0;
     a_L1 := {| a_stats := initPhaseStats; a_sum := 0; a_count := 0 |};
     a_L2 := {| a_stats := initPhaseStats; a_sum := 0; a_count := 0 |};
     a_L3 := {| a_stats := initPhaseStats; a_sum := 0; a_count := 0 |} |}.

Definition incIf (b : bool) (n : nat) : nat := if b then S n else n.

(** Body of the [forEach(ph => ...)] callback, except for the shared
    counter [cntDeepDip]. *)
Definition phaseStep (vmin vmax : Q) (val : option Q) (pa : PhaseAcc) : PhaseAcc :=
  match val with
  | None => pa
  | Some v =>
      let ps := a_stats pa in
      {| a_stats :=
           {| ps_min := if Qltb v (ps_min ps) then v else ps_min ps;
              ps_max := if Qltb (ps_max ps) v then v else ps_max ps;
              ps_avg := ps_avg ps;
              underCount := incIf (Qltb v vmin) (underCount ps);
              overCount := incIf (Qltb vmax v) (overCount ps);
              zeroCount := zeroCount ps |};
         a_sum := (a_sum pa + v)%Q;
         a_count := S (a_count pa) |}
  end.

(** [if (val !== null) { ... if (val < 190) s.cntDeepDip++; ... }]. *)
Definition deepDipStep (val : option Q) (n : nat) : nat :=
  match val with
  | None => n
  | Some v => incIf (Qltb v 190) n
  end.

Definition statsStep (vmin vmax : Q) (a : Acc) (t : VoltageTriplet) : Acc :=
  {| a_cntUnder := incIf (isStatus (t_status t) under) (a_cntUnder a);
     a_cntOver := incIf (isStatus (t_status t) over) (a_cntOver a);
     a_cntImbalance := incIf (isStatus (t_status t) imbalance) (a_cntImbalance a);
     a_cntDeepDip :=
       deepDipStep (t_L3 t) (deepDipStep (t_L2 t) (deepDipStep (t_L1 t) (a_cntDeepDip a)));
     a_maxDelta := if Qltb (a_maxDelta a) (t_delta t) then t_delta t else a_maxDelta a;
     a_L1 := phaseStep vmin vmax (t_L1 t) (a_L1 a);
     a_L2 := phaseStep vmin vmax (t_L2 t) (a_L2 a);
     a_L3 := phaseStep vmin vmax (t_L3 t) (a_L3 a) |}.

(** The closing [forEach] over the phases: average and the [999] reset.
    The sum and the quotient are exact here and rounded to doubles in the
    source; no property below is about the average of a phase with
    readings. *)
Definition closePhase (pa : PhaseAcc) : PhaseDetailedStats :=
  let ps := a_stats pa in
  {| ps_min := if Qeq_bool (ps_min ps) 999 then 0 else ps_min ps;
     ps_max := ps_max ps;
     ps_avg := if 0 <? a_count pa
               then (a_sum pa / inject_Z (Z.of_nat (a_count pa)))%Q
               else ps_avg ps;
     underCount := underCount ps;
     overCount := overCount ps;
     zeroCount := zeroCount ps |}.

Definition classifyRisk (deepDip : nat) (maxD : Q) (invalidDates violations : nat)
  : RiskLevel :=
  if (0 <? deepDip) || Qltb 30 maxD || (100 <? invalidDates) then high
  else if (50 <? violations) || (10 <? invalidDates) then medium
  else low.

Definition isNonZero (o : option Q) : bool :=
  match o with Some q => negb (Qeq_bool q 0) | None => false end.

(** The [analysisStats] memo of the dashboard. *)
Definition analysisStats (files : list FileData) (vmin vmax : Q) : AnalysisStats :=
  let data := allData files vmin vmax in
  let totalParsingErrors :=
    fold_left (fun sum f => sum + List.length (f_parsingErrors f))
              (filter f_enabled files) 0 in
  let start := option_map t_ts (hd_error data) in
  let finish := option_map t_ts (hd_error (rev data)) in
  match data with
  | [] =>
      {| totalPoints := List.length data;
         startTime := start; endTime := finish;
         durationHours := 0;
         cntUnder := 0; cntOver := 0; cntImbalance := 0; cntDeepDip := 0;
         cntInvalidDates := totalParsingErrors;
         maxDelta := 0;
         riskLevel := low;
         phases_L1 := initPhaseStats;
         phases_L2 := initPhaseStats;
         phases_L3 := initPhaseStats |}
  | _ :: _ =>
      let a := fold_left (statsStep vmin vmax) data initAcc in
      {| totalPoints := List.length data;
         startTime := start; endTime := finish;
         durationHours :=
           match start, finish with
           | Some st, Some en =>
               if isNonZero start && isNonZero finish
               then ((en - st) / (1000 * 60 * 60))%Q else 0%Q
           | _, _ => 0%Q
           end;
         cntUnder := a_cntUnder a;
         cntOver := a_cntOver a;
         cntImbalance := a_cntImbalance a;
         cntDeepDip := a_cntDeepDip a;
         cntInvalidDates := totalParsingErrors;
         maxDelta := a_maxDelta a;
         riskLevel :=
           classifyRisk (a_cntDeepDip a) (a_maxDelta a) totalParsingErrors
                        (a_cntUnder a + a_cntOver a + a_cntImbalance a);
         phases_L1 := closePhase (a_L1 a);
         phases_L2 := closePhase (a_L2 a);
         phases_L3 := closePhase (a_L3 a) |}
  end.

(* ================================================================== *)
(** ** Device metadata: firmware version and connector type             *)
(* ================================================================== *)

(** White space of [trim] and of the [\s] class, for ASCII text: the
    candidates are tokens of device metadata, and the code points past 127
    that the platform also strips are not represented. *)
Definition isSpace (c : ascii) : bool :=
  let n := nat_of_ascii c in
  ((9 <=? n) && (n <=? 13)) || (n =? 32).

Fixpoint trimStart (s : string) : string :=
  match s with
  | EmptyString => EmptyString
  | String c s' => if isSpace c then trimStart s' else s
  end.

Fixpoint trimEnd (s : string) : string :=
  match s with
  | EmptyString => EmptyString
  | String c s' =>
      match trimEnd s' with
      | EmptyString => if isSpace c then EmptyString else String c EmptyString
      | String d r => String c (String d r)
      end
  end.

(** [s.trim()]. *)
Definition trim (s : string) : string := trimEnd (trimStart s).

(** [s.replace(/\s+/g, '')]. *)
Fixpoint removeSpaces (s : string) : string :=
  match s with
  | EmptyString => EmptyString
  | String c s' => if isSpace c then removeSpaces s' else String c (removeSpaces s')
  end.

Definition isLetter (c : ascii) : bool :=
  let n := nat_of_ascii c in
  ((65 <=? n) && (n <=? 90)) || ((97 <=? n) && (n <=? 122)).

(** [[A-Za-z0-9]]. *)
Definition isAlnum (c : ascii) : bool := isLetter c || isDigit c.

Fixpoint allChars (f : ascii -> bool) (s : string) : bool :=
  match s with
  | EmptyString => true
  | String c s' => f c && allChars f s'
  end.

Fixpoint someChar (f : ascii -> bool) (s : string) : bool :=
  match s with
  | EmptyString => false
  | String c s' => f c || someChar f s'
  end.

(** [/^[A-Za-z0-9][A-Za-z0-9._\-]{1,60}$/.test(s) && /\d/.test(s)]. *)
Definition looksLikeVersion (s : string) : bool :=
  match s with
  | EmptyString => false
  | String c rest =>
      isAlnum c &&
      allChars (fun x => isAlnum x || Ascii.eqb x "." || Ascii.eqb x "_" ||
                         Ascii.eqb x "-") rest &&
      (1 <=? String.length rest) && (String.length rest <=? 60)
  end && someChar isDigit s.

(** [maybeSetFirmware(cand)] on the [firmwareVersion] field of
    [bootInfo]. *)
Definition maybeSetFirmware (firmwareVersion : option string) (cand : jsval)
  : option string :=
  if match firmwareVersion with
     | Some v => negb (String.eqb v "")
     | None => false
     end
  then firmwareVersion
  else if nullish cand then firmwareVersion
  else
    let s := trim (ToString cand) in
    if String.eqb s "" then firmwareVersion
    else if negb (looksLikeVersion s) then firmwareVersion
    else Some s.

(** [/^[A-Za-z0-9][A-Za-z0-9/._\-]{1,20}$/.test(s) && /[A-Za-z]/.test(s)]. *)
Definition looksLikeType (s : string) : bool :=
  match s with
  | EmptyString => false
  | String c rest =>
      isAlnum c &&
      allChars (fun x => isAlnum x || Ascii.eqb x "/" || Ascii.eqb x "." ||
                         Ascii.eqb x "_" || Ascii.eqb x "-") rest &&
      (1 <=? String.length rest) && (String.length rest <=? 20)
  end && someChar isLetter s.

(** [normalizeConnectorType(raw)]; [None] is [undefined]. *)
Definition normalizeConnectorType (raw : jsval) : option string :=
  let s := trim (ToString (raw ||| JStr "")) in
  if String.eqb s "" then None
  else
    let u := removeSpaces (toUpperCase s) in
    if includes u "CCS" then (if includes u "CCS2" then Some "CCS2" else Some "CCS")
    else if includes u "CHADEMO" then Some "CHAdeMO"
    else if includes u "TYPE2" || includes u "IEC62196T2" || includes u "IEC62196-2"
    then Some "Type2"
    else if includes u "GBT" || includes u "GB/T" then Some "GB/T"
    else if includes u "NACS" || includes u "TESLA" then Some "NACS"
    else if looksLikeType s then Some s
    else None.

(* ================================================================== *)
(** ** Dashboard state: uploads, removal, incident summary              *)
(* ================================================================== *)

(** The loop of [handleUpload] over the dropped files, a file being its
    name and its text: the files are parsed in order and the first
    exception leaves the loop. *)
Definition parseBatch (uploadedFiles : list (string * string)) (vmin vmax : Q)
  : exc (list FileData) :=
  forEachM
    (fun results f =>
       data <- parseLogFile (fst f) (snd f) vmin vmax ;;
       Ret (results ++ [data]))
    uploadedFiles [].

(** Value of the [files] state after [handleUpload]:
    [setFiles(prev => [...prev, ...results])] is the last statement of the
    [try] block; the [catch] branch reports the error and leaves the state
    alone. *)
Definition handleUpload (prev : list FileData)
  (uploadedFiles : list (string * string)) (vmin vmax : Q) : list FileData :=
  match parseBatch uploadedFiles vmin vmax with
  | Ret results => prev ++ results
  | Throw _ => prev
  | Fuel => prev
  end.

(** [setFiles(prev => prev.filter(f => f.name !== name))]. *)
Definition removeFile (name : string) (prev : list FileData) : list FileData :=
  filter (fun f => negb (String.eqb (f_name f) name)) prev.

(** [set.add(x)] on a [Set] kept in insertion order. *)
Definition setAdd (set : list string) (x : string) : list string :=
  if existsb (String.eqb x) set then set else set ++ [x].

(** [Array.from(new Set(l))]. *)
Definition distinct (l : list string) : list string := fold_left setAdd l [].

(** [s.startsWith(pre)]. *)
Definition startsWith (s pre : string) : bool := prefix pre s.

Record ParsingErrorAgg : Type := {
  errors : list string;
  suspiciousCount : nat;
  suspiciousSamples : list string
}.

(** The [parsingErrorAgg] memo of the dashboard. *)
Definition parsingErrorAgg (files : list FileData) : ParsingErrorAgg :=
  let errs := flat_map f_parsingErrors (filter f_enabled files) in
  let suspicious := filter (fun e => startsWith e "Suspicious timestamp") errs in
  {| errors := errs;
     suspiciousCount := List.length suspicious;
     suspiciousSamples := firstn 5 (distinct suspicious) |}.

End WithHost.

(* ================================================================== *)
(** ** Chart utilities                                                  *)
(* ================================================================== *)

(** [clampDomain(domain, minTs, maxTs)]: shift the window into the data
    range, keeping its width where it fits. *)
Definition clampDomain (domain : Q * Q) (minTs maxTs : Q) : Q * Q :=
  let width := (snd domain - fst domain)%Q in
  let a := fst domain in
  let b := snd domain in
  let '(a, b) := if Qltb a minTs then (minTs, (minTs + width)%Q) else (a, b) in
  let '(a, b) := if Qltb maxTs b then ((maxTs - width)%Q, maxTs) else (a, b) in
  let a := if Qltb a minTs then minTs else a in
  let b := if Qltb maxTs b then maxTs else b in
  (a, b).

(** Tick steps of the time axis, in milliseconds. *)
Definition candidates : list Q :=
  map (fun x => (x * 1000)%Q)
      [1; 2; 5; 10; 15; 30;
       60; 2 * 60; 5 * 60; 10 * 60; 15 * 60; 30 * 60;
       60 * 60; 2 * 60 * 60; 6 * 60 * 60; 12 * 60 * 60;
       24 * 60 * 60]%Q.

(** [niceStep(spanMs)]: the candidate nearest to an eighth of the span,
    the earlier one on a tie. *)
Definition niceStep (spanMs : Q) : Q :=
  let target := (spanMs / 8)%Q in
  let best := nth 0 candidates 0%Q in
  let bestDist := Qabs (best - target) in
  fst (fold_left
         (fun (acc : Q * Q) c =>
            let d := Qabs (c - target) in
            if Qltb d (snd acc) then (c, d) else acc)
         candidates (best, bestDist)).

(** [Math.ceil(n / target)] for a positive [target]. *)
Definition ceilDiv (n target : nat) : nat := (n + target - 1) / target.

(** The loop [for (let i = 0; i < data.length; i += step) out.push(data[i])].
    Each element is kept with the index it was read at: the elements of
    the array are distinct objects, so that the identity test made after
    the loop compares positions. *)
Fixpoint strideLoop {A : Type} (fuel : nat) (data : list A) (step i : nat)
  (out : list (nat * A)) : list (nat * A) :=
  match fuel with
  | O => out
  | S fuel' =>
      match nth_error data i with
      | Some x => strideLoop fuel' data step (i + step) (out ++ [(i, x)])
      | None => out
      end
  end.

(** [downsample(data, target)].  With [target = 0] the step is
    [Infinity] and the loop reads index 0 only. *)
Definition downsample {A : Type} (data : list A) (target : nat) : list A :=
  let n := List.length data in
  if n <=? target then data
  else
    let out :=
      match target with
      | O => match nth_error data 0 with Some x => [(0, x)] | None => [] end
      | S _ => strideLoop n data (ceilDiv n target) 0 []
      end in
    let out :=
      match nth_error data (n - 1) with
      | Some y =>
          match hd_error (rev out) with
          | Some (i, _) => if i =? n - 1 then out else out ++ [(n - 1, y)]
          | None => out ++ [(n - 1, y)]
          end
      | None => out
      end in
    map snd out.

Record PhaseRange : Type := {
  r_min : Q;
  r_max : Q;
  r_avg : Q
}.

Record RangeStats : Type := {
  r_points : nat;
  r_sessions : nat;
  r_issues : nat;
  r_L1 : option PhaseRange;
  r_L2 : option PhaseRange;
  r_L3 : option PhaseRange
}.

(** [stat(arr)]: [null] for an empty array, else minimum, maximum and
    mean.  The mean is exact here and rounded to a double in the source;
    no property below is about it. *)
Definition stat (arr : list Q) : option PhaseRange :=
  match arr with
  | [] => None
  | v :: vs =>
      Some {| r_min := minOf v vs;
              r_max := maxOf v vs;
              r_avg := (fold_left Qplus arr 0 / inject_Z (Z.of_nat (List.length arr)))%Q |}
  end.

(** What the loop of [rangeStats] accumulates. *)
Record RangeAcc : Type := {
  acc_L1 : list Q;
  acc_L2 : list Q;
  acc_L3 : list Q;
  acc_sessions : nat;
  acc_issues : nat
}.

Definition pushIf (o : option Q) (arr : list Q) : list Q :=
  match o with Some v => arr ++ [v] | None => arr end.

Definition rangeStep (a : RangeAcc) (r : VoltageTriplet) : RangeAcc :=
  {| acc_L1 := pushIf (t_L1 r) (acc_L1 a);
     acc_L2 := pushIf (t_L2 r) (acc_L2 a);
     acc_L3 := pushIf (t_L3 r) (acc_L3 a);
     acc_sessions :=
       incIf (match t_session r with session => true | idle => false end)
             (acc_sessions a);
     acc_issues := incIf (negb (isStatus (t_status r) ok)) (acc_issues a) |}.

(** [rangeStats(start, end)] of the chart, over its time-sorted copy
    [sorted] of the data. *)
Definition rangeStats (sorted : list VoltageTriplet) (start finish : Q)
  : RangeStats :=
  let rows :=
    filter (fun p => Qle_bool start (t_ts p) && Qle_bool (t_ts p) finish) sorted in
  let a := fold_left rangeStep rows
             {| acc_L1 := []; acc_L2 := []; acc_L3 := [];
                acc_sessions := 0; acc_issues := 0 |} in
  {| r_points := List.length rows;
     r_sessions := acc_sessions a;
     r_issues := acc_issues a;
     r_L1 := stat (acc_L1 a);
     r_L2 := stat (acc_L2 a);
     r_L3 := stat (acc_L3 a) |}.

(** One cell of [exportCSV]: the text between double quotes, each double
    quote of the text written twice. *)
Fixpoint doubleQuotes (s : string) : string :=
  match s with
  | EmptyString => EmptyString
  | String c s' =>
      if Ascii.eqb c dquote then String dquote (String dquote (doubleQuotes s'))
      else String c (doubleQuotes s')
  end.

Definition csvCell (x : string) : string := dq +++ doubleQuotes x +++ dq.

(** [r.map(cell).join(',')]. *)
Fixpoint csvRow (r : list string) : string :=
  match r with
  | [] => EmptyString
  | [x] => csvCell x
  | x :: r' => csvCell x +++ "," +++ csvRow r'
  end.

(* ================================================================== *)
(** ** Voltage histogram of the analysis report                         *)
(* ================================================================== *)

Record Bucket : Type := {
  bin : Z;
  h_L1 : nat;
  h_L2 : nat;
  h_L3 : nat
}.

(** [for (let v = start; v <= end; v += step)] with [start = 180],
    [end = 280], [step = 2]. *)
Fixpoint bucketKeys (fuel : nat) (v : Z) : list Z :=
  match fuel with
  | O => []
  | S fuel' => if (v <=? 280)%Z then v :: bucketKeys fuel' (v + 2)%Z else []
  end.

(** The [buckets] object; its keys are whole numbers. *)
Definition initBuckets : list (Z * Bucket) :=
  map (fun v => (v, {| bin := v; h_L1 := 0; h_L2 := 0; h_L3 := 0 |}))
      (bucketKeys 100 180%Z).

Fixpoint bucketGet (bs : list (Z * Bucket)) (k : Z) : option Bucket :=
  match bs with
  | [] => None
  | (k', b) :: bs' => if (k' =? k)%Z then Some b else bucketGet bs' k
  end.

Fixpoint bucketSet (bs : list (Z * Bucket)) (k : Z) (b : Bucket)
  : list (Z * Bucket) :=
  match bs with
  | [] => [(k, b)]
  | (k', b') :: bs' =>
      if (k' =? k)%Z then (k', b) :: bs' else (k', b') :: bucketSet bs' k b
  end.

Definition incPhase (ph : Phase) (b : Bucket) : Bucket :=
  {| bin := bin b;
     h_L1 := match ph with L1 => S (h_L1 b) | _ => h_L1 b end;
     h_L2 := match ph with L2 => S (h_L2 b) | _ => h_L2 b end;
     h_L3 := match ph with L3 => S (h_L3 b) | _ => h_L3 b end |}.

(** [Math.floor(val / step) * step], clamped to [start .. end]. *)
Definition binOf (val : Q) : Z :=
  let b := (Qfloor (val / 2) * 2)%Z in
  let b := if (b <? 180)%Z then 180%Z else b in
  if (280 <? b)%Z then 280%Z else b.

(** Body of the inner [forEach(ph => ...)]. *)
Definition countReading (ph : Phase) (val : option Q) (bs : list (Z * Bucket))
  : list (Z * Bucket) :=
  match val with
  | None => bs
  | Some v =>
      match bucketGet bs (binOf v) with
      | Some b => bucketSet bs (binOf v) (incPhase ph b)
      | None => bs
      end
  end.

(** The [histogramData] memo; [Object.values] lists the buckets by
    ascending key, which is the order they were created in. *)
Definition histogramData (data : list VoltageTriplet) : list Bucket :=
  match data with
  | [] => []
  | _ :: _ =>
      let buckets :=
        fold_left
          (fun bs d =>
             countReading L3 (t_L3 d)
               (countReading L2 (t_L2 d) (countReading L1 (t_L1 d) bs)))
          data initBuckets in
      sortBy (fun b => inject_Z (bin b)) (map snd buckets)
  end.

(* ================================================================== *)
(** ** Event table: filtering, ordering, paging                         *)
(* ================================================================== *)

Inductive StatusFilter : Type := FilterAll | FilterIssue | FilterOk.

Definition statusName (s : Status) : string :=
  match s with
  | ok => "ok"
  | over => "over"
  | under => "under"
  | imbalance => "imbalance"
  end.

(** [l.join(sep)]. *)
Fixpoint joinWith (sep : string) (l : list string) : string :=
  match l with
  | [] => EmptyString
  | [x] => x
  | x :: l' => x +++ sep +++ joinWith sep l'
  end.

Section EventTable.

(** [String.prototype.toLowerCase] of the platform; the deviation texts
    are not plain ASCII. *)
Variable lowerCase : string -> string.

Definition matchesSearch (lower : string) (r : VoltageTriplet) : bool :=
  includes (lowerCase (joinWith " " (t_deviationDetails r))) lower ||
  includes (statusName (t_status r)) lower.

(** The [filteredData] memo.  [Array.prototype.sort] sorts in place and
    [res] is the caller's array itself as long as no filter has replaced
    it, so the result comes with the content of the caller's [data] array
    after the call. *)
Definition filteredData (data : list VoltageTriplet)
  (statusFilter : StatusFilter) (searchFilter : string)
  : list VoltageTriplet * list VoltageTriplet :=
  let res := data in
  let aliased := true in
  let '(res, aliased) :=
    match statusFilter with
    | FilterIssue => (filter (fun r => negb (isStatus (t_status r) ok)) res, false)
    | FilterOk => (filter (fun r => isStatus (t_status r) ok) res, false)
    | FilterAll => (res, aliased)
    end in
  let '(res, aliased) :=
    if negb (String.eqb searchFilter "")
    then (filter (matchesSearch (lowerCase searchFilter)) res, false)
    else (res, aliased) in
  let sorted := sortBy (fun t => (- t_ts t)%Q) res in
  (sorted, if aliased then sorted else data).

End EventTable.

(** [Math.ceil(rows.length / pageSize)] for a positive page size. *)
Definition totalPages {A : Type} (rows : list A) (pageSize : nat) : nat :=
  ceilDiv (List.length rows) pageSize.

(** [rows.slice((page - 1) * pageSize, page * pageSize)] for a page
    number from 1. *)
Definition paginatedData {A : Type} (rows : list A) (page pageSize : nat)
  : list A :=
  firstn (page * pageSize - (page - 1) * pageSize)
         (skipn ((page - 1) * pageSize) rows).


(* ================================================================== *)
(** ** Specification-level notions                                      *)
(* ================================================================== *)

(** *** Lexical structure seen by the extractor

    A text is read as a sequence of pieces: a character outside any
    string literal, or a whole literal ["..."] whose body is made of
    plain characters and of backslash escapes. *)
Inductive strChar : Type :=
| Plain (c : ascii)
| Escaped (c : ascii).

Inductive piece : Type :=
| Raw (c : ascii)
| Lit (body : list strChar).

(** What may follow the pieces when the text ends inside a literal: the
    body read so far, and whether a lone backslash ends the text. *)
Inductive openEnd : Type :=
| Closed
| OpenLit (body : list strChar) (dangling : bool).

Definition renderChar (x : strChar) : string :=
  match x with
  | Plain c => String c EmptyString
  | Escaped c => String "\" (String c EmptyString)
  end.

Fixpoint renderBody (b : list strChar) : string :=
  match b with
  | [] => EmptyString
  | x :: b' => renderChar x +++ renderBody b'
  end.

Definition renderPiece (p : piece) : string :=
  match p with
  | Raw c => String c EmptyString
  | Lit b => String "034" (renderBody b +++ String "034" EmptyString)
  end.

Fixpoint render (ps : list piece) : string :=
  match ps with
  | [] => EmptyString
  | p :: ps' => renderPiece p +++ render ps'
  end.

Definition renderEnd (e : openEnd) : string :=
  match e with
  | Closed => EmptyString
  | OpenLit b dangling =>
      String "034" (renderBody b +++ (if dangling then String "\" EmptyString else EmptyString))
  end.

Definition wfChar (x : strChar) : bool :=
  match x with
  | Plain c => negb (Ascii.eqb c "034") && negb (Ascii.eqb c "\")
  | Escaped _ => true
  end.

Definition wfPiece (p : piece) : bool :=
  match p with
  | Raw c => negb (Ascii.eqb c "034")
  | Lit b => forallb wfChar b
  end.

Definition wfEnd (e : openEnd) : bool :=
  match e with
  | Closed => true
  | OpenLit b _ => forallb wfChar b
  end.

(** Contribution of a piece to the brace depth: literals count for
    nothing, whatever they contain. *)
Definition depthDelta (p : piece) : Z :=
  match p with
  | Raw c => if Ascii.eqb c "{" then 1%Z
             else if Ascii.eqb c "}" then (-1)%Z else 0%Z
  | Lit _ => 0%Z
  end.

(** From depth [d], the pieces keep the depth positive throughout. *)
Fixpoint staysOpen (d : Z) (ps : list piece) : bool :=
  match ps with
  | [] => true
  | p :: ps' => (0 <? d + depthDelta p)%Z && staysOpen (d + depthDelta p)%Z ps'
  end.

(** From depth [d], the pieces form a balanced span: the depth stays
    positive up to the last piece, a closing brace that brings it to 0. *)
Fixpoint balancedFrom (d : Z) (ps : list piece) : bool :=
  match ps with
  | [] => false
  | [p] => (d + depthDelta p =? 0)%Z && (depthDelta p =? -1)%Z
  | p :: ps' => (0 <? d + depthDelta p)%Z && balancedFrom (d + depthDelta p)%Z ps'
  end.

(** *** Session matching *)

(** The spans the matching loop looks at, in order: everything up to and
    including the first span that started more than ten minutes before
    the triplet. *)
Fixpoint examined (ts : Q) (fromLast : list TxSpan) : list TxSpan :=
  match fromLast with
  | [] => []
  | s :: rest => if tooOld ts s then [s] else s :: examined ts rest
  end.

(** *** Deep dips *)

Definition isDeep (v : Q) : bool := Qltb v 190.

(** A triplet with at least one present phase below 190. *)
Definition hasDeepDip (t : VoltageTriplet) : bool :=
  existsb isDeep (phaseValues t).

(** Number of triplets with a deep dip. *)
Definition deepDipTriplets (data : list VoltageTriplet) : nat :=
  List.length (filter hasDeepDip data).

(** Number of present phase readings below 190. *)
Fixpoint deepDipReadings (data : list VoltageTriplet) : nat :=
  match data with
  | [] => 0
  | t :: data' => List.length (filter isDeep (phaseValues t)) + deepDipReadings data'
  end.

(** Number of triplets with a given id. *)
Fixpoint countId (key : string) (l : list VoltageTriplet) : nat :=
  match l with
  | [] => 0
  | t :: l' => (if String.eqb (t_id t) key then 1 else 0) + countId key l'
  end.

(** *** Invariant of the triplet builder

    After the points [seen] have been folded into [m]: keys are unique;
    the triplet stored under a key carries that key as its id, was
    created from one of the points with that key, has exactly the
    phases of the points with that key, each holding the voltage of one
    of them; a key with no triplet has no point. *)
Definition tripletInv {H : Host} (seen : list VoltagePoint)
  (m : jsobj VoltageTriplet) : Prop :=
  NoDup (map fst m) /\
  forall k,
    match objGet m k with
    | Some t =>
        t_id t = k /\
        (exists r, In r seen /\ tripletKey r = k /\
                   t_connectorId t = p_connectorId r /\
                   t_dataset t = p_dataset r /\
                   t_ts t = roundedTs (p_ts r)) /\
        (forall ph, getPhase t ph <> None <->
                    exists r, In r seen /\ tripletKey r = k /\ p_phase r = ph) /\
        (forall ph v, getPhase t ph = Some v ->
                      exists r, In r seen /\ tripletKey r = k /\
                                p_phase r = ph /\ p_voltage r = v)
    | None => forall r, In r seen -> tripletKey r <> k
    end.

(** *** Readings seen by the statistics *)

(** The present values of one phase, in the order of the triplets. *)
Definition phaseReadings (ph : Phase) (data : list VoltageTriplet) : list Q :=
  presentValues (map (fun t => getPhase t ph) data).

Definition phaseStatsOf (s : AnalysisStats) (ph : Phase) : PhaseDetailedStats :=
  match ph with
  | L1 => phases_L1 s
  | L2 => phases_L2 s
  | L3 => phases_L3 s
  end.

Definition rangePhase (r : RangeStats) (ph : Phase) : option PhaseRange :=
  match ph with
  | L1 => r_L1 r
  | L2 => r_L2 r
  | L3 => r_L3 r
  end.

(** The count a histogram bucket holds for a phase. *)
Definition bucketCount (b : Bucket) (ph : Phase) : nat :=
  match ph with
  | L1 => h_L1 b
  | L2 => h_L2 b
  | L3 => h_L3 b
  end.

(** *** Reading a CSV row back

    The reader of RFC 4180 for a row of quoted cells: inside a cell a
    doubled quote stands for one quote, a single quote ends the cell, and
    a comma after a cell starts the next one. *)
Fixpoint readCells (s : string) (inCell : bool) (cur : string)
  : option (list string) :=
  match s with
  | EmptyString => if inCell then None else Some []
  | String c s' =>
      if inCell then
        if Ascii.eqb c dquote then
          match s' with
          | String c' s'' =>
              if Ascii.eqb c' dquote then readCells s'' true (cur +++ dq)
              else if Ascii.eqb c' ","
              then option_map (cons cur) (readCells s'' false EmptyString)
              else None
          | EmptyString => Some [cur]
          end
        else readCells s' true (cur +++ String c EmptyString)
      else if Ascii.eqb c dquote then readCells s' true EmptyString
      else None
  end.

Definition readRow (s : string) : option (list string) :=
  readCells s false EmptyString.

(** *** Invariants of the parse context *)

(** Every collected point belongs to the file being parsed, is below
    600 V and lies in the plausibility window. *)
Definition pointsOk {H : Host} (name : string) (c : Ctx) : Prop :=
  forall p, In p (points c) ->
    p_dataset p = name /\ (p_voltage p < 600)%Q /\ outOfWindow (p_ts p) = false.

(** The two kinds of incident text. *)
Definition incidentText (e : string) : bool :=
  startsWith e "Invalid timestamp: " || startsWith e "Suspicious timestamp".

Definition errorsOk (c : Ctx) : Prop :=
  forall e, In e (parsingErrors c) -> incidentText e = true.

(** Every span is filed under its own transaction id and does not end
    before it starts. *)
Definition spansOk (c : Ctx) : Prop :=
  forall k s, objGet (txSpansByTx c) k = Some s ->
    tx s = k /\ (startTs s <= endTs s)%Q.

(** The span of transaction [k] covers the instant [ts]. *)
Definition covers (c : Ctx) (k : string) (ts : Q) : Prop :=
  exists s, objGet (txSpansByTx c) k = Some s /\
            (startTs s <= ts)%Q /\ (ts <= endTs s)%Q.

(** *** Logs on which the embedding follows the source

    The source keeps its tables in plain objects and reads payload fields
    as they resolve, so a transaction or connector id that names a member
    of [Object.prototype] is answered by the prototype chain instead of
    the table, and [String(v)] throws [TypeError] on an object with an
    own [toString] property (JSON cannot make it callable).  The
    embedding looks up own properties only and its [ToString] is total:
    it follows the source on the logs singled out here, for a parse that
    starts with the built-in prototypes as the platform ships them. *)

(** The names every plain object inherits. *)
Definition inheritedNames : list string :=
  ["__proto__"; "constructor"; "hasOwnProperty"; "isPrototypeOf";
   "propertyIsEnumerable"; "toLocaleString"; "toString"; "valueOf";
   "__defineGetter__"; "__defineSetter__"; "__lookupGetter__";
   "__lookupSetter__"].

Definition plainKey (k : string) : bool :=
  negb (existsb (String.eqb k) inheritedNames).

(** [String(v)] and [Number(v)] complete: no object inside [v] has an own
    property named [toString]. *)
Fixpoint printable (v : jsval) : bool :=
  match v with
  | JArr items => forallb printable items
  | JObj props =>
      negb (existsb (fun kv => String.eqb (fst kv) "toString") props) &&
      forallb (fun kv => printable (snd kv)) props
  | _ => true
  end.

(** The text of the id is not an inherited name. *)
Definition plainId {H : Host} (v : jsval) : bool := plainKey (ToString v).

(** A payload whose conversions complete and whose transaction and
    connector ids are not inherited names. *)
Definition plainPayload {H : Host} (obj : jsval) : bool :=
  printable obj &&
  forallb (fun k => plainId (field obj k))
          ["transactionId"; "transactionID"; "transactionid"; "connectorId"].

(** Every payload the extractor can return, at any offset of the text,
    is such a payload. *)
Definition plainLog {H : Host} (text : string) : bool :=
  forallb (fun p => match extractJsonFrom text p with
                    | Some obj => plainPayload obj
                    | None => true
                    end)
          (seq 0 (S (String.length text))).

(** A connector id that converts to text and is not an inherited name. *)
Definition plainConnector {H : Host} (v : jsval) : bool :=
  printable v && plainId v.

(* ================================================================== *)
(** ** A reference host                                                 *)
(* ================================================================== *)

(** A concrete [Host] on which the model runs: a JSON reader for the
    RFC 8259 grammar (without [\u] escapes), ISO-8601 UTC dates, decimal
    numerals.  The general results below hold for every host; this one
    evaluates them on concrete logs. *)
Module RefHost.

Definition isWs (c : ascii) : bool :=
  let n := nat_of_ascii c in
  (n =? 32) || (n =? 9) || (n =? 10) || (n =? 13).

Fixpoint skipWs (s : string) : string :=
  match s with
  | String c s' => if isWs c then skipWs s' else s
  | EmptyString => s
  end.

(** Leading decimal digits: their value, their number, the rest. *)
Fixpoint readDigits (s : string) (acc : Z) (n : nat) : Z * nat * string :=
  match s with
  | String c s' =>
      if isDigit c
      then readDigits s' (acc * 10 + Z.of_nat (nat_of_ascii c - 48))%Z (S n)
      else (acc, n, s)
  | EmptyString => (acc, n, s)
  end.

Definition pow10 (n : nat) : positive := Pos.pow 10 (Pos.of_nat n).

Definition scale10 (q : Q) (e : Z) : Q :=
  match e with
  | Z0 => q
  | Zpos p => (q * inject_Z (Zpos (Pos.pow 10 p)))%Q
  | Zneg p => (q / inject_Z (Zpos (Pos.pow 10 p)))%Q
  end.

(** [-? digits (. digits)? ([eE] [+-]? digits)?] *)
Definition readNumber (s : string) : option (Q * string) :=
  let '(neg, s1) := match s with
                    | String "-" r => (true, r)
                    | _ => (false, s)
                    end in
  let '(ip, n, s2) := readDigits s1 0%Z 0 in
  if n =? 0 then None
  else
    let '(mant, s3) :=
      match s2 with
      | String "." r =>
          let '(fp, k, r') := readDigits r 0%Z 0 in
          if k =? 0 then (inject_Z ip, s2)
          else (Qred (Qmake (ip * Zpos (pow10 k) + fp) (pow10 k)), r')
      | _ => (inject_Z ip, s2)
      end in
    let '(q, s4) :=
      match s3 with
      | String c r =>
          if Ascii.eqb c "e" || Ascii.eqb c "E" then
            let '(eneg, r1) := match r with
                               | String "-" r' => (true, r')
                               | String "+" r' => (false, r')
                               | _ => (false, r)
                               end in
            let '(ev, k, r2) := readDigits r1 0%Z 0 in
            if k =? 0 then (mant, s3)
            else (Qred (scale10 mant (if eneg then - ev else ev)%Z), r2)
          else (mant, s3)
      | EmptyString => (mant, s3)
      end in
    Some ((if neg then Qopp q else q), s4).

(** Body of a string literal, after the opening quote. *)
Fixpoint readString (s : string) : option (string * string) :=
  match s with
  | EmptyString => None
  | String c s' =>
      if Ascii.eqb c "034" then Some (EmptyString, s')
      else if Ascii.eqb c "\" then
        match s' with
        | String e s'' =>
            let lit := if Ascii.eqb e "n" then Some (ascii_of_nat 10)
                       else if Ascii.eqb e "t" then Some (ascii_of_nat 9)
                       else if Ascii.eqb e "r" then Some (ascii_of_nat 13)
                       else if Ascii.eqb e "b" then Some (ascii_of_nat 8)
                       else if Ascii.eqb e "f" then Some (ascii_of_nat 12)
                       else if Ascii.eqb e "034" || Ascii.eqb e "\" || Ascii.eqb e "/"
                       then Some e else None in
            match lit, readString s'' with
            | Some ch, Some (body, rest) => Some (String ch body, rest)
            | _, _ => None
            end
        | EmptyString => None
        end
      else if nat_of_ascii c <? 32 then None
      else match readString s' with
           | Some (body, rest) => Some (String c body, rest)
           | None => None
           end
  end.

Fixpoint readValue (fuel : nat) (s : string) : option (jsval * string) :=
  match fuel with
  | O => None
  | S fuel' =>
      match skipWs s with
      | String "{" r =>
          match skipWs r with
          | String "}" r' => Some (JObj [], r')
          | _ => readMembers fuel' r []
          end
      | String "[" r =>
          match skipWs r with
          | String "]" r' => Some (JArr [], r')
          | _ => readElements fuel' r []
          end
      | String "034" r =>
          match readString r with
          | Some (str, r') => Some (JStr str, r')
          | None => None
          end
      | String "t" (String "r" (String "u" (String "e" r))) => Some (JBool true, r)
      | String "f" (String "a" (String "l" (String "s" (String "e" r)))) =>
          Some (JBool false, r)
      | String "n" (String "u" (String "l" (String "l" r))) => Some (JNull, r)
      | other =>
          match readNumber other with
          | Some (q, r) => Some (JNum q, r)
          | None => None
          end
      end
  end
with readElements (fuel : nat) (s : string) (acc : list jsval)
  : option (jsval * string) :=
  match fuel with
  | O => None
  | S fuel' =>
      match readValue fuel' s with
      | Some (v, r) =>
          match skipWs r with
          | String "," r' => readElements fuel' r' (acc ++ [v])
          | String "]" r' => Some (JArr (acc ++ [v]), r')
          | _ => None
          end
      | None => None
      end
  end
with readMembers (fuel : nat) (s : string) (acc : list (string * jsval))
  : option (jsval * string) :=
  match fuel with
  | O => None
  | S fuel' =>
      match skipWs s with
      | String "034" r =>
          match readString r with
          | Some (k, r1) =>
              match skipWs r1 with
              | String ":" r2 =>
                  match readValue fuel' r2 with
                  | Some (v, r3) =>
                      match skipWs r3 with
                      | String "," r4 => readMembers fuel' r4 (objSet acc k v)
                      | String "}" r4 => Some (JObj (objSet acc k v), r4)
                      | _ => None
                      end
                  | None => None
                  end
              | _ => None
              end
          | None => None
          end
      | _ => None
      end
  end.

Definition parseJson (s : string) : option jsval :=
  match readValue (S (String.length s)) s with
  | Some (v, r) => match skipWs r with EmptyString => Some v | _ => None end
  | None => None
  end.

Definition showZ (z : Z) : string := DecimalString.NilZero.string_of_int (Z.to_int z).

(** Integers print in decimal; other rationals as a fraction. *)
Definition showQ (q : Q) : string :=
  let r := Qred q in
  match Qden r with
  | xH => showZ (Qnum r)
  | d => showZ (Qnum r) +++ "/" +++ showZ (Zpos d)
  end.

(** Round half away from zero, as [toFixed] does. *)
Definition roundQ (q : Q) : Z :=
  if Qle_bool 0 q then Qfloor (q + (1 # 2)) else (- Qfloor (Qopp q + (1 # 2)))%Z.

Definition pad (width : nat) (z : Z) : string :=
  let s := showZ z in
  (fix zeros (n : nat) : string :=
     match n with O => s | S n' => String "0" (zeros n') end)
    (width - String.length s).

(** Days since 1970-01-01 of a civil date. *)
Definition daysFromCivil (y m d : Z) : Z :=
  let y' := (if m <=? 2 then y - 1 else y)%Z in
  let era := (y' / 400)%Z in
  let yoe := (y' - era * 400)%Z in
  let doy := ((153 * (if 2 <? m then m - 3 else m + 9) + 2) / 5 + d - 1)%Z in
  let doe := (yoe * 365 + yoe / 4 - yoe / 100 + doy)%Z in
  (era * 146097 + doe - 719468)%Z.

Definition civilFromDays (days : Z) : Z * Z * Z :=
  let z := (days + 719468)%Z in
  let era := (z / 146097)%Z in
  let doe := (z - era * 146097)%Z in
  let yoe := ((doe - doe / 1460 + doe / 36524 - doe / 146096) / 365)%Z in
  let doy := (doe - (365 * yoe + yoe / 4 - yoe / 100))%Z in
  let mp := ((5 * doy + 2) / 153)%Z in
  let d := (doy - (153 * mp + 2) / 5 + 1)%Z in
  let m := (if mp <? 10 then mp + 3 else mp - 9)%Z in
  let y := (yoe + era * 400)%Z in
  ((if m <=? 2 then y + 1 else y)%Z, m, d).

Definition isoText (t : Q) : string :=
  let ms := Qfloor t in
  let days := (ms / 86400000)%Z in
  let rest := (ms mod 86400000)%Z in
  let '(y, m, d) := civilFromDays days in
  pad 4 y +++ "-" +++ pad 2 m +++ "-" +++ pad 2 d +++ "T" +++
  pad 2 (rest / 3600000) +++ ":" +++ pad 2 ((rest / 60000) mod 60) +++ ":" +++
  pad 2 ((rest / 1000) mod 60) +++ "." +++ pad 3 (rest mod 1000) +++ "Z".

Definition digits (n : nat) (s : string) : option (Z * string) :=
  let '(v, k, _) := readDigits (substring 0 n s) 0%Z 0 in
  if k =? n then Some (v, dropStr n s) else None.

Definition expect (c : ascii) (s : string) : option string :=
  match s with
  | String c' r => if Ascii.eqb c c' then Some r else None
  | EmptyString => None
  end.

(** [YYYY-MM-DD] and [YYYY-MM-DDTHH:MM:SS] with an optional [Z], both
    read as UTC. *)
Definition parseDate (s : string) : option Q :=
  match digits 4 s with
  | Some (y, s1) =>
    match expect "-" s1 with
    | Some s2 =>
      match digits 2 s2 with
      | Some (m, s3) =>
        match expect "-" s3 with
        | Some s4 =>
          match digits 2 s4 with
          | Some (d, s5) =>
              let day := (daysFromCivil y m d * 86400000)%Z in
              if negb ((1 <=? m) && (m <=? 12) && (1 <=? d) && (d <=? 31))%Z then None
              else
              match s5 with
              | EmptyString => Some (inject_Z day)
              | String "T" s6 =>
                match digits 2 s6 with
                | Some (hh, s7) =>
                  match expect ":" s7 with
                  | Some s8 =>
                    match digits 2 s8 with
                    | Some (mi, s9) =>
                      match expect ":" s9 with
                      | Some s10 =>
                        match digits 2 s10 with
                        | Some (ss, s11) =>
                            if String.eqb s11 "" || String.eqb s11 "Z"
                            then Some (inject_Z (day + hh * 3600000 + mi * 60000 + ss * 1000))
                            else None
                        | None => None
                        end
                      | None => None
                      end
                    | None => None
                    end
                  | None => None
                  end
                | None => None
                end
              | _ => None
              end
          | None => None
          end
        | None => None
        end
      | None => None
      end
    | None => None
    end
  | None => None
  end.

(** [parseFloat]: the longest numeric prefix after leading blanks. *)
Definition readFloat (s : string) : option Q :=
  match readNumber (skipWs s) with
  | Some (q, _) => Some q
  | None => None
  end.

(** [Number(s)]: the whole trimmed string is a numeral; blank is 0. *)
Definition readWholeNumber (s : string) : option Q :=
  match skipWs s with
  | EmptyString => Some 0%Q
  | t => match readNumber t with
         | Some (q, r) => match skipWs r with EmptyString => Some q | _ => None end
         | None => None
         end
  end.

(** The clock of the reference host: 2024-06-01T00:00:00Z. *)
Definition clock : Q := 1717200000000%Q.

Definition host : Host := {|
  JSON_parse := parseJson;
  Date_parse := parseDate;
  Date_now := clock;
  Date_isoText := isoText;
  NumberToString := showQ;
  StringToNumber := readWholeNumber;
  parseFloat := readFloat;
  toFixed0 := fun q => showZ (roundQ q)
|}.

End RefHost.

(* ================================================================== *)
(** ** Example inputs                                                   *)
(* ================================================================== *)

Module Examples.

Definition host : Host := RefHost.host.

(** A JSON string literal. *)
Definition js (s : string) : string := dq +++ s +++ dq.

(** Two readings of connector 5 in the same second, phases L1 and L2. *)
Definition pointL1 : VoltagePoint :=
  {| p_dataset := "a.log"; p_connectorId := JNum 5; p_phase := L1;
     p_ts := 1704067200250; p_voltage := 231 |}.
Definition pointL2 : VoltagePoint :=
  {| p_dataset := "a.log"; p_connectorId := JNum 5; p_phase := L2;
     p_ts := 1704067200900; p_voltage := 459 # 2 |}.

Definition bareTriplet (l1 l2 l3 : option Q) (d : Q) : VoltageTriplet :=
  {| t_id := "a.log|1|1704067200000"; t_ts := 1704067200000;
     t_dataset := "a.log"; t_connectorId := JNum 1;
     t_L1 := l1; t_L2 := l2; t_L3 := l3; t_delta := d;
     t_status := ok; t_session := idle; t_sessionId := None;
     t_sessionStatus := None; t_sessionErrorCode := None; t_idTag := None;
     t_deviationDetails := [] |}.

(** [L1 = 260], [L2 = 200]. *)
Definition overAndUnder : VoltageTriplet :=
  bareTriplet (Some 260%Q) (Some 200%Q) None 60.

(** Two phases of one triplet below 190. *)
Definition doubleDip : VoltageTriplet :=
  bareTriplet (Some 180%Q) (Some 185%Q) (Some 230%Q) 50.

Definition dipFile : FileData :=
  {| f_name := "a.log"; f_enabled := true;
     f_triplets := [doubleDip]; f_parsingErrors := [] |}.

Fixpoint repeatStr (n : nat) (s : string) : string :=
  match n with
  | O => EmptyString
  | S n' => s +++ repeatStr n' s
  end.

(** A log whose 150 meter entries all carry an unreadable timestamp:
    [MeterValues {"meterValue":[{"timestamp":"x"}, ... ,{"timestamp":"x"}]}]. *)
Definition corruptLog : string :=
  "MeterValues {" +++ js "meterValue" +++ ":[" +++
  repeatStr 149 ("{" +++ js "timestamp" +++ ":" +++ js "x" +++ "},") +++
  "{" +++ js "timestamp" +++ ":" +++ js "x" +++ "}]}".

(** A session [t0, t0 + 600000] on a connector. *)
Definition t0 : Q := 1704067200000.
Definition sessionSpan : TxSpan :=
  {| tx := "42"; sp_connectorId := JNum 1; startTs := t0;
     endTs := t0 + 600000; sp_idTag := None |}.

(** [MeterValues {"meterValue": 5}]. *)
Definition logNotArray : string :=
  "MeterValues {" +++ js "meterValue" +++ ": 5}".

(** [MeterValues {"meterValue":[{"timestamp":"2024-01-01T00:00:00Z","sampledValue":7}]}]. *)
Definition logSamplesNotArray : string :=
  "MeterValues {" +++ js "meterValue" +++ ":[{" +++ js "timestamp" +++ ":" +++
  js "2024-01-01T00:00:00Z" +++ "," +++ js "sampledValue" +++ ":7}]}".

(** [MeterValues {"meterValue":[{"timestamp":1e20,"sampledValue":[]}]}]. *)
Definition logHugeTimestamp : string :=
  "MeterValues {" +++ js "meterValue" +++ ":[{" +++ js "timestamp" +++
  ":1e20," +++ js "sampledValue" +++ ":[]}]}".

(** [MeterValues {"meterValue":[{"timestamp":"1999-01-01","sampledValue":[...L1 230...]}]}]. *)
Definition logYear1999 : string :=
  "MeterValues {" +++ js "meterValue" +++ ":[{" +++ js "timestamp" +++ ":" +++
  js "1999-01-01" +++ "," +++ js "sampledValue" +++ ":[{" +++ js "measurand" +++
  ":" +++ js "Voltage.L1" +++ "," +++ js "value" +++ ":" +++ js "230" +++ "}]}]}".

(** A MeterValues payload with one L1 reading of 230 V. *)
Definition meterObject : jsval :=
  JObj [("connectorId", JNum 5);
        ("meterValue",
         JArr [JObj [("timestamp", JStr "2024-01-01T00:00:00Z");
                     ("sampledValue",
                      JArr [JObj [("measurand", JStr "Voltage.L1");
                                  ("value", JStr "230")]])]])].

(** A status timeline with events at times 0, 100 and 200. *)
Definition statusAt (ts : Q) : StatusEvent :=
  {| ev_ts := ts; ev_status := Some "Charging"; ev_errorCode := None |}.
Definition timelineExample : list StatusEvent :=
  [statusAt 0; statusAt 100; statusAt 200].

(** A StatusNotification payload for connector 0. *)
Definition statusZero : jsval :=
  JObj [("connectorId", JNum 0); ("timestamp", JStr "2024-01-01T00:00:00Z");
        ("status", JStr "Available"); ("errorCode", JStr "NoError")].

(** [xx {"msg":"a{b}c"} tail]. *)
Definition textWithBraces : string :=
  "xx {" +++ js "msg" +++ ":" +++ js "a{b}c" +++ "} tail".

Definition piecesWithBraces : list piece :=
  [Raw "{"; Lit [Plain "m"; Plain "s"; Plain "g"]; Raw ":";
   Lit [Plain "a"; Plain "{"; Plain "b"; Plain "}"; Plain "c"]; Raw "}"].

(** A log with a status notification, and one MeterValues message of
    transaction 7 on connector 1 holding three entries: L1 = 230.5 and
    L2 = 199 at the instant 1704067200250 (2024-01-01, 00:00:00.250), an unreadable timestamp, and
    a timestamp of 1999. *)
Definition sampleLog : string :=
  "StatusNotification {" +++ js "connectorId" +++ ":1," +++ js "status" +++ ":" +++
  js "Charging" +++ "," +++ js "timestamp" +++ ":" +++ js "2024-01-01T00:00:00Z" +++
  "} MeterValues {" +++ js "connectorId" +++ ":1," +++ js "transactionId" +++
  ":7," +++ js "meterValue" +++ ":[{" +++ js "timestamp" +++
  ":1704067200250," +++ js "sampledValue" +++ ":[{" +++
  js "measurand" +++ ":" +++ js "Voltage" +++ "," +++ js "phase" +++ ":" +++
  js "L1" +++ "," +++ js "value" +++ ":" +++ js "230.5" +++ "},{" +++
  js "measurand" +++ ":" +++ js "Voltage.L2" +++ "," +++ js "value" +++ ":" +++
  js "199" +++ "}]},{" +++ js "timestamp" +++ ":" +++ js "bogus" +++ "},{" +++
  js "timestamp" +++ ":" +++ js "1999-01-01T00:00:00Z" +++ "}]}".

(** A reading of connector 5 on phase L3, one second after [pointL1] and
    [pointL2]. *)
Definition pointNext : VoltagePoint :=
  {| p_dataset := "a.log"; p_connectorId := JNum 5; p_phase := L3;
     p_ts := 1704067201100; p_voltage := 229 |}.

(** A MeterValues payload of connector 0 with one L1 reading of 230 V. *)
Definition meterZero : jsval :=
  JObj [("connectorId", JNum 0);
        ("meterValue",
         JArr [JObj [("timestamp", JStr "2024-01-01T00:00:00Z");
                     ("sampledValue",
                      JArr [JObj [("measurand", JStr "Voltage.L1");
                                  ("value", JStr "230")]])]])].

(** A triplet of connector 1 with one reading, at a given time. *)
Definition tripletAt (ts : Q) : VoltageTriplet :=
  {| t_id := "a.log|1|0"; t_ts := ts;
     t_dataset := "a.log"; t_connectorId := JNum 1;
     t_L1 := Some 230%Q; t_L2 := None; t_L3 := None; t_delta := 0;
     t_status := ok; t_session := idle; t_sessionId := None;
     t_sessionStatus := None; t_sessionErrorCode := None; t_idTag := None;
     t_deviationDetails := [] |}.

End Examples.

(* ================================================================== *)
(** * Properties                                                        *)
(* ================================================================== *)

(** ** Comparisons and the status evaluator *)

Section BasicFacts.

Lemma Qltb_lt (x y : Q) : Qltb x y = true <-> (x < y)%Q.
Proof.
  unfold Qltb. rewrite negb_true_iff. split.
  - intros E. apply Qnot_le_lt. intros L.
    apply Qle_bool_iff in L. congruence.
  - intros L. destruct (Qle_bool y x) eqn:E; [| reflexivity].
    apply Qle_bool_iff in E. exfalso. exact (Qlt_not_le _ _ L E).
Qed.

Lemma Qltb_ge (x y : Q) : Qltb x y = false <-> (y <= x)%Q.
Proof.
  unfold Qltb. rewrite negb_false_iff. apply Qle_bool_iff.
Qed.

Lemma nonEmpty_filter {A : Type} (f : A -> bool) (l : list A) :
  nonEmpty (filter f l) = true <-> exists v, In v l /\ f v = true.
Proof.
  induction l as [| a l IH]; simpl.
  - split; [discriminate | intros [v [[] _]]].
  - destruct (f a) eqn:Fa; simpl.
    + split; [intros _; exists a; auto | reflexivity].
    + rewrite IH. split.
      * intros [v [Hin Hv]]. exists v. auto.
      * intros [v [[->| Hin] Hv]]; [congruence | exists v; auto].
Qed.

Lemma nonEmpty_nil {A : Type} (l : list A) : nonEmpty l = false <-> l = [].
Proof. destruct l; simpl; split; congruence. Qed.

End BasicFacts.

Section EvaluatorFacts.
Context {H : Host}.

Lemma anyOver_iff (vals : list Q) (vmax : Q) :
  nonEmpty (filter (fun v => Qltb vmax v) vals) = true <->
  exists v, In v vals /\ (vmax < v)%Q.
Proof.
  rewrite nonEmpty_filter. split; intros [v [Hin Hv]]; exists v; split; auto;
    now apply Qltb_lt.
Qed.

Lemma anyUnder_iff (vals : list Q) (vmin : Q) :
  nonEmpty (filter (fun v => Qltb v vmin) vals) = true <->
  exists v, In v vals /\ (v < vmin)%Q.
Proof.
  rewrite nonEmpty_filter. split; intros [v [Hin Hv]]; exists v; split; auto;
    now apply Qltb_lt.
Qed.

Lemma evaluateStatus_status (t : VoltageTriplet) (vmin vmax : Q) :
  fst (evaluateStatus t vmin vmax) =
  if nonEmpty (phaseValues t) then
    if nonEmpty (filter (fun v => Qltb vmax v) (phaseValues t)) then over
    else if nonEmpty (filter (fun v => Qltb v vmin) (phaseValues t)) then under
    else if Qle_bool 15 (t_delta t) then imbalance
    else ok
  else ok.
Proof.
  unfold evaluateStatus.
  destruct (nonEmpty (phaseValues t)); [| reflexivity].
  destruct (nonEmpty (filter (fun v => Qltb vmax v) (phaseValues t)));
  destruct (nonEmpty (filter (fun v => Qltb v vmin) (phaseValues t)));
  destruct (Qle_bool 15 (t_delta t)); reflexivity.
Qed.

(** Claim C2.  For every triplet and thresholds, the status returned by
    [evaluateStatus] is [over] exactly when some present phase exceeds
    [vmax]; [under] exactly when some present phase is below [vmin] and
    none exceeds [vmax]; [imbalance] exactly when a phase is present,
    [delta >= 15], and no phase is over or under; with no present phase
    the result is [ok] with no deviation.  A triplet with [L1 = 260] and
    [L2 = 200] is [over] under the thresholds (207, 253). *)
Theorem evaluateStatus_precedence (t : VoltageTriplet) (vmin vmax : Q) :
  let vals := phaseValues t in
  let st := fst (evaluateStatus t vmin vmax) in
  let anyOver := exists v, In v vals /\ (vmax < v)%Q in
  let anyUnder := exists v, In v vals /\ (v < vmin)%Q in
  (st = over <-> anyOver) /\
  (st = under <-> anyUnder /\ ~ anyOver) /\
  (st = imbalance <->
     vals <> [] /\ (15 <= t_delta t)%Q /\ ~ anyOver /\ ~ anyUnder) /\
  (vals = [] -> evaluateStatus t vmin vmax = (ok, [])) /\
  (t_L1 t = Some 260%Q -> t_L2 t = Some 200%Q ->
   fst (evaluateStatus t 207 253) = over).
Proof.
  cbv zeta.
  pose proof (anyOver_iff (phaseValues t) vmax) as HO.
  pose proof (anyUnder_iff (phaseValues t) vmin) as HU.
  pose proof (Qle_bool_iff 15 (t_delta t)) as HD.
  pose proof (nonEmpty_nil (phaseValues t)) as HN.
  rewrite evaluateStatus_status.
  assert (Hnil : phaseValues t = [] ->
                 ~ (exists v, In v (phaseValues t) /\ (vmax < v)%Q) /\
                 ~ (exists v, In v (phaseValues t) /\ (v < vmin)%Q)).
  { intros E. rewrite E. split; intros [v [[] _]]. }
  split; [| split; [| split; [| split]]].
  - destruct (nonEmpty (phaseValues t));
    destruct (nonEmpty (filter (fun v => Qltb vmax v) (phaseValues t)));
    destruct (nonEmpty (filter (fun v => Qltb v vmin) (phaseValues t)));
    destruct (Qle_bool 15 (t_delta t));
    intuition (discriminate || congruence).
  - destruct (nonEmpty (phaseValues t));
    destruct (nonEmpty (filter (fun v => Qltb vmax v) (phaseValues t)));
    destruct (nonEmpty (filter (fun v => Qltb v vmin) (phaseValues t)));
    destruct (Qle_bool 15 (t_delta t));
    intuition (discriminate || congruence).
  - destruct (nonEmpty (phaseValues t));
    destruct (nonEmpty (filter (fun v => Qltb vmax v) (phaseValues t)));
    destruct (nonEmpty (filter (fun v => Qltb v vmin) (phaseValues t)));
    destruct (Qle_bool 15 (t_delta t));
    intuition (discriminate || congruence).
  - intros E. unfold evaluateStatus. rewrite E. reflexivity.
  - intros E1 E2. rewrite evaluateStatus_status. unfold phaseValues.
    rewrite E1, E2. reflexivity.
Qed.
End EvaluatorFacts.

(** ** Strings and the brace scanner *)

Section StringFacts.

Lemma append_assoc (a b c : string) : (a +++ b) +++ c = a +++ (b +++ c).
Proof. induction a as [| x a IH]; simpl; [reflexivity | now rewrite IH]. Qed.

Lemma length_append (a b : string) :
  String.length (a +++ b) = String.length a + String.length b.
Proof. induction a as [| x a IH]; simpl; [reflexivity | now rewrite IH]. Qed.

Lemma substring_prefix (a rest : string) :
  substring 0 (String.length a) (a +++ rest) = a.
Proof.
  induction a as [| x a IH]; simpl.
  - destruct rest; reflexivity.
  - now rewrite IH.
Qed.

Lemma substring_dropStr (i : nat) (text a rest : string) :
  dropStr i text = a +++ rest ->
  substring i (String.length a) text = a.
Proof.
  revert text. induction i as [| i IH]; intros text E; simpl in E.
  - subst text. apply substring_prefix.
  - destruct text as [| c text].
    + destruct a; [reflexivity | discriminate].
    + simpl. now apply IH.
Qed.

End StringFacts.

Section ExtractorFacts.
Context {H : Host}.

Lemma scan_body (b : list strChar) (rest : string) (j : nat) (d : Z) :
  forallb wfChar b = true ->
  scanBraces (renderBody b +++ rest) j d true false =
  scanBraces rest (j + String.length (renderBody b)) d true false.
Proof.
  revert j. induction b as [| x b IH]; intros j W; simpl.
  - now rewrite Nat.add_0_r.
  - simpl in W. apply andb_prop in W. destruct W as [Wx Wb].
    destruct x as [c | c]; simpl in *.
    + apply andb_prop in Wx. destruct Wx as [Wq Wbs].
      apply negb_true_iff in Wq. apply negb_true_iff in Wbs.
      rewrite Wbs, Wq. rewrite IH by assumption. f_equal. lia.
    + rewrite IH by assumption. f_equal. lia.
Qed.

Lemma scan_literal (b : list strChar) (rest : string) (j : nat) (d : Z) :
  forallb wfChar b = true ->
  scanBraces (renderPiece (Lit b) +++ rest) j d false false =
  scanBraces rest (j + String.length (renderPiece (Lit b))) d false false.
Proof.
  intros W. simpl. rewrite append_assoc. rewrite scan_body by assumption.
  simpl. rewrite length_append. simpl. f_equal. lia.
Qed.

Lemma scan_open_piece (p : piece) (rest : string) (j : nat) (d : Z) :
  wfPiece p = true -> (0 <? d + depthDelta p)%Z = true ->
  scanBraces (renderPiece p +++ rest) j d false false =
  scanBraces rest (j + String.length (renderPiece p)) (d + depthDelta p)%Z false false.
Proof.
  intros W P. destruct p as [c | b].
  - simpl in *. apply negb_true_iff in W. rewrite W.
    destruct (Ascii.eqb c "{") eqn:Eo.
    + f_equal. lia.
    + destruct (Ascii.eqb c "}") eqn:Ec.
      * apply Z.ltb_lt in P.
        replace (d - 1 =? 0)%Z with false by (symmetry; apply Z.eqb_neq; lia).
        f_equal. lia.
      * rewrite Z.add_0_r. f_equal. lia.
  - rewrite scan_literal by assumption. simpl depthDelta. now rewrite Z.add_0_r.
Qed.

Lemma scan_staysOpen (ps : list piece) (rest : string) (j : nat) (d : Z) :
  forallb wfPiece ps = true -> staysOpen d ps = true ->
  exists d', scanBraces (render ps +++ rest) j d false false =
             scanBraces rest (j + String.length (render ps)) d' false false.
Proof.
  revert j d. induction ps as [| p ps IH]; intros j d W S; simpl.
  - exists d. now rewrite Nat.add_0_r.
  - simpl in W, S. apply andb_prop in W. destruct W as [Wp Wps].
    apply andb_prop in S. destruct S as [Sp Sps].
    rewrite append_assoc. rewrite scan_open_piece by assumption.
    destruct (IH (j + String.length (renderPiece p)) (d + depthDelta p)%Z Wps Sps)
      as [d' E].
    exists d'. rewrite E. rewrite length_append. f_equal. lia.
Qed.

Lemma renderPiece_length_pos (p : piece) : 0 < String.length (renderPiece p).
Proof. destruct p; simpl; lia. Qed.

Lemma scan_balanced (ps : list piece) (rest : string) (j : nat) (d : Z) :
  forallb wfPiece ps = true -> balancedFrom d ps = true ->
  scanBraces (render ps +++ rest) j d false false =
  Some (j + String.length (render ps) - 1).
Proof.
  revert j d. induction ps as [| p ps IH]; intros j d W B.
  - discriminate.
  - simpl in W. apply andb_prop in W. destruct W as [Wp Wps].
    destruct ps as [| p' ps].
    + simpl in B. apply andb_prop in B. destruct B as [B0 B1].
      apply Z.eqb_eq in B0. apply Z.eqb_eq in B1.
      destruct p as [c | b]; simpl in B0, B1; [| discriminate].
      simpl in Wp. apply negb_true_iff in Wp.
      destruct (Ascii.eqb c "{") eqn:Eo; [discriminate |].
      destruct (Ascii.eqb c "}") eqn:Ec; [| discriminate].
      simpl. rewrite Wp, Eo, Ec.
      replace (d - 1 =? 0)%Z with true by (symmetry; apply Z.eqb_eq; lia).
      f_equal. lia.
    + change (balancedFrom d (p :: p' :: ps))
        with ((0 <? d + depthDelta p)%Z && balancedFrom (d + depthDelta p)%Z (p' :: ps)) in B.
      apply andb_prop in B. destruct B as [Bp Bps].
      change (render (p :: p' :: ps)) with (renderPiece p +++ render (p' :: ps)).
      rewrite append_assoc. rewrite scan_open_piece by assumption.
      rewrite (IH _ _ Wps Bps). rewrite length_append.
      pose proof (renderPiece_length_pos p). f_equal. lia.
Qed.

Lemma scan_openEnd (e : openEnd) (j : nat) (d : Z) :
  wfEnd e = true -> scanBraces (renderEnd e) j d false false = None.
Proof.
  intros W. destruct e as [| b dangling]; simpl.
  - reflexivity.
  - simpl in W. rewrite scan_body by assumption.
    destruct dangling; reflexivity.
Qed.

Lemma balancedFrom_length (d : Z) (ps : list piece) :
  balancedFrom d ps = true -> 0 < String.length (render ps).
Proof.
  destruct ps as [| p ps]; [discriminate |]. intros _. simpl.
  rewrite length_append. pose proof (renderPiece_length_pos p). lia.
Qed.

End ExtractorFacts.

(** ** Stable sorting *)

Section SortFacts.
Context {A : Type} (key : A -> Q).

Lemma insertBy_In (x y : A) (l : list A) :
  In x (insertBy key y l) <-> x = y \/ In x l.
Proof.
  induction l as [| z l IH]; simpl.
  - intuition.
  - destruct (Qle_bool (key y) (key z)); simpl; rewrite ?IH; intuition.
Qed.

Lemma sortBy_In (x : A) (l : list A) : In x (sortBy key l) <-> In x l.
Proof.
  induction l as [| y l IH]; simpl; [reflexivity |].
  rewrite insertBy_In, IH. intuition.
Qed.

Lemma insertBy_perm (x : A) (l : list A) : Permutation (x :: l) (insertBy key x l).
Proof.
  induction l as [| z l IH]; simpl; [reflexivity |].
  destruct (Qle_bool (key x) (key z)); [reflexivity |].
  rewrite perm_swap. now constructor.
Qed.

Lemma sortBy_perm (l : list A) : Permutation l (sortBy key l).
Proof.
  induction l as [| y l IH]; simpl; [constructor |].
  rewrite <- insertBy_perm. now constructor.
Qed.

Local Abbreviation ascending := (fun a b : A => (key a <= key b)%Q).

Lemma insertBy_sorted (x : A) (l : list A) :
  StronglySorted ascending l -> StronglySorted ascending (insertBy key x l).
Proof.
  induction l as [| z l IH]; intros S; simpl.
  - repeat constructor.
  - inversion S as [| ? ? Sl Fz]; subst.
    destruct (Qle_bool (key x) (key z)) eqn:E.
    + apply Qle_bool_iff in E. constructor; [assumption |].
      constructor; [assumption |].
      eapply Forall_impl; [| exact Fz]. intros a Ha. cbv beta in *. lra.
    + constructor; [now apply IH |].
      apply Forall_forall. intros a Ha. apply insertBy_In in Ha.
      destruct Ha as [-> | Ha].
      * cbv beta. destruct (Qlt_le_dec (key z) (key x)) as [L | L]; [lra |].
        apply Qle_bool_iff in L. congruence.
      * rewrite Forall_forall in Fz. now apply Fz.
Qed.

Lemma sortBy_sorted (l : list A) : StronglySorted ascending (sortBy key l).
Proof.
  induction l as [| y l IH]; simpl; [constructor | now apply insertBy_sorted].
Qed.

Lemma sortBy_of_sorted (l : list A) :
  StronglySorted ascending l -> sortBy key l = l.
Proof.
  induction l as [| y l IH]; intros S; simpl; [reflexivity |].
  inversion S as [| ? ? Sl Fy]; subst. rewrite IH by assumption.
  destruct l as [| z l]; simpl; [reflexivity |].
  inversion Fy as [| ? ? Hz _]; subst. cbv beta in Hz.
  apply Qle_bool_iff in Hz. now rewrite Hz.
Qed.

Lemma sorted_snoc (R : A -> A -> Prop) (l : list A) (a : A) :
  StronglySorted R l -> Forall (fun x => R x a) l -> StronglySorted R (l ++ [a]).
Proof.
  induction l as [| y l IH]; intros S F; simpl.
  - repeat constructor.
  - inversion S as [| ? ? Sl Fy]; subst. inversion F as [| ? ? Ry Fl]; subst.
    constructor; [now apply IH |].
    apply Forall_app. split; [assumption | now constructor].
Qed.

Lemma sorted_rev (l : list A) :
  StronglySorted ascending l ->
  StronglySorted (fun a b => ascending b a) (rev l).
Proof.
  induction l as [| y l IH]; intros S; simpl; [constructor |].
  inversion S as [| ? ? Sl Fy]; subst.
  apply sorted_snoc; [now apply IH |].
  apply Forall_forall. intros x Hx. apply in_rev in Hx.
  rewrite Forall_forall in Fy. now apply Fy.
Qed.

End SortFacts.

Section SessionFacts.
Context {H : Host}.

Lemma isMatch_iff (ts : Q) (s : TxSpan) :
  isMatch ts s = true <-> (startTs s <= ts + 60000 /\ ts <= endTs s + 60000)%Q.
Proof.
  unfold isMatch. rewrite andb_true_iff, !Qle_bool_iff. reflexivity.
Qed.

Lemma tooOld_iff (ts : Q) (s : TxSpan) :
  tooOld ts s = true <-> (startTs s < ts - 600000)%Q.
Proof.
  unfold tooOld. rewrite Qltb_lt. 
  assert (E : (ts - 10 * 60 * 1000 == ts - 600000)%Q) by ring.
  now rewrite E.
Qed.
End SessionFacts.

(** ** Property lists and the triplet builder *)

Section ObjFacts.
Context {A : Type}.

Lemma objGet_objSet_eq (o : jsobj A) (k : string) (v : A) :
  objGet (objSet o k v) k = Some v.
Proof.
  induction o as [| [k' v'] o IH]; simpl.
  - now rewrite String.eqb_refl.
  - destruct (String.eqb k' k) eqn:E; simpl; rewrite E; [reflexivity | exact IH].
Qed.

Lemma objGet_objSet_ne (o : jsobj A) (k k' : string) (v : A) :
  k' <> k -> objGet (objSet o k v) k' = objGet o k'.
Proof.
  intros N. induction o as [| [k0 v0] o IH]; simpl.
  - destruct (String.eqb_spec k k'); [congruence | reflexivity].
  - destruct (String.eqb_spec k0 k) as [-> | Nk]; simpl.
    + destruct (String.eqb_spec k k'); [congruence | reflexivity].
    + destruct (String.eqb_spec k0 k'); [reflexivity | exact IH].
Qed.

Lemma objGet_None_keys (o : jsobj A) (k : string) :
  objGet o k = None <-> ~ In k (map fst o).
Proof.
  induction o as [| [k0 v0] o IH]; simpl.
  - intuition.
  - destruct (String.eqb_spec k0 k) as [-> | N].
    + split; [discriminate | intros X; exfalso; apply X; now left].
    + rewrite IH. intuition.
Qed.

Lemma objGet_Some_In (o : jsobj A) (k : string) (v : A) :
  objGet o k = Some v -> In (k, v) o.
Proof.
  induction o as [| [k0 v0] o IH]; simpl; [discriminate |].
  destruct (String.eqb_spec k0 k) as [-> | N].
  - intros E. injection E as ->. now left.
  - intros E. right. now apply IH.
Qed.

Lemma In_objGet (o : jsobj A) (k : string) (v : A) :
  NoDup (map fst o) -> In (k, v) o -> objGet o k = Some v.
Proof.
  induction o as [| [k0 v0] o IH]; simpl; intros ND Hin; [destruct Hin |].
  inversion ND as [| ? ? Nin ND']; subst.
  destruct Hin as [E | Hin].
  - injection E as -> ->. now rewrite String.eqb_refl.
  - destruct (String.eqb_spec k0 k) as [-> | N].
    + exfalso. apply Nin. change k with (fst (k, v)). now apply in_map.
    + now apply IH.
Qed.

Lemma objSet_keys_present (o : jsobj A) (k : string) (v v0 : A) :
  objGet o k = Some v0 -> map fst (objSet o k v) = map fst o.
Proof.
  induction o as [| [k1 v1] o IH]; simpl; [discriminate |].
  destruct (String.eqb_spec k1 k) as [-> | N]; simpl; [reflexivity |].
  intros E. now rewrite IH.
Qed.

Lemma objSet_keys_absent (o : jsobj A) (k : string) (v : A) :
  objGet o k = None -> map fst (objSet o k v) = map fst o ++ [k].
Proof.
  induction o as [| [k1 v1] o IH]; simpl; [reflexivity |].
  destruct (String.eqb_spec k1 k) as [-> | N]; simpl; [discriminate |].
  intros E. now rewrite IH.
Qed.

Lemma NoDup_snoc (l : list string) (k : string) :
  NoDup l -> ~ In k l -> NoDup (l ++ [k]).
Proof.
  intros ND Nin. apply NoDup_app; [assumption | repeat constructor; auto | ].
  intros x Hx [-> | []]. contradiction.
Qed.

End ObjFacts.

Section TripletFacts.
Context {H : Host}.

Lemma getPhase_setPhase (t : VoltageTriplet) (ph0 ph : Phase) (v : Q) :
  getPhase (setPhase t ph0 v) ph <> None <-> ph = ph0 \/ getPhase t ph <> None.
Proof.
  destruct ph0, ph; simpl; split; intros X;
    try (left; reflexivity); try discriminate; try (right; exact X);
    try (destruct X as [X | X]; [discriminate | exact X]).
Qed.

Lemma getPhase_setPhase_value (t : VoltageTriplet) (ph0 ph : Phase) (v0 v : Q) :
  getPhase (setPhase t ph0 v0) ph = Some v ->
  (ph = ph0 /\ v = v0) \/ getPhase t ph = Some v.
Proof.
  destruct ph0, ph; simpl; intros X; try (right; exact X);
    left; split; congruence.
Qed.

Lemma getPhase_fresh (p : VoltagePoint) (ph : Phase) :
  getPhase (freshTriplet p) ph = None.
Proof. destruct ph; reflexivity. Qed.

(** The invariant at a key other than the one being written. *)
Lemma tripletInv_other (seen : list VoltagePoint) (p : VoltagePoint)
  (k : string) (o : option VoltageTriplet) :
  k <> tripletKey p ->
  match o with
  | Some t =>
      t_id t = k /\
      (exists r, In r seen /\ tripletKey r = k /\
                 t_connectorId t = p_connectorId r /\
                 t_dataset t = p_dataset r /\
                 t_ts t = roundedTs (p_ts r)) /\
      (forall ph, getPhase t ph <> None <->
                  exists r, In r seen /\ tripletKey r = k /\ p_phase r = ph) /\
      (forall ph v, getPhase t ph = Some v ->
                    exists r, In r seen /\ tripletKey r = k /\
                              p_phase r = ph /\ p_voltage r = v)
  | None => forall r, In r seen -> tripletKey r <> k
  end ->
  match o with
  | Some t =>
      t_id t = k /\
      (exists r, In r (p :: seen) /\ tripletKey r = k /\
                 t_connectorId t = p_connectorId r /\
                 t_dataset t = p_dataset r /\
                 t_ts t = roundedTs (p_ts r)) /\
      (forall ph, getPhase t ph <> None <->
                  exists r, In r (p :: seen) /\ tripletKey r = k /\ p_phase r = ph) /\
      (forall ph v, getPhase t ph = Some v ->
                    exists r, In r (p :: seen) /\ tripletKey r = k /\
                              p_phase r = ph /\ p_voltage r = v)
  | None => forall r, In r (p :: seen) -> tripletKey r <> k
  end.
Proof.
  intros N I. destruct o as [t |].
  - destruct I as [Iid [[r [Hr Fr]] [Iph Ival]]].
    split; [exact Iid | split; [| split]].
    + exists r. simpl. auto.
    + intros ph. rewrite Iph. split.
      * intros [r' [Hr' X]]. exists r'. simpl. auto.
      * intros [r' [[<- | Hr'] [Kr' Pr']]]; [congruence | exists r'; auto].
    + intros ph v G. destruct (Ival ph v G) as [r' [Hr' X]].
      exists r'. simpl. auto.
  - intros r [<- | Hr]; [congruence | now apply I].
Qed.

Lemma addPoint_inv (seen : list VoltagePoint) (m : jsobj VoltageTriplet)
  (p : VoltagePoint) :
  tripletInv seen m -> tripletInv (p :: seen) (addPoint m p).
Proof.
  intros [ND I]. unfold addPoint.
  pose proof (I (tripletKey p)) as Ip.
  destruct (objGet m (tripletKey p)) as [t0 |] eqn:G.
  - (* the key is already there *)
    rewrite G. split.
    + now rewrite (objSet_keys_present _ _ _ _ G).
    + intros k. destruct (string_dec k (tripletKey p)) as [-> | N].
      * rewrite objGet_objSet_eq.
        destruct Ip as [Iid [[r [Hr [Kr Fr]]] [Iph Ival]]].
        split; [exact Iid | split; [| split]].
        -- exists r. simpl. auto.
        -- intros ph. rewrite getPhase_setPhase, Iph. split.
           ++ intros [-> | [r' [Hr' [Kr' Pr']]]];
                [exists p; simpl; auto | exists r'; simpl; auto].
           ++ intros [r' [[<- | Hr'] [Kr' Pr']]];
                [left; auto | right; exists r'; auto].
        -- intros ph v Gv. apply getPhase_setPhase_value in Gv.
           destruct Gv as [[-> ->] | Gv]; [exists p; simpl; auto |].
           destruct (Ival ph v Gv) as [r' [Hr' X]]. exists r'. simpl. auto.
      * rewrite objGet_objSet_ne by assumption.
        apply tripletInv_other; [assumption | apply I].
  - (* a new triplet is created *)
    rewrite objGet_objSet_eq. split.
    + rewrite (objSet_keys_present _ _ _ (freshTriplet p))
        by apply objGet_objSet_eq.
      rewrite (objSet_keys_absent _ _ _ G).
      apply NoDup_snoc; [assumption | now apply objGet_None_keys].
    + intros k. destruct (string_dec k (tripletKey p)) as [-> | N].
      * rewrite objGet_objSet_eq. split; [reflexivity | split; [| split]].
        -- exists p. simpl. auto.
        -- intros ph. rewrite getPhase_setPhase. split.
           ++ intros [-> | X]; [exists p; simpl; auto |].
              exfalso. apply X. apply getPhase_fresh.
           ++ intros [r' [[<- | Hr'] [Kr' Pr']]]; [left; auto |].
              exfalso. exact (Ip r' Hr' Kr').
        -- intros ph v Gv. apply getPhase_setPhase_value in Gv.
           destruct Gv as [[-> ->] | Gv]; [exists p; simpl; auto |].
           rewrite getPhase_fresh in Gv. discriminate.
      * rewrite !objGet_objSet_ne by assumption.
        apply tripletInv_other; [assumption | apply I].
Qed.

Lemma tripletInv_ext (seen seen' : list VoltagePoint) (m : jsobj VoltageTriplet) :
  (forall r, In r seen <-> In r seen') -> tripletInv seen m -> tripletInv seen' m.
Proof.
  intros E [ND I]. split; [assumption |]. intros k. specialize (I k).
  destruct (objGet m k) as [t |].
  - destruct I as [Iid [[r [Hr Fr]] [Iph Ival]]].
    split; [exact Iid | split; [| split]].
    + exists r. split; [now apply E | exact Fr].
    + intros ph. rewrite Iph. split; intros [r' [Hr' X]]; exists r';
        (split; [now apply E | exact X]).
    + intros ph v G. destruct (Ival ph v G) as [r' [Hr' X]].
      exists r'. split; [now apply E | exact X].
  - intros r Hr. apply I. now apply E.
Qed.

Lemma fold_addPoint_inv (pts seen : list VoltagePoint) (m : jsobj VoltageTriplet) :
  tripletInv seen m -> tripletInv (rev pts ++ seen) (fold_left addPoint pts m).
Proof.
  revert seen m. induction pts as [| p pts IH]; intros seen m I; simpl.
  - exact I.
  - rewrite <- app_assoc. simpl. apply IH. now apply addPoint_inv.
Qed.

Lemma buildTripletMap_inv (pts : list VoltagePoint) :
  tripletInv pts (buildTripletMap pts).
Proof.
  unfold buildTripletMap.
  apply (tripletInv_ext (rev pts ++ [])).
  - intros r. rewrite app_nil_r. symmetry. apply in_rev.
  - apply fold_addPoint_inv. split; [constructor |]. intros k r [].
Qed.

End TripletFacts.

(** ** Enumeration order and the sorting loop *)

Section EnumerationFacts.
Context {A : Type}.

Lemma insertIndex_In {B : Type} (e e0 : N * B) (l : list (N * B)) :
  In e (insertIndex e0 l) <-> e = e0 \/ In e l.
Proof.
  induction l as [| x l IH]; simpl.
  - intuition.
  - destruct (fst e0 <=? fst x)%N; simpl; rewrite ?IH; intuition.
Qed.

Lemma indexProps_In (o : jsobj A) (n : N) (kv : string * A) :
  In (n, kv) (indexProps o) <-> In kv o /\ arrayIndex (fst kv) = Some n.
Proof.
  induction o as [| x o IH].
  - simpl. intuition.
  - change (indexProps (x :: o))
      with (match arrayIndex (fst x) with
            | Some m => insertIndex (m, x) (indexProps o)
            | None => indexProps o
            end).
    simpl In.
    destruct (arrayIndex (fst x)) as [m |] eqn:E.
    + rewrite insertIndex_In, IH. split.
      * intros [X | [X Y]]; [injection X as -> ->; auto | auto].
      * intros [[-> | X] Y]; [left; congruence | right; auto].
    + rewrite IH. split.
      * intros [X Y]. auto.
      * intros [[-> | X] Y]; [congruence | auto].
Qed.

Lemma objectEntries_In (o : jsobj A) (kv : string * A) :
  In kv (objectEntries o) <-> In kv o.
Proof.
  unfold objectEntries, namedProps. rewrite in_app_iff, in_map_iff, filter_In.
  split.
  - intros [[[n kv'] [E X]] | [X _]]; [| assumption].
    simpl in E. subst kv'. now apply indexProps_In in X.
  - intros X. destruct (arrayIndex (fst kv)) as [n |] eqn:E.
    + left. exists (n, kv). split; [reflexivity |]. now apply indexProps_In.
    + right. split; [assumption | reflexivity].
Qed.

Lemma objectKeys_In (o : jsobj A) (k : string) :
  In k (objectKeys o) <-> In k (map fst o).
Proof.
  unfold objectKeys. rewrite !in_map_iff.
  split; intros [kv [E X]]; exists kv; (split; [assumption |]);
    now apply objectEntries_In.
Qed.

End EnumerationFacts.

Section SortEntriesFacts.
Context {H : Host} {A : Type} (key : A -> Q).

Local Abbreviation step :=
  (fun (acc : jsobj (list A)) (k : string) =>
     let k' := ToString (ToNumber (JStr k)) in
     match objGet acc k' with
     | Some l => Ret (objSet acc k' (sortBy key l))
     | None => Throw TypeError
     end).

Lemma sortBy_idempotent (l : list A) : sortBy key (sortBy key l) = sortBy key l.
Proof. apply sortBy_of_sorted. apply sortBy_sorted. Qed.

Lemma sortLoop_keeps_sorted (ks : list string) (acc acc' : jsobj (list A))
  (k : string) (l : list A) :
  forEachM step ks acc = Ret acc' ->
  objGet acc k = Some (sortBy key l) ->
  objGet acc' k = Some (sortBy key l).
Proof.
  revert acc. induction ks as [| k0 ks IH]; intros acc; cbn [forEachM]; cbv beta zeta.
  - intros E. now injection E as <-.
  - destruct (objGet acc (ToString (ToNumber (JStr k0)))) as [l0 |] eqn:G0;
      cbn [bind]; [| discriminate].
    intros E G. apply (IH _ E).
    destruct (string_dec k (ToString (ToNumber (JStr k0)))) as [-> | N].
    + rewrite objGet_objSet_eq. rewrite G in G0. injection G0 as <-.
      now rewrite sortBy_idempotent.
    + now rewrite objGet_objSet_ne.
Qed.

Lemma sortLoop_sorts (ks : list string) (acc acc' : jsobj (list A))
  (k : string) (l : list A) :
  forEachM step ks acc = Ret acc' ->
  objGet acc k = Some l -> In k ks ->
  ToString (ToNumber (JStr k)) = k ->
  objGet acc' k = Some (sortBy key l).
Proof.
  revert acc. induction ks as [| k0 ks IH]; intros acc; cbn [forEachM]; cbv beta zeta.
  - intros _ _ [].
  - destruct (objGet acc (ToString (ToNumber (JStr k0)))) as [l0 |] eqn:G0;
      cbn [bind]; [| discriminate].
    intros E G Hin C.
    destruct (string_dec k (ToString (ToNumber (JStr k0)))) as [Ek | N].
    + apply (sortLoop_keeps_sorted _ _ _ _ _ E).
      rewrite <- Ek. rewrite objGet_objSet_eq.
      rewrite <- Ek, G in G0. now injection G0 as <-.
    + apply (IH _ E).
      * now rewrite objGet_objSet_ne.
      * destruct Hin as [-> | Hin]; [congruence | assumption].
      * assumption.
Qed.

(** After the sorting loop, the entry of a key that survives the round
    trip through [Number] holds its list sorted. *)
Lemma sortEntries_sorted (o o' : jsobj (list A)) (k : string) (l : list A) :
  sortEntries key o = Ret o' ->
  objGet o k = Some l ->
  ToString (ToNumber (JStr k)) = k ->
  objGet o' k = Some (sortBy key l).
Proof.
  intros E G C. apply (sortLoop_sorts _ _ _ _ _ E G); [| assumption].
  apply objectKeys_In. apply objGet_Some_In in G.
  change k with (fst (k, l)). now apply in_map.
Qed.

(** The sorting loop completes when every key survives the round trip. *)
Lemma sortLoop_total (ks : list string) (acc : jsobj (list A)) :
  (forall k, In k ks -> ToString (ToNumber (JStr k)) = k /\ objGet acc k <> None) ->
  exists acc', forEachM step ks acc = Ret acc'.
Proof.
  revert acc. induction ks as [| k0 ks IH]; intros acc F; cbn [forEachM]; cbv beta zeta.
  - now exists acc.
  - destruct (F k0 (or_introl eq_refl)) as [C G]. rewrite C.
    destruct (objGet acc k0) as [l0 |] eqn:G0; [| congruence]. cbn [bind].
    apply IH. intros k Hk. destruct (F k (or_intror Hk)) as [Ck Gk].
    split; [assumption |].
    destruct (string_dec k k0) as [-> | N].
    + rewrite objGet_objSet_eq. discriminate.
    + now rewrite objGet_objSet_ne.
Qed.

Lemma sortEntries_total (o : jsobj (list A)) :
  (forall k, In k (map fst o) -> ToString (ToNumber (JStr k)) = k) ->
  exists o', sortEntries key o = Ret o'.
Proof.
  intros C. apply sortLoop_total. intros k Hk.
  apply (proj1 (objectKeys_In o k)) in Hk.
  split; [now apply C |]. intros X. apply objGet_None_keys in X. contradiction.
Qed.

End SortEntriesFacts.

(** ** Session matching *)

Section SessionMatching.
Context {H : Host}.

Lemma findActive_examined (ts : Q) (l : list TxSpan) :
  findActive ts l = find (isMatch ts) (examined ts l).
Proof.
  induction l as [| s l IH]; simpl; [reflexivity |].
  destruct (isMatch ts s) eqn:M.
  - destruct (tooOld ts s); simpl; now rewrite M.
  - destruct (tooOld ts s); simpl; rewrite M; [reflexivity | exact IH].
Qed.

(** A matching span that is not itself too old is never skipped when the
    spans are visited from the latest start to the earliest. *)
Lemma findActive_reaches (ts : Q) (s : TxSpan) (l : list TxSpan) :
  StronglySorted (fun a b => (startTs b <= startTs a)%Q) l ->
  In s l -> isMatch ts s = true -> tooOld ts s = false ->
  exists s', findActive ts l = Some s'.
Proof.
  intros S Hin M O. induction l as [| x l IH]; [destruct Hin |].
  simpl. destruct (isMatch ts x) eqn:Mx; [now exists x |].
  inversion S as [| ? ? Sl Fx]; subst.
  destruct Hin as [-> | Hin]; [congruence |].
  assert (Ox : tooOld ts x = false).
  { rewrite Forall_forall in Fx. specialize (Fx s Hin).
    apply Qltb_ge. apply Qltb_ge in O. lra. }
  rewrite Ox. now apply IH.
Qed.

Lemma finalizeTriplet_session (txSpansByConn : jsobj (list TxSpan))
  (timeline : jsobj (list StatusEvent)) (vmin vmax : Q) (t t' : VoltageTriplet) :
  finalizeTriplet txSpansByConn timeline vmin vmax t = Some t' ->
  match matchSession
          (match objGet txSpansByConn (ToString (t_connectorId t)) with
           | Some l => l
           | None => []
           end) (t_ts t) with
  | Some s => t_session t' = session /\ t_sessionId t' = Some (tx s)
  | None => t_session t' = idle
  end.
Proof.
  unfold finalizeTriplet. destruct (phaseValues t) as [| v vs]; [discriminate |].
  destruct (evaluateStatus _ vmin vmax) as [st dev].
  intros E. injection E as <-. simpl.
  destruct (matchSession _ (t_ts t)); auto.
Qed.

(** Session matching on a span table, the behaviour claim C3 describes;
    it is what the source does for a connector id that is not an
    inherited name ([plainKey]) and a table built from transaction ids
    that are not.  Session matching visits the connector's spans from the
    last index to the first, which after the sort by [startTs] is from
    the latest start to the earliest, and selects the first span with
    [ts + 60000 >= startTs] and [ts <= endTs + 60000] among those it
    examines, the scan ending with the first span whose start is more than
    ten minutes before the triplet; the triplet gets [session] and the
    span's transaction id, or [idle] when no span is selected.  For a span
    [t0, t0 + 600000] a triplet at [t0 - 59000] gets a session, and with
    that span alone a triplet at [t0 - 61000] is idle. *)
Theorem session_matching_tolerance (txSpansByConn : jsobj (list TxSpan))
  (timeline : jsobj (list StatusEvent)) (vmin vmax : Q) (t t' : VoltageTriplet) :
  let spans := match objGet txSpansByConn (ToString (t_connectorId t)) with
               | Some l => l
               | None => []
               end in
  (forall ts l, matchSession l ts = find (isMatch ts) (examined ts (rev l))) /\
  (forall ts s, isMatch ts s = true <->
                (startTs s <= ts + 60000 /\ ts <= endTs s + 60000)%Q) /\
  (forall ts s, tooOld ts s = true <-> (startTs s < ts - 600000)%Q) /\
  (forall l, StronglySorted (fun a b => (startTs b <= startTs a)%Q)
                            (rev (sortBy startTs l))) /\
  (forall o o' k l,
     sortEntries startTs o = Ret o' -> objGet o k = Some l ->
     ToString (ToNumber (JStr k)) = k ->
     objGet o' k = Some (sortBy startTs l)) /\
  (finalizeTriplet txSpansByConn timeline vmin vmax t = Some t' ->
   match matchSession spans (t_ts t) with
   | Some s => t_session t' = session /\ t_sessionId t' = Some (tx s)
   | None => t_session t' = idle
   end) /\
  (forall l s t0 ts,
     In s l -> (startTs s == t0)%Q -> (endTs s == t0 + 600000)%Q ->
     (ts == t0 - 59000)%Q ->
     exists s', matchSession (sortBy startTs l) ts = Some s') /\
  (forall s t0 ts,
     (startTs s == t0)%Q -> (endTs s == t0 + 600000)%Q ->
     (ts == t0 - 61000)%Q ->
     matchSession [s] ts = None).
Proof.
  cbv zeta. repeat apply conj.
  - intros ts l. apply findActive_examined.
  - apply isMatch_iff.
  - apply tooOld_iff.
  - intros l. apply (sorted_rev startTs). apply sortBy_sorted.
  - intros o o' k l. apply sortEntries_sorted.
  - apply finalizeTriplet_session.
  - intros l s t0 ts Hin Es Ee Et. unfold matchSession.
    apply (findActive_reaches ts s).
    + apply (sorted_rev startTs). apply sortBy_sorted.
    + apply -> in_rev. now apply sortBy_In.
    + apply isMatch_iff. lra.
    + apply Qltb_ge. unfold tooOld. lra.
  - intros s t0 ts Es Ee Et. unfold matchSession. simpl.
    assert (M : isMatch ts s = false).
    { destruct (isMatch ts s) eqn:M; [| reflexivity].
      apply isMatch_iff in M. lra. }
    rewrite M. now destruct (tooOld ts s).
Qed.

End SessionMatching.

(** ** Finalization and the same-second merge *)

Section FinalizeFacts.
Context {H : Host}.

Lemma finalizeTriplet_fields (byConn : jsobj (list TxSpan))
  (timeline : jsobj (list StatusEvent)) (vmin vmax : Q) (t t' : VoltageTriplet) :
  finalizeTriplet byConn timeline vmin vmax t = Some t' ->
  t_id t' = t_id t /\ t_ts t' = t_ts t /\ t_dataset t' = t_dataset t /\
  t_connectorId t' = t_connectorId t /\
  forall ph, getPhase t' ph = getPhase t ph.
Proof.
  unfold finalizeTriplet. destruct (phaseValues t) as [| v vs]; [discriminate |].
  destruct (evaluateStatus _ vmin vmax) as [st dev].
  intros E. injection E as <-. simpl.
  repeat split; try (intros ph; now destruct ph).
Qed.

Lemma finalizeTriplet_total (byConn : jsobj (list TxSpan))
  (timeline : jsobj (list StatusEvent)) (vmin vmax : Q) (t : VoltageTriplet)
  (ph : Phase) :
  getPhase t ph <> None ->
  exists t', finalizeTriplet byConn timeline vmin vmax t = Some t'.
Proof.
  intros P. unfold finalizeTriplet.
  assert (N : phaseValues t <> []).
  { unfold phaseValues. destruct ph; simpl in P;
      destruct (t_L1 t), (t_L2 t), (t_L3 t); simpl; congruence. }
  destruct (phaseValues t) as [| v vs]; [congruence |].
  destruct (evaluateStatus _ vmin vmax) as [st dev]. eauto.
Qed.

Lemma countId_insertBy (key : string) (x : VoltageTriplet) (l : list VoltageTriplet) :
  countId key (insertBy t_ts x l) = countId key (x :: l).
Proof.
  induction l as [| y l IH]; simpl; [reflexivity |].
  destruct (Qle_bool (t_ts x) (t_ts y)); simpl; [reflexivity |].
  rewrite IH. simpl. lia.
Qed.

Lemma countId_sortBy (key : string) (l : list VoltageTriplet) :
  countId key (sortBy t_ts l) = countId key l.
Proof.
  induction l as [| y l IH]; simpl; [reflexivity |].
  rewrite countId_insertBy. simpl. now rewrite IH.
Qed.

Lemma countId_keepSome (key : string) (f : string * VoltageTriplet -> option VoltageTriplet)
  (m : jsobj VoltageTriplet) :
  (forall k t, In (k, t) m -> exists t', f (k, t) = Some t' /\ t_id t' = k) ->
  countId key (keepSome (map f m)) =
  List.length (filter (fun kv => String.eqb (fst kv) key) m).
Proof.
  induction m as [| [k t] m IH]; intros F; simpl; [reflexivity |].
  destruct (F k t (or_introl eq_refl)) as [t' [E Id]]. rewrite E. simpl.
  rewrite Id. rewrite IH by (intros k0 t0 Hin; apply F; now right).
  now destruct (String.eqb k key).
Qed.

Lemma NoDup_count_one (m : jsobj VoltageTriplet) (key : string) (t : VoltageTriplet) :
  NoDup (map fst m) -> In (key, t) m ->
  List.length (filter (fun kv => String.eqb (fst kv) key) m) = 1.
Proof.
  induction m as [| [k0 t0] m IH]; simpl; intros ND Hin; [destruct Hin |].
  inversion ND as [| ? ? Nin ND']; subst.
  destruct (String.eqb_spec k0 key) as [-> | N].
  - simpl. f_equal.
    assert (Z : forall l : jsobj VoltageTriplet, ~ In key (map fst l) ->
                filter (fun kv => String.eqb (fst kv) key) l = []).
    { clear. induction l as [| [k1 t1] l IHl]; simpl; intros X; [reflexivity |].
      destruct (String.eqb_spec k1 key) as [-> | N1]; [exfalso; apply X; now left |].
      apply IHl. intros Y. apply X. now right. }
    now rewrite Z.
  - destruct Hin as [E | Hin]; [congruence | now apply IH].
Qed.

Lemma In_keepSome_map {A B : Type} (f : A -> option B) (l : list A) (a : A) (b : B) :
  In a l -> f a = Some b -> In b (keepSome (map f l)).
Proof.
  induction l as [| x l IH]; simpl; intros Hin E; [destruct Hin |].
  destruct Hin as [-> | Hin].
  - rewrite E. now left.
  - destruct (f x); [right |]; now apply IH.
Qed.

(** *** The text of a triplet key

    A key is [dataset|connector|second].  The number that ends it holds no
    bar, so the last bar of the key is the one before the second, and two
    keys of one dataset are equal only for the same connector text and
    the same second. *)

Lemma someChar_app (f : ascii -> bool) (a b : string) :
  someChar f (a +++ b) = someChar f a || someChar f b.
Proof.
  induction a as [| c a IH]; simpl; [reflexivity |].
  rewrite IH. apply orb_assoc.
Qed.

Lemma last_bar (a b n m : string) :
  someChar (Ascii.eqb "|") n = false -> someChar (Ascii.eqb "|") m = false ->
  a +++ "|" +++ n = b +++ "|" +++ m -> a = b /\ n = m.
Proof.
  intros Hn Hm. revert b.
  induction a as [| c a IH]; intros [| d b] E; simpl in E.
  - injection E as E. now split.
  - injection E as <- E. exfalso.
    rewrite E, someChar_app in Hn. simpl in Hn.
    rewrite orb_true_r in Hn. discriminate.
  - injection E as -> E. exfalso.
    rewrite <- E, someChar_app in Hm. simpl in Hm.
    rewrite orb_true_r in Hm. discriminate.
  - injection E as -> E. destruct (IH b E) as [-> ->]. now split.
Qed.

Lemma append_cancel_l (d a b : string) : d +++ a = d +++ b -> a = b.
Proof.
  induction d as [| c d IH]; simpl; intros E; [exact E |].
  injection E as E. now apply IH.
Qed.

Lemma tripletKey_slot (p q : VoltagePoint) :
  (forall z, someChar (Ascii.eqb "|") (NumberToString (inject_Z z)) = false) ->
  (forall z z', NumberToString (inject_Z z) = NumberToString (inject_Z z') -> z = z') ->
  p_dataset p = p_dataset q ->
  (tripletKey p = tripletKey q <->
   ToString (p_connectorId p) = ToString (p_connectorId q) /\
   Qfloor (p_ts p / 1000) = Qfloor (p_ts q / 1000)).
Proof.
  intros NoBar Inj Ed. unfold tripletKey, roundedTs. cbn [ToString]. rewrite Ed.
  split.
  - intros E. apply append_cancel_l in E. apply (append_cancel_l "|") in E.
    apply last_bar in E; [| apply NoBar | apply NoBar].
    destruct E as [Ec En]. split; [exact Ec |].
    apply Inj in En. lia.
  - intros [-> ->]. reflexivity.
Qed.


End FinalizeFacts.

(** ** Connector attribution *)

Section ConnectorFacts.
Context {H : Host}.

Lemma forEachM_inv {A S : Type} (P : S -> Prop) (f : S -> A -> exc S)
  (l : list A) (s s' : S) :
  (forall s0 a s1, P s0 -> f s0 a = Ret s1 -> P s1) ->
  P s -> forEachM f l s = Ret s' -> P s'.
Proof.
  intros Step. revert s. induction l as [| a l IH]; intros s Ps; simpl.
  - intros E. injection E as <-. exact Ps.
  - destruct (f s a) as [s1 | e |] eqn:E; simpl; try discriminate.
    apply IH. exact (Step _ _ _ Ps E).
Qed.

Lemma sampleStep_points (dataset : string) (conn : jsval) (dt : Q)
  (pts pts' : list VoltagePoint) (sv : jsval) :
  sampleStep dataset conn dt pts sv = Ret pts' ->
  forall p, In p pts' ->
    In p pts \/ (p_connectorId p = conn /\ p_dataset p = dataset /\ p_ts p = dt).
Proof.
  unfold sampleStep, getProp.
  destruct (nullish sv); simpl; [discriminate |].
  destruct (negb (isVolts _)).
  { intros E. injection E as <-. auto. }
  destruct (normPhase _) as [ph |]; [| intros E; injection E as <-; auto].
  destruct (parseFloat _) as [v |]; [| intros E; injection E as <-; auto].
  destruct (Qltb v 600); intros E; injection E as <-; auto.
  intros p Hp. apply in_app_or in Hp. destruct Hp as [Hp | [<- | []]]; auto.
Qed.

Lemma meterEntry_points (dataset : string) (conn tx : jsval) (pos : nat)
  (c c' : Ctx) (mv : jsval) :
  meterEntry dataset conn tx pos c mv = Ret c' ->
  forall p, In p (points c') ->
    In p (points c) \/ (p_connectorId p = conn /\ p_dataset p = dataset).
Proof.
  unfold meterEntry, getProp.
  destruct (nullish mv); simpl; [discriminate |].
  destruct (parseISO _) as [dt |].
  2:{ intros E. injection E as <-. simpl. auto. }
  destruct (outOfWindow dt).
  { destruct (Date_toISOString dt); simpl; try discriminate.
    intros E. injection E as <-. simpl. auto. }
  destruct (iterate _) as [samples | e |]; simpl; try discriminate.
  set (c1 := if truthy tx then _ else c).
  assert (E1 : points c1 = points c) by (unfold c1; now destruct (truthy tx)).
  destruct (forEachM _ samples (points c1)) as [pts | e |] eqn:F; simpl; try discriminate.
  intros E. injection E as <-. simpl. rewrite <- E1.
  revert F.
  apply (forEachM_inv
           (fun l => forall p, In p l ->
              In p (points c1) \/ (p_connectorId p = conn /\ p_dataset p = dataset))).
  - intros l0 sv l1 P0 S p Hp.
    destruct (sampleStep_points _ _ _ _ _ _ S p Hp) as [X | [X [Y _]]]; auto.
  - auto.
Qed.

Lemma onMeterValues_points (dataset : string) (obj : jsval) (pos : nat) (c c' : Ctx) :
  onMeterValues dataset obj pos c = Ret c' ->
  forall p, In p (points c') ->
    In p (points c) \/
    (p_connectorId p = (field obj "connectorId" ||| JNum 1) /\ p_dataset p = dataset).
Proof.
  unfold onMeterValues.
  destruct (iterate _) as [entries | e |]; simpl; try discriminate.
  apply (forEachM_inv
           (fun c0 => forall p, In p (points c0) ->
              In p (points c) \/
              (p_connectorId p = (field obj "connectorId" ||| JNum 1) /\
               p_dataset p = dataset))).
  - intros c0 mv c1 P0 S p Hp.
    destruct (meterEntry_points _ _ _ _ _ _ _ S p Hp) as [X | X]; auto.
  - auto.
Qed.

Lemma buildTripletMap_connector (pts : list VoltagePoint) (k : string)
  (t : VoltageTriplet) :
  objGet (buildTripletMap pts) k = Some t ->
  exists r, In r pts /\ tripletKey r = k /\ t_connectorId t = p_connectorId r.
Proof.
  intros G. destruct (buildTripletMap_inv pts) as [_ I].
  specialize (I k). rewrite G in I.
  destruct I as [_ [[r [Hr [Kr [Cr _]]]] _]]. now exists r.
Qed.

Lemma finalizeTriplet_status (byConn : jsobj (list TxSpan))
  (timeline : jsobj (list StatusEvent)) (vmin vmax : Q) (t t' : VoltageTriplet) :
  finalizeTriplet byConn timeline vmin vmax t = Some t' ->
  let stArr := match objGet timeline (ToString (t_connectorId t)) with
               | Some l => l
               | None => match objGet timeline (ToString (JNum 0)) with
                         | Some l => l
                         | None => []
                         end
               end in
  t_sessionStatus t' = match lastStatusAtOrBefore stArr (t_ts t) with
                       | Some e => ev_status e
                       | None => t_sessionStatus t
                       end.
Proof.
  unfold finalizeTriplet. destruct (phaseValues t) as [| v vs]; [discriminate |].
  destruct (evaluateStatus _ vmin vmax) as [st dev].
  intros E. injection E as <-. reflexivity.
Qed.

(** Connector attribution, the behaviour claim C10 describes; it is what
    the source does as long as the parse has filed no transaction under
    the id [__proto__], which writes [connectorId] onto [Object.prototype]
    ([plainLog]).  A MeterValues message whose [connectorId] is falsy
    produces only points of connector 1, a triplet carries the connector
    of one of its points, and finalization keeps it; a StatusNotification
    whose [connectorId] is 0, [null] or absent, with a timestamp inside
    the plausibility window, is appended to the timeline of connector 0
    and to no other, which is the timeline a triplet falls back on when
    its own connector has none. *)
Theorem connector_zero_attribution (dataset : string) (obj : jsval) (pos : nat)
  (c : Ctx) :
  (truthy (field obj "connectorId") = false ->
   forall c', onMeterValues dataset obj pos c = Ret c' ->
   forall p, In p (points c') -> In p (points c) \/ p_connectorId p = JNum 1) /\
  (forall pts k t,
     objGet (buildTripletMap pts) k = Some t ->
     exists r, In r pts /\ tripletKey r = k /\ t_connectorId t = p_connectorId r) /\
  (forall byConn tl vmin vmax t t',
     finalizeTriplet byConn tl vmin vmax t = Some t' ->
     t_connectorId t' = t_connectorId t) /\
  (field obj "connectorId" = JNum 0 \/ nullish (field obj "connectorId") = true ->
   forall ts,
     orNone (readAnyTimestamp obj) (readAnyTimestamp (field obj "payload")) = Some ts ->
     outOfWindow ts = false ->
     let ev := {| ev_ts := ts;
                  ev_status := strOrUndefined
                    (field obj "status" ??? optField (field obj "statusInfo") "status");
                  ev_errorCode := strOrUndefined
                    (field obj "errorCode" ??? optField (field obj "statusInfo") "errorCode") |} in
     let key0 := ToString (JNum 0) in
     let before := match objGet (statusTimeline c) key0 with
                   | Some l => l
                   | None => []
                   end in
     exists c',
       onStatusNotification obj pos c = Ret c' /\
       objGet (statusTimeline c') key0 = Some (before ++ [ev]) /\
       forall k, k <> key0 -> objGet (statusTimeline c') k = objGet (statusTimeline c) k) /\
  (forall byConn tl vmin vmax t t',
     finalizeTriplet byConn tl vmin vmax t = Some t' ->
     objGet tl (ToString (t_connectorId t)) = None ->
     t_sessionStatus t' =
     match lastStatusAtOrBefore
             (match objGet tl (ToString (JNum 0)) with Some l => l | None => [] end)
             (t_ts t) with
     | Some e => ev_status e
     | None => t_sessionStatus t
     end).
Proof.
  repeat apply conj.
  - intros F c' E p Hp.
    destruct (onMeterValues_points _ _ _ _ _ E p Hp) as [X | [X _]]; [now left |].
    right. rewrite X. unfold orElse. now rewrite F.
  - apply buildTripletMap_connector.
  - intros byConn tl vmin vmax t t' E.
    now pose proof (finalizeTriplet_fields _ _ _ _ _ _ E) as [_ [_ [_ [X _]]]].
  - intros Hc ts Ets Win. cbv zeta.
    assert (Ec : ToNumber (field obj "connectorId" ??? JNum 0) = JNum 0).
    { destruct Hc as [-> | N]; [reflexivity |].
      unfold coalesce. now rewrite N. }
    eexists. split; [| split].
    + unfold onStatusNotification. rewrite Ets, Win, Ec. reflexivity.
    + unfold pushStatus. simpl. apply objGet_objSet_eq.
    + intros k N. unfold pushStatus. simpl. now apply objGet_objSet_ne.
  - intros byConn tl vmin vmax t t' E N.
    pose proof (finalizeTriplet_status _ _ _ _ _ _ E) as X. cbv zeta in X.
    now rewrite N in X.
Qed.

End ConnectorFacts.

(** ** Timestamp normalizer and statistics *)

Section TimestampFacts.
Context {H : Host}.

(** Claim C8, amended.  [parseISO] returns every non-zero number
    unchanged and rejects the number 0 ([null]); on a string it returns
    what date parsing gives, the empty string being rejected before any
    parsing. *)
Theorem parseISO_nonzero_number_or_date :
  (forall q : Q, ~ (q == 0)%Q -> parseISO (JNum q) = Some q) /\
  (forall q : Q, (q == 0)%Q -> parseISO (JNum q) = None) /\
  (forall s : string,
     parseISO (JStr s) = if String.eqb s "" then None else Date_parse s).
Proof.
  repeat apply conj.
  - intros q N. unfold parseISO. simpl.
    destruct (Qeq_bool q 0) eqn:E; [| reflexivity].
    apply Qeq_bool_eq in E. contradiction.
  - intros q Z. unfold parseISO. simpl.
    now rewrite (Qeq_eq_bool _ _ Z).
  - intros s. unfold parseISO. simpl. now destruct (String.eqb s "").
Qed.

End TimestampFacts.

Section StatsFacts.
Context {H : Host}.

Lemma deepDipStep_count (t : VoltageTriplet) (n : nat) :
  deepDipStep (t_L3 t) (deepDipStep (t_L2 t) (deepDipStep (t_L1 t) n)) =
  n + List.length (filter isDeep (phaseValues t)).
Proof.
  unfold phaseValues, deepDipStep, incIf, isDeep.
  destruct (t_L1 t) as [a |], (t_L2 t) as [b |], (t_L3 t) as [c |]; simpl;
    repeat match goal with
           | |- context [Qltb ?x 190] => destruct (Qltb x 190)
           end; simpl; lia.
Qed.

Lemma fold_statsStep_deepDip (vmin vmax : Q) (data : list VoltageTriplet) (a : Acc) :
  a_cntDeepDip (fold_left (statsStep vmin vmax) data a) =
  a_cntDeepDip a + deepDipReadings data.
Proof.
  revert a. induction data as [| t data IH]; intros a; simpl; [lia |].
  rewrite IH. simpl. rewrite deepDipStep_count. lia.
Qed.

Lemma deepDipReadings_insertBy (x : VoltageTriplet) (l : list VoltageTriplet) :
  deepDipReadings (insertBy t_ts x l) = deepDipReadings (x :: l).
Proof.
  induction l as [| y l IH]; simpl; [reflexivity |].
  destruct (Qle_bool (t_ts x) (t_ts y)); simpl; [reflexivity |].
  rewrite IH. simpl. lia.
Qed.

Lemma deepDipReadings_sortBy (l : list VoltageTriplet) :
  deepDipReadings (sortBy t_ts l) = deepDipReadings l.
Proof.
  induction l as [| y l IH]; simpl; [reflexivity |].
  rewrite deepDipReadings_insertBy. simpl. now rewrite IH.
Qed.

Lemma phaseValues_reEvaluate (vmin vmax : Q) (t : VoltageTriplet) :
  phaseValues (reEvaluate vmin vmax t) = phaseValues t.
Proof.
  unfold reEvaluate. now destruct (evaluateStatus t vmin vmax).
Qed.

Lemma deepDipReadings_reEvaluate (vmin vmax : Q) (l : list VoltageTriplet) :
  deepDipReadings (map (reEvaluate vmin vmax) l) = deepDipReadings l.
Proof.
  induction l as [| y l IH]; simpl; [reflexivity |].
  now rewrite phaseValues_reEvaluate, IH.
Qed.

Lemma deepDipTriplets_le_readings (data : list VoltageTriplet) :
  deepDipTriplets data <= deepDipReadings data.
Proof.
  unfold deepDipTriplets. induction data as [| t data IH]; simpl; [lia |].
  unfold hasDeepDip at 1.
  assert (X : (if existsb isDeep (phaseValues t) then 1 else 0)
              <= List.length (filter isDeep (phaseValues t))).
  { induction (phaseValues t) as [| v vs IHv]; simpl; [lia |].
    destruct (isDeep v); simpl; [lia | exact IHv]. }
  destruct (existsb isDeep (phaseValues t)); simpl in *; lia.
Qed.

(** Claim C6, amended.  [cntDeepDip] is the number of present phase
    readings strictly below 190 over the enabled files' triplets: a
    triplet with several such phases counts once per phase.  It does not
    depend on the thresholds, and is at least the number of triplets with
    a reading below 190. *)
Theorem cntDeepDip_counts_readings (files : list FileData) (vmin vmax : Q) :
  cntDeepDip (analysisStats files vmin vmax) =
    deepDipReadings (allData files vmin vmax) /\
  cntDeepDip (analysisStats files vmin vmax) =
    deepDipReadings (flat_map f_triplets (filter f_enabled files)) /\
  (forall vmin' vmax',
     cntDeepDip (analysisStats files vmin' vmax') =
     cntDeepDip (analysisStats files vmin vmax)) /\
  deepDipTriplets (allData files vmin vmax) <=
    cntDeepDip (analysisStats files vmin vmax).
Proof.
  assert (A : forall a b, cntDeepDip (analysisStats files a b) =
                          deepDipReadings (allData files a b)).
  { intros a b. unfold analysisStats.
    destruct (allData files a b) as [| t data] eqn:E; [reflexivity |].
    cbv beta iota zeta. unfold cntDeepDip.
    now rewrite fold_statsStep_deepDip. }
  assert (B : forall a b, deepDipReadings (allData files a b) =
                          deepDipReadings (flat_map f_triplets (filter f_enabled files))).
  { intros a b. unfold allData.
    now rewrite deepDipReadings_sortBy, deepDipReadings_reEvaluate. }
  repeat apply conj.
  - apply A.
  - now rewrite A, B.
  - intros a b. now rewrite !A, !B.
  - rewrite A. apply deepDipTriplets_le_readings.
Qed.

(** With at least one triplet in the enabled files, the risk is read off
    the counters of the record. *)
Lemma riskLevel_nonempty (files : list FileData) (vmin vmax : Q) :
  allData files vmin vmax <> [] ->
  let s := analysisStats files vmin vmax in
  riskLevel s =
  if (0 <? cntDeepDip s) || Qltb 30 (maxDelta s) || (100 <? cntInvalidDates s)
  then high
  else if (50 <? cntUnder s + cntOver s + cntImbalance s) || (10 <? cntInvalidDates s)
       then medium
       else low.
Proof.
  intros N. cbv zeta. unfold analysisStats.
  destruct (allData files vmin vmax) as [| t data]; [congruence |].
  reflexivity.
Qed.

Lemma riskLevel_no_data (files : list FileData) (vmin vmax : Q) :
  allData files vmin vmax = [] ->
  riskLevel (analysisStats files vmin vmax) = low.
Proof.
  intros E. unfold analysisStats. now rewrite E.
Qed.

End StatsFacts.

(** ** The scans never exhaust their budget *)

Section FuelFacts.
Context {H : Host}.

Lemma index_ge (m : string) (s : string) (n p : nat) :
  index n m s = Some p -> n <= p.
Proof.
  revert n p. induction s as [| c s IH]; intros n p; simpl.
  - destruct n; [| discriminate]. destruct m; [| discriminate].
    intros E. injection E as <-. lia.
  - destruct n as [| n].
    + intros _. lia.
    + destruct (index n m s) as [q |] eqn:E; [| discriminate].
      intros X. injection X as <-. apply IH in E. lia.
Qed.

Lemma index_beyond (m : string) (s : string) (n : nat) :
  m <> "" -> String.length s < n -> index n m s = None.
Proof.
  intros Nm. revert n. induction s as [| c s IH]; intros n L; simpl in *.
  - destruct n; [lia |]. reflexivity.
  - destruct n as [| n]; [lia |]. rewrite IH by lia. reflexivity.
Qed.

Lemma forEachM_no_fuel {A S : Type} (f : S -> A -> exc S) (l : list A) (s : S) :
  (forall s0 a, f s0 a <> Fuel) -> forEachM f l s <> Fuel.
Proof.
  intros F. revert s. induction l as [| a l IH]; intros s; simpl; [discriminate |].
  destruct (f s a) as [s1 | e |] eqn:E; simpl; [apply IH | discriminate |].
  exfalso. exact (F _ _ E).
Qed.

Lemma scanFrom_no_fuel (fuel : nat) (text marker : string)
  (handler : jsval -> nat -> Ctx -> exc Ctx) (j : nat) (c : Ctx) :
  marker <> "" ->
  (forall obj p c0, handler obj p c0 <> Fuel) ->
  String.length text < fuel + j ->
  scanFrom fuel text marker handler j c <> Fuel.
Proof.
  intros Nm Hh. revert j c. induction fuel as [| fuel IH]; intros j c L.
  - simpl. rewrite index_beyond by (assumption || lia). discriminate.
  - simpl. destruct (index j marker text) as [p |] eqn:E; [| discriminate].
    apply index_ge in E.
    assert (Lm : 0 < String.length marker) by (destruct marker; simpl; [congruence | lia]).
    destruct (extractJsonFrom text p) as [obj |].
    + destruct (truthy obj).
      * destruct (handler obj p c) as [c1 | e |] eqn:Eh; simpl;
          [apply IH; lia | discriminate | exfalso; exact (Hh _ _ _ Eh)].
      * simpl. apply IH. lia.
    + simpl. apply IH. lia.
Qed.

Lemma sampleStep_no_fuel (dataset : string) (conn : jsval) (dt : Q)
  (pts : list VoltagePoint) (sv : jsval) :
  sampleStep dataset conn dt pts sv <> Fuel.
Proof.
  unfold sampleStep, getProp. destruct (nullish sv); simpl; [discriminate |].
  destruct (negb (isVolts _)); [discriminate |].
  destruct (normPhase _); [| discriminate].
  destruct (parseFloat _) as [v |]; [| discriminate].
  destruct (Qltb v 600); discriminate.
Qed.

Lemma meterEntry_no_fuel (dataset : string) (conn tx : jsval) (pos : nat)
  (c : Ctx) (mv : jsval) :
  meterEntry dataset conn tx pos c mv <> Fuel.
Proof.
  unfold meterEntry, getProp. destruct (nullish mv); simpl; [discriminate |].
  destruct (parseISO _) as [dt |]; [| discriminate].
  destruct (outOfWindow dt).
  - unfold Date_toISOString. destruct (Qle_bool _ _); simpl; discriminate.
  - destruct (iterate _) as [samples | e |] eqn:Ei; simpl; try discriminate.
    + destruct (forEachM _ samples _) as [pts | e |] eqn:F; simpl; try discriminate.
      exfalso. revert F. apply forEachM_no_fuel. intros. apply sampleStep_no_fuel.
    + exfalso. revert Ei. unfold iterate.
      destruct (_ ||| _); discriminate.
Qed.

Lemma onMeterValues_no_fuel (dataset : string) (obj : jsval) (pos : nat) (c : Ctx) :
  onMeterValues dataset obj pos c <> Fuel.
Proof.
  unfold onMeterValues.
  destruct (iterate _) as [entries | e |] eqn:Ei; simpl; try discriminate.
  - apply forEachM_no_fuel. intros. apply meterEntry_no_fuel.
  - exfalso. revert Ei. unfold iterate. destruct (_ ||| _); discriminate.
Qed.

Lemma meterLoop_no_fuel (fuel : nat) (dataset text : string) (idx : nat) (c : Ctx) :
  String.length text < fuel + idx ->
  meterLoop fuel dataset text idx c <> Fuel.
Proof.
  revert idx c. induction fuel as [| fuel IH]; intros idx c L.
  - simpl. rewrite index_beyond by (discriminate || lia). discriminate.
  - simpl. destruct (index idx "MeterValues" text) as [p |] eqn:E; [| discriminate].
    apply index_ge in E.
    destruct (extractJsonFrom text p) as [obj |].
    + destruct (truthy obj && truthy (field obj "meterValue")).
      * destruct (onMeterValues dataset obj p c) as [c1 | e |] eqn:Eh; simpl;
          [apply IH; lia | discriminate | exfalso; exact (onMeterValues_no_fuel _ _ _ _ Eh)].
      * simpl. apply IH. lia.
    + simpl. apply IH. lia.
Qed.

Lemma onStatusNotification_no_fuel (obj : jsval) (pos : nat) (c : Ctx) :
  onStatusNotification obj pos c <> Fuel.
Proof.
  unfold onStatusNotification. destruct (orNone _ _) as [ts |]; [| discriminate].
  destruct (outOfWindow ts); [| discriminate].
  unfold Date_toISOString. destruct (Qle_bool _ _); simpl; discriminate.
Qed.

Lemma onStartTransaction_no_fuel (obj : jsval) (pos : nat) (c : Ctx) :
  onStartTransaction obj pos c <> Fuel.
Proof.
  unfold onStartTransaction. destruct (readAnyTimestamp obj); [| discriminate].
  destruct (negb _); discriminate.
Qed.

Lemma onStopTransaction_no_fuel (obj : jsval) (pos : nat) (c : Ctx) :
  onStopTransaction obj pos c <> Fuel.
Proof.
  unfold onStopTransaction. destruct (readAnyTimestamp obj); [| discriminate].
  destruct (negb _); discriminate.
Qed.

Lemma sortEntries_no_fuel {A : Type} (key : A -> Q) (o : jsobj (list A)) :
  sortEntries key o <> Fuel.
Proof.
  unfold sortEntries. apply forEachM_no_fuel. intros acc k.
  destruct (objGet acc _); discriminate.
Qed.

Lemma scan_no_fuel (text marker : string)
  (handler : jsval -> nat -> Ctx -> exc Ctx) (c : Ctx) :
  marker <> "" -> (forall obj p c0, handler obj p c0 <> Fuel) ->
  scan text marker handler c <> Fuel.
Proof.
  intros Nm Hh. unfold scan. apply scanFrom_no_fuel; [assumption | assumption | lia].
Qed.

Lemma bind_no_fuel {A B : Type} (c : exc A) (k : A -> exc B) :
  c <> Fuel -> (forall a, k a <> Fuel) -> bind c k <> Fuel.
Proof.
  intros Hc Hk. destruct c as [a | e |]; cbn [bind];
    [apply Hk | discriminate | exfalso; apply Hc; reflexivity].
Qed.

Create HintDb nofuel discriminated.

#[local] Hint Resolve scan_no_fuel meterLoop_no_fuel sortEntries_no_fuel
  onStatusNotification_no_fuel onStartTransaction_no_fuel
  onStopTransaction_no_fuel : nofuel.
#[local] Hint Extern 1 (_ <> _ :> string) => discriminate : nofuel.
#[local] Hint Extern 1 (_ < _) => lia : nofuel.

(** The iteration budget of the model is never exhausted: a parse either
    returns a [FileData] or throws. *)
Lemma parseLogFile_no_fuel (name text : string) (vmin vmax : Q) :
  parseLogFile name text vmin vmax <> Fuel.
Proof.
  unfold parseLogFile, finishParse.
  repeat (apply bind_no_fuel; [auto with nofuel | intros ?]).
  discriminate.
Qed.

End FuelFacts.

(** ** Lexical structure and the extractor *)

Section LexingFacts.
Context {H : Host}.

Lemma render_app (ps1 ps2 : list piece) :
  render (ps1 ++ ps2) = render ps1 +++ render ps2.
Proof.
  induction ps1 as [| p ps1 IH]; simpl; [reflexivity |].
  now rewrite IH, append_assoc.
Qed.

Lemma index_prefix (m s : string) (n p : nat) :
  index n m s = Some p -> prefix m (dropStr p s) = true.
Proof.
  revert n p. induction s as [| c s IH]; intros n p; cbn [index].
  - destruct n; [| discriminate]. destruct m; [| discriminate].
    intros E. now injection E as <-.
  - destruct n as [| n].
    + destruct (prefix m (String c s)) eqn:P.
      * intros E. injection E as <-. exact P.
      * destruct (index 0 m s) as [q |] eqn:E; [| discriminate].
        intros X. injection X as <-. cbn [dropStr]. now apply (IH 0).
    + destruct (index n m s) as [q |] eqn:E; [| discriminate].
      intros X. injection X as <-. cbn [dropStr]. now apply (IH n).
Qed.

Lemma prefix_head (a c : ascii) (rest : string) :
  prefix (String a EmptyString) (String c rest) = true -> a = c.
Proof.
  cbn [prefix]. destruct (ascii_dec a c); [auto | discriminate].
Qed.

(** Every text can be read as pieces, possibly ending inside a literal;
    the three statements are the three states of the reader: outside a
    literal, inside one, and just after a backslash. *)
Lemma lexing_exists (s : string) :
  (exists ps e, forallb wfPiece ps = true /\ wfEnd e = true /\
                s = render ps +++ renderEnd e) /\
  (exists b, forallb wfChar b = true /\
     ((exists ps e, forallb wfPiece ps = true /\ wfEnd e = true /\
                    s = renderBody b +++ dq +++ render ps +++ renderEnd e) \/
      (exists dangling : bool,
         s = renderBody b +++ (if dangling then String "\" EmptyString else EmptyString)))) /\
  (exists b, forallb wfChar b = true /\
     ((exists ps e, forallb wfPiece ps = true /\ wfEnd e = true /\
                    String "\" s = renderBody b +++ dq +++ render ps +++ renderEnd e) \/
      (exists dangling : bool,
         String "\" s =
         renderBody b +++ (if dangling then String "\" EmptyString else EmptyString)))).
Proof.
  induction s as [| c s [IHo [IHi IHe]]].
  - split; [| split].
    + exists [], Closed. auto.
    + exists []. split; [reflexivity |]. right. now exists false.
    + exists []. split; [reflexivity |]. right. now exists true.
  - split; [| split].
    + destruct (Ascii.eqb_spec c dquote) as [-> | N].
      * destruct IHi as [b [Wb [[ps [e [Wp [We E]]]] | [d E]]]].
        -- exists (Lit b :: ps), e. repeat split; [simpl; now rewrite Wb | assumption |].
           rewrite E. simpl. now rewrite !append_assoc.
        -- exists [], (OpenLit b d). repeat split; [assumption |].
           now rewrite E.
      * destruct IHo as [ps [e [Wp [We E]]]].
        exists (Raw c :: ps), e. repeat split; [| assumption | now rewrite E].
        simpl. rewrite Wp.
        destruct (Ascii.eqb_spec c "034"); [contradiction | reflexivity].
    + destruct (Ascii.eqb_spec c dquote) as [-> | Nq].
      * destruct IHo as [ps [e [Wp [We E]]]].
        exists []. split; [reflexivity |]. left. exists ps, e.
        repeat split; [assumption | assumption | now rewrite E].
      * destruct (Ascii.eqb_spec c "\") as [-> | Nb].
        -- exact IHe.
        -- destruct IHi as [b [Wb X]].
           exists (Plain c :: b). split.
           { simpl. rewrite Wb.
             destruct (Ascii.eqb_spec c "034"); [contradiction |].
             destruct (Ascii.eqb_spec c "\"); [contradiction | reflexivity]. }
           destruct X as [[ps [e [Wp [We E]]]] | [d E]].
           ++ left. exists ps, e. repeat split; [assumption | assumption |].
              now rewrite E.
           ++ right. exists d. now rewrite E.
    + destruct IHi as [b [Wb X]].
      exists (Escaped c :: b). split; [exact Wb |].
      destruct X as [[ps [e [Wp [We E]]]] | [d E]].
      * left. exists ps, e. repeat split; [assumption | assumption |].
        now rewrite E.
      * right. exists d. now rewrite E.
Qed.

Lemma depthDelta_ge (p : piece) : (-1 <= depthDelta p)%Z.
Proof.
  destruct p as [c | b]; simpl; [| lia].
  destruct (Ascii.eqb c "{"); [lia |]. destruct (Ascii.eqb c "}"); lia.
Qed.

(** From a positive depth, the pieces either keep the object open or
    start with a balanced span. *)
Lemma open_or_balanced (ps : list piece) (d : Z) :
  (0 < d)%Z ->
  staysOpen d ps = true \/
  exists ps1 ps2, ps = ps1 ++ ps2 /\ balancedFrom d ps1 = true.
Proof.
  revert d. induction ps as [| p ps IH]; intros d Pd.
  - now left.
  - pose proof (depthDelta_ge p) as G.
    destruct (Z.eq_dec (d + depthDelta p) 0) as [Z0 | NZ].
    + right. exists [p], ps. split; [reflexivity |]. simpl.
      apply andb_true_intro. split; apply Z.eqb_eq; lia.
    + assert (Pd' : (0 < d + depthDelta p)%Z) by lia.
      destruct (IH _ Pd') as [S | [ps1 [ps2 [E B]]]].
      * left. simpl. rewrite S. now apply Z.ltb_lt in Pd'; rewrite Pd'.
      * right. exists (p :: ps1), ps2. split; [now rewrite E |].
        destruct ps1 as [| p1 ps1]; [discriminate |].
        change (balancedFrom d (p :: p1 :: ps1))
          with ((0 <? d + depthDelta p)%Z && balancedFrom (d + depthDelta p)%Z (p1 :: ps1)).
        rewrite B. now apply Z.ltb_lt in Pd'; rewrite Pd'.
Qed.

(** What follows the first opening brace is a balanced span followed by
    anything, or pieces that never close it. *)
Lemma span_cases (text : string) (start i : nat) :
  index start "{" text = Some i ->
  exists ps, forallb wfPiece ps = true /\
    ((exists rest, dropStr i text = render ps +++ rest /\ balancedFrom 0 ps = true) \/
     (exists e, wfEnd e = true /\ dropStr i text = render ps +++ renderEnd e /\
                staysOpen 0 ps = true)).
Proof.
  intros Ei. apply index_prefix in Ei.
  destruct (lexing_exists (dropStr i text)) as [[ps [e [Wp [We E]]]] _].
  rewrite E in Ei.
  destruct ps as [| p ps].
  { destruct e as [| b d]; [discriminate |].
    apply prefix_head in Ei. discriminate. }
  assert (Ep : p = Raw "{").
  { destruct p as [c | b]; apply prefix_head in Ei; [now subst c | discriminate]. }
  subst p. simpl in Wp.
  destruct (open_or_balanced ps 1 ltac:(lia)) as [S | [ps1 [ps2 [E2 B]]]].
  - exists (Raw "{" :: ps). split; [exact Wp |]. right. exists e.
    repeat split; assumption.
  - subst ps. rewrite forallb_app in Wp. apply andb_prop in Wp.
    destruct Wp as [W1 W2].
    exists (Raw "{" :: ps1). split; [exact W1 |]. left.
    exists (render ps2 +++ renderEnd e). split.
    + rewrite E. simpl. now rewrite render_app, append_assoc.
    + destruct ps1 as [| p1 ps1]; [discriminate | exact B].
Qed.

(** Claim C9.  [extractJsonFrom] is total (it never throws) and, reading
    the text from the first opening brace at or after the offset as
    pieces in which a string literal is one piece: it returns
    [null] when there is no such brace; when the pieces begin with a
    balanced span (depth positive until a final closing brace outside
    any literal) it returns [JSON.parse] of exactly that span, hence
    [null] when the span does not parse; when the pieces never close the
    object, or the text ends inside a literal, it returns [null].
    Braces inside a literal never count: an object whose value is any
    literal at all is returned whole.  One of the two cases always
    applies. *)
Theorem extractJsonFrom_balanced_span (text : string) (start : nat) :
  (index start "{" text = None -> extractJsonFrom text start = None) /\
  (forall i ps rest,
     index start "{" text = Some i ->
     dropStr i text = render ps +++ rest ->
     forallb wfPiece ps = true -> balancedFrom 0 ps = true ->
     extractJsonFrom text start = JSON_parse (render ps)) /\
  (forall i ps e,
     index start "{" text = Some i ->
     dropStr i text = render ps +++ renderEnd e ->
     forallb wfPiece ps = true -> wfEnd e = true -> staysOpen 0 ps = true ->
     extractJsonFrom text start = None) /\
  (forall value : list strChar,
     forallb wfChar value = true ->
     let span := render [Raw "{"; Lit [Plain "m"]; Raw ":"; Lit value; Raw "}"] in
     extractJsonFrom span 0 = JSON_parse span) /\
  (forall i,
     index start "{" text = Some i ->
     exists ps, forallb wfPiece ps = true /\
       ((exists rest, dropStr i text = render ps +++ rest /\
                      balancedFrom 0 ps = true) \/
        (exists e, wfEnd e = true /\ dropStr i text = render ps +++ renderEnd e /\
                   staysOpen 0 ps = true))).
Proof.
  split; [| split; [| split; [| split; [| apply span_cases]]]].
  - intros E. unfold extractJsonFrom. now rewrite E.
  - intros i ps rest Ei Ed W B. unfold extractJsonFrom. rewrite Ei, Ed.
    rewrite (scan_balanced ps rest i 0 W B).
    pose proof (balancedFrom_length _ _ B) as L.
    unfold slice.
    replace (i + String.length (render ps) - 1 + 1 - i)
      with (String.length (render ps)) by lia.
    now rewrite (substring_dropStr i text (render ps) rest Ed).
  - intros i ps e Ei Ed W We S. unfold extractJsonFrom. rewrite Ei, Ed.
    destruct (scan_staysOpen ps (renderEnd e) i 0 W S) as [d' E].
    rewrite E. now rewrite scan_openEnd.
  - intros value W span. unfold extractJsonFrom.
    change (index 0 "{" span) with (Some 0). cbv iota beta.
    change (dropStr 0 span) with span.
    assert (E : span = span +++ "").
    { clear. induction span; simpl; [reflexivity | now f_equal]. }
    rewrite E at 1.
    assert (Wp : forallb wfPiece [Raw "{"; Lit [Plain "m"]; Raw ":"; Lit value; Raw "}"] = true).
    { simpl. rewrite W. reflexivity. }
    unfold span at 1.
    rewrite (scan_balanced _ "" 0 0 Wp eq_refl).
    unfold slice. fold span.
    assert (L : 0 < String.length span).
    { unfold span. simpl. lia. }
    replace (0 + String.length span - 1 + 1 - 0) with (String.length span) by lia.
    rewrite E at 2. now rewrite substring_prefix.
Qed.

End LexingFacts.

(** ** Status timeline search *)

Section TimelineFacts.

Local Abbreviation byTime := (fun a b : StatusEvent => (ev_ts a <= ev_ts b)%Q).

Lemma sorted_nth (arr : list StatusEvent) (i j : nat) (a b : StatusEvent) :
  StronglySorted byTime arr -> i <= j ->
  nth_error arr i = Some a -> nth_error arr j = Some b ->
  (ev_ts a <= ev_ts b)%Q.
Proof.
  intros Srt. revert i j. induction Srt as [| x arr Srt IH F]; intros i j L Hi Hj.
  - destruct i; discriminate.
  - destruct i as [| i], j as [| j]; simpl in *.
    + injection Hi as <-. injection Hj as <-. apply Qle_refl.
    + injection Hi as <-. rewrite Forall_forall in F. apply F.
      eapply nth_error_In. exact Hj.
    + lia.
    + apply (IH i j); [lia | assumption | assumption].
Qed.

Lemma bsearch_spec (arr : list StatusEvent) (ts : Q) (fuel : nat)
  (lo hi best : Z) :
  StronglySorted byTime arr ->
  (0 <= lo)%Z -> (hi < Z.of_nat (List.length arr))%Z -> (lo <= hi + 1)%Z ->
  (hi - lo + 1 < Z.of_nat fuel)%Z -> best = (lo - 1)%Z ->
  (forall i e, (0 <= i < lo)%Z -> nth_error arr (Z.to_nat i) = Some e ->
               (ev_ts e <= ts)%Q) ->
  (forall i e, (hi < i)%Z -> nth_error arr (Z.to_nat i) = Some e ->
               (ts < ev_ts e)%Q) ->
  let b := bsearch fuel arr ts lo hi best in
  (-1 <= b < Z.of_nat (List.length arr))%Z /\
  (forall i e, (0 <= i <= b)%Z -> nth_error arr (Z.to_nat i) = Some e ->
               (ev_ts e <= ts)%Q) /\
  (forall i e, (b < i)%Z -> nth_error arr (Z.to_nat i) = Some e ->
               (ts < ev_ts e)%Q).
Proof.
  intros Srt. revert lo hi best.
  induction fuel as [| fuel IH]; intros lo hi best L0 Hn Lh Hf Eb Below Above;
    cbv zeta; [lia |].
  cbn [bsearch]. destruct (lo <=? hi)%Z eqn:C.
  - apply Z.leb_le in C.
    assert (Em : Z.shiftr (lo + hi) 1 = ((lo + hi) / 2)%Z).
    { rewrite Z.shiftr_div_pow2 by lia. reflexivity. }
    rewrite Em. set (mid := ((lo + hi) / 2)%Z).
    assert (Hm : (lo <= mid <= hi)%Z).
    { unfold mid. split.
      - apply Z.div_le_lower_bound; lia.
      - apply Z.div_le_upper_bound; lia. }
    destruct (nth_error arr (Z.to_nat mid)) as [e |] eqn:Ee.
    2:{ apply nth_error_None in Ee. lia. }
    destruct (Qle_bool (ev_ts e) ts) eqn:Cmp.
    + apply Qle_bool_iff in Cmp.
      apply IH; try lia.
      * intros i e' Hi Ei.
        assert (X : (ev_ts e' <= ev_ts e)%Q).
        { apply (sorted_nth arr (Z.to_nat i) (Z.to_nat mid)); auto. lia. }
        lra.
      * exact Above.
    + assert (Gt : (ts < ev_ts e)%Q).
      { apply Qnot_le_lt. intros X. apply Qle_bool_iff in X. congruence. }
      apply IH; try lia.
      * exact Below.
      * intros i e' Hi Ei.
        assert (X : (ev_ts e <= ev_ts e')%Q).
        { apply (sorted_nth arr (Z.to_nat mid) (Z.to_nat i)); auto. lia. }
        lra.
  - apply Z.leb_gt in C. subst best.
    repeat split; try lia.
    + intros i e Hi Ei. apply (Below i e); [lia | exact Ei].
    + intros i e Hi Ei. apply (Above i e); [lia | exact Ei].
Qed.

(** X5.  Status association.  On a timeline sorted by time, the search returns
    the latest event at or before [ts]: every later entry of the timeline
    is after [ts]; it returns nothing exactly when every event is after
    [ts]. *)
Lemma lastStatusAtOrBefore_spec (arr : list StatusEvent) (ts : Q) :
  StronglySorted byTime arr ->
  match lastStatusAtOrBefore arr ts with
  | Some e =>
      exists i, nth_error arr i = Some e /\ (ev_ts e <= ts)%Q /\
                forall j e', i < j -> nth_error arr j = Some e' ->
                             (ts < ev_ts e')%Q
  | None => forall e', In e' arr -> (ts < ev_ts e')%Q
  end.
Proof.
  intros Srt. unfold lastStatusAtOrBefore.
  destruct (bsearch_spec arr ts (S (List.length arr)) 0
              (Z.of_nat (List.length arr) - 1) (-1) Srt) as [Rb [Below Above]];
    try lia.
  { intros i e Hi Ei.
    assert (X : nth_error arr (Z.to_nat i) <> None) by congruence.
    apply nth_error_Some in X. lia. }
  cbv zeta in Rb, Below, Above.
  set (b := bsearch (S (List.length arr)) arr ts 0
              (Z.of_nat (List.length arr) - 1) (-1)) in *.
  destruct (0 <=? b)%Z eqn:C.
  - apply Z.leb_le in C.
    destruct (nth_error arr (Z.to_nat b)) as [e |] eqn:Ee.
    + exists (Z.to_nat b). split; [exact Ee | split].
      * apply (Below b e); [lia | exact Ee].
      * intros j e' Hj Ej. apply (Above (Z.of_nat j) e'); [lia |].
        now rewrite Nat2Z.id.
    + intros e' Hin. apply nth_error_None in Ee. lia.
  - apply Z.leb_gt in C. intros e' Hin.
    apply In_nth_error in Hin. destruct Hin as [j Ej].
    apply (Above (Z.of_nat j) e'); [lia |]. now rewrite Nat2Z.id.
Qed.

End TimelineFacts.

Section TimelineWitness.
Import Examples.

Lemma lastStatusAtOrBefore_spec_witness :
  match lastStatusAtOrBefore timelineExample 150 with
  | Some e =>
      exists i, nth_error timelineExample i = Some e /\ (ev_ts e <= 150)%Q /\
                forall j e', i < j -> nth_error timelineExample j = Some e' ->
                             (150 < ev_ts e')%Q
  | None => forall e', In e' timelineExample -> (150 < ev_ts e')%Q
  end.
Proof.
  apply lastStatusAtOrBefore_spec.
  unfold timelineExample. repeat constructor; discriminate.
Defined.

End TimelineWitness.

(** ** Evaluations on concrete logs *)

Section Evaluations.
Import Examples.

(** Claim C4, evaluated.  A numeric timestamp beyond the range of
    [Date] parses and lies outside the plausibility window, yet it is not
    logged and skipped: building the incident text throws, and the parse
    with it.  A timestamp in 1999 is logged once, under the
    [Suspicious timestamp] prefix, and yields no triplet. *)
Theorem suspicious_timestamp_out_of_date_range :
  @parseLogFile host "a.log" logHugeTimestamp 207 253 = Throw RangeError /\
  exists msg,
    @parseLogFile host "a.log" logYear1999 207 253 =
      Ret {| f_name := "a.log"; f_enabled := true; f_triplets := [];
             f_parsingErrors := ["Suspicious timestamp: " +++ msg] |}.
Proof.
  split; [vm_compute; reflexivity |].
  eexists. vm_compute. reflexivity.
Qed.

(** Claim C5, evaluated.  A [meterValue] or a [sampledValue] that is
    present but not an array makes the whole parse throw. *)
Theorem parse_throws_on_non_array :
  @parseLogFile host "a.log" logNotArray 207 253 = Throw TypeError /\
  @parseLogFile host "a.log" logSamplesNotArray 207 253 = Throw TypeError.
Proof. split; vm_compute; reflexivity. Qed.

(** Claim C7, evaluated.  A log of 150 meter entries with unreadable
    timestamps parses to a file with no triplet and 150 incidents, for
    which the risk stays [low]. *)
Theorem risk_low_without_triplets :
  exists fd,
    @parseLogFile host "bad.log" corruptLog 207 253 = Ret fd /\
    f_triplets fd = [] /\
    cntInvalidDates (@analysisStats host [fd] 207 253) = 150 /\
    riskLevel (@analysisStats host [fd] 207 253) = low.
Proof.
  destruct (@parseLogFile host "bad.log" corruptLog 207 253) as [fd | e |] eqn:E;
    [| vm_compute in E; discriminate E | vm_compute in E; discriminate E].
  exists fd. split; [reflexivity |].
  assert (T : f_triplets fd = []).
  { apply (f_equal (fun r => match r with Ret x => f_triplets x | _ => [] end)) in E.
    rewrite <- E. vm_compute. reflexivity. }
  assert (N : List.length (f_parsingErrors fd) = 150).
  { apply (f_equal (fun r => match r with
                             | Ret x => List.length (f_parsingErrors x)
                             | _ => 0
                             end)) in E.
    rewrite <- E. vm_compute. reflexivity. }
  assert (En : f_enabled fd = true).
  { apply (f_equal (fun r => match r with Ret x => f_enabled x | _ => true end)) in E.
    rewrite <- E. vm_compute. reflexivity. }
  split; [exact T |].
  unfold analysisStats, allData. simpl filter. rewrite En. simpl flat_map.
  rewrite T. simpl. rewrite N. split; reflexivity.
Qed.

End Evaluations.

(** ** Concrete instances *)

Section Witnesses.
Import Examples.

(** The reference host prints a whole number in decimal. *)
Lemma refhost_whole_number (z : Z) :
  @NumberToString host (inject_Z z) = RefHost.showZ z.
Proof.
  change (@NumberToString host) with RefHost.showQ. unfold RefHost.showQ.
  assert (R : Qred (inject_Z z) = inject_Z z).
  { unfold Qred, inject_Z.
    pose proof (Z.ggcd_gcd z 1) as G.
    pose proof (Z.ggcd_correct_divisors z 1) as D.
    destruct (Z.ggcd z 1) as [g [n d]]. cbn [fst snd] in *.
    rewrite Z.gcd_1_r in G. subst g. destruct D as [D1 D2].
    assert (En : n = z) by lia. assert (Ed : d = 1%Z) by lia.
    rewrite En, Ed. reflexivity. }
  rewrite R. reflexivity.
Qed.

Lemma showZ_no_bar (z : Z) : someChar (Ascii.eqb "|") (RefHost.showZ z) = false.
Proof.
  assert (U : forall d, someChar (Ascii.eqb "|")
                          (DecimalString.NilEmpty.string_of_uint d) = false).
  { induction d; simpl; auto. }
  assert (V : forall d, someChar (Ascii.eqb "|")
                          (DecimalString.NilZero.string_of_uint d) = false).
  { intros d. destruct d; try apply U. reflexivity. }
  unfold RefHost.showZ. destruct (Z.to_int z) as [d | d]; simpl; apply V.
Qed.

Lemma showZ_inj (z z' : Z) : RefHost.showZ z = RefHost.showZ z' -> z = z'.
Proof.
  assert (P : forall x, DecimalString.NilZero.int_of_string (RefHost.showZ x) =
                        Some (Z.to_int x)).
  { intros x. unfold RefHost.showZ. apply DecimalString.NilZero.isi.
    - destruct x; simpl; try discriminate.
      intros E. injection E as E. exact (DecimalPos.Unsigned.to_uint_nonnil _ E).
    - destruct x; simpl; try discriminate.
      intros E. injection E as E. exact (DecimalPos.Unsigned.to_uint_nonnil _ E). }
  intros E. pose proof (P z) as Pz. rewrite E, P in Pz.
  injection Pz as Pz. symmetry. now apply DecimalZ.to_int_inj.
Qed.


(** Claim C2 on [L1 = 260], [L2 = 200]. *)
Lemma evaluateStatus_precedence_witness :
  fst (@evaluateStatus host overAndUnder 207 253) = over.
Proof.
  apply (proj2 (proj2 (proj2 (proj2
           (@evaluateStatus_precedence host overAndUnder 207 253)))));
    reflexivity.
Defined.

(** Session matching on the span [t0, t0 + 600000]. *)
Lemma session_matching_tolerance_witness :
  (exists s, matchSession (sortBy startTs [sessionSpan]) (t0 - 59000) = Some s) /\
  matchSession [sessionSpan] (t0 - 61000) = None.
Proof.
  pose proof (@session_matching_tolerance host [] [] 207 253 overAndUnder overAndUnder)
    as [_ [_ [_ [_ [_ [_ [A B]]]]]]].
  split.
  - apply (A [sessionSpan] sessionSpan t0 (t0 - 59000)%Q);
      [now left | reflexivity | reflexivity | reflexivity].
  - apply (B sessionSpan t0 (t0 - 61000)%Q); reflexivity.
Defined.

(** Claim C6, amended, on a triplet with two phases below 190. *)
Lemma cntDeepDip_counts_readings_witness :
  cntDeepDip (@analysisStats host [dipFile] 207 253) = 2.
Proof.
  rewrite (proj1 (proj2 (@cntDeepDip_counts_readings host [dipFile] 207 253))).
  reflexivity.
Defined.

(** Claim C6 as stated fails: one triplet with two phases below 190
    gives a count of 2. *)
Lemma cntDeepDip_counts_a_triplet_twice :
  cntDeepDip (@analysisStats host [dipFile] 207 253) = 2 /\
  deepDipTriplets (@allData host [dipFile] 207 253) = 1.
Proof. split; vm_compute; reflexivity. Qed.

(** Claim C8, amended, on a timestamp of 2024. *)
Lemma parseISO_nonzero_number_or_date_witness :
  @parseISO host (JNum 1704067200000) = Some 1704067200000%Q.
Proof.
  apply (proj1 (@parseISO_nonzero_number_or_date host)).
  intros E. discriminate E.
Defined.

(** Claim C8 as stated fails: the number 0 is rejected. *)
Lemma parseISO_rejects_zero :
  @parseISO host (JNum 0) = None /\ @parseISO host (JNum 0) <> Some 0%Q.
Proof. split; [reflexivity | discriminate]. Qed.

(** Claim C9 on a text whose object holds braces inside a literal. *)
Lemma extractJsonFrom_balanced_span_witness :
  @extractJsonFrom host textWithBraces 0 = Some (JObj [("msg", JStr "a{b}c")]).
Proof.
  rewrite (proj1 (proj2 (@extractJsonFrom_balanced_span host textWithBraces 0))
             3 piecesWithBraces " tail" eq_refl eq_refl eq_refl eq_refl).
  reflexivity.
Defined.

(** Connector attribution on a MeterValues message of connector 0 and
    on a StatusNotification of connector 0. *)
Lemma connector_zero_attribution_witness :
  (exists c',
     @onMeterValues host "a.log" meterZero 0 emptyCtx = Ret c' /\
     points c' <> [] /\
     forall p, In p (points c') -> p_connectorId p = JNum 1) /\
  exists c',
    @onStatusNotification host statusZero 0 emptyCtx = Ret c' /\
    objGet (statusTimeline c') "0" =
      Some [{| ev_ts := 1704067200000; ev_status := Some "Available";
               ev_errorCode := Some "NoError" |}].
Proof.
  split.
  - destruct (@onMeterValues host "a.log" meterZero 0 emptyCtx) as [c' | e |] eqn:E;
      [| vm_compute in E; discriminate E | vm_compute in E; discriminate E].
    exists c'. split; [reflexivity |]. split.
    + vm_compute in E. injection E as <-. discriminate.
    + intros p Ip.
      destruct (proj1 (@connector_zero_attribution host "a.log" meterZero 0 emptyCtx)
                  eq_refl c' E p Ip) as [[] | X].
      exact X.
  - destruct (proj1 (proj2 (proj2 (proj2
                (@connector_zero_attribution host "a.log" statusZero 0 emptyCtx))))
                (or_introl eq_refl) 1704067200000%Q eq_refl eq_refl)
      as [c' [E [G _]]].
    exists c'. split; [exact E | exact G].
Defined.

End Witnesses.

(** ** Further properties of the meter loop *)

Section MeterFacts.
Context {H : Host}.

(** X1.  A meter entry whose timestamp parses to a time value that a [Date]
    can hold, outside the plausibility window, is skipped and logged
    once under the [Suspicious timestamp] prefix. *)
Lemma suspicious_entry_logged_once (dataset : string) (conn tx : jsval)
  (pos : nat) (c : Ctx) (mv : jsval) (dt : Q) :
  nullish mv = false ->
  parseISO (field mv "timestamp") = Some dt ->
  outOfWindow dt = true ->
  (Qabs dt <= MAX_TIME_VALUE)%Q ->
  exists c' msg,
    meterEntry dataset conn tx pos c mv = Ret c' /\
    points c' = points c /\ txSpansByTx c' = txSpansByTx c /\
    parsingErrors c' = parsingErrors c ++ ["Suspicious timestamp: " +++ msg].
Proof.
  intros N P W R. unfold meterEntry, getProp. rewrite N. cbn [bind].
  rewrite P, W. unfold Date_toISOString.
  apply Qle_bool_iff in R. rewrite R. cbn [bind].
  eexists. eexists. split; [reflexivity |]. repeat split.
Qed.

(** A meter entry whose timestamp does not parse is skipped and logged
    once under the [Invalid timestamp] prefix. *)
Lemma invalid_entry_logged_once (dataset : string) (conn tx : jsval)
  (pos : nat) (c : Ctx) (mv : jsval) :
  nullish mv = false ->
  parseISO (field mv "timestamp") = None ->
  exists c' msg,
    meterEntry dataset conn tx pos c mv = Ret c' /\
    points c' = points c /\ txSpansByTx c' = txSpansByTx c /\
    parsingErrors c' = parsingErrors c ++ ["Invalid timestamp: " +++ msg].
Proof.
  intros N P. unfold meterEntry, getProp. rewrite N. cbn [bind]. rewrite P.
  eexists. eexists. split; [reflexivity |]. repeat split.
Qed.


Lemma sampleStep_bounds (dataset : string) (conn : jsval) (dt : Q)
  (pts pts' : list VoltagePoint) (sv : jsval) :
  sampleStep dataset conn dt pts sv = Ret pts' ->
  forall p, In p pts' -> In p pts \/ ((p_voltage p < 600)%Q /\ p_ts p = dt).
Proof.
  unfold sampleStep, getProp.
  destruct (nullish sv); cbn [bind]; [discriminate |].
  destruct (negb (isVolts _)).
  { intros E. injection E as <-. auto. }
  destruct (normPhase _) as [ph |]; [| intros E; injection E as <-; auto].
  destruct (parseFloat _) as [v |]; [| intros E; injection E as <-; auto].
  destruct (Qltb v 600) eqn:L; intros E; injection E as <-; auto.
  intros p Hp. apply in_app_or in Hp. destruct Hp as [Hp | [<- | []]]; auto.
  right. simpl. split; [now apply Qltb_lt | reflexivity].
Qed.

Lemma meterEntry_bounds (dataset : string) (conn tx : jsval) (pos : nat)
  (c c' : Ctx) (mv : jsval) :
  meterEntry dataset conn tx pos c mv = Ret c' ->
  forall p, In p (points c') ->
    In p (points c) \/ ((p_voltage p < 600)%Q /\ outOfWindow (p_ts p) = false).
Proof.
  unfold meterEntry, getProp.
  destruct (nullish mv); cbn [bind]; [discriminate |].
  destruct (parseISO _) as [dt |].
  2:{ intros E. injection E as <-. simpl. auto. }
  destruct (outOfWindow dt) eqn:W.
  { destruct (Date_toISOString dt); cbn [bind]; try discriminate.
    intros E. injection E as <-. simpl. auto. }
  destruct (iterate _) as [samples | e |]; cbn [bind]; try discriminate.
  set (c1 := if truthy tx then _ else c).
  assert (E1 : points c1 = points c) by (unfold c1; now destruct (truthy tx)).
  destruct (forEachM _ samples (points c1)) as [pts | e |] eqn:F; cbn [bind];
    try discriminate.
  intros E. injection E as <-. simpl. rewrite <- E1.
  revert F.
  apply (forEachM_inv
           (fun l => forall p, In p l ->
              In p (points c1) \/
              ((p_voltage p < 600)%Q /\ outOfWindow (p_ts p) = false))).
  - intros l0 sv l1 P0 S p Hp.
    destruct (sampleStep_bounds _ _ _ _ _ _ S p Hp) as [X | [X Y]]; auto.
    right. split; [exact X | now rewrite Y].
  - auto.
Qed.

(** X4.  Data-model invariant: every point added by a MeterValues message has
    a voltage below 600 and a timestamp inside the plausibility window. *)
Lemma points_within_bounds (dataset : string) (obj : jsval) (pos : nat)
  (c c' : Ctx) :
  onMeterValues dataset obj pos c = Ret c' ->
  forall p, In p (points c') ->
    In p (points c) \/
    ((p_voltage p < 600)%Q /\
     (MIN_REASONABLE_TS <= p_ts p)%Q /\ (p_ts p <= MAX_REASONABLE_TS)%Q).
Proof.
  unfold onMeterValues.
  destruct (iterate _) as [entries | e |]; cbn [bind]; try discriminate.
  intros F p Hp.
  assert (X : In p (points c) \/
              ((p_voltage p < 600)%Q /\ outOfWindow (p_ts p) = false)).
  { revert F p Hp.
    apply (forEachM_inv
             (fun c0 => forall p, In p (points c0) ->
                In p (points c) \/
                ((p_voltage p < 600)%Q /\ outOfWindow (p_ts p) = false))).
    - intros c0 mv c1 P0 S p Hp.
      destruct (meterEntry_bounds _ _ _ _ _ _ _ S p Hp) as [Y | Y]; auto.
    - auto. }
  destruct X as [X | [V W]]; [now left | right].
  unfold outOfWindow in W. apply orb_false_iff in W. destruct W as [W1 W2].
  apply Qltb_ge in W1. apply Qltb_ge in W2. auto.
Qed.

(** The rest of the parse completes when every connector key of a span
    survives the round trip through [Number]. *)
Lemma finishParse_total (name : string) (c : Ctx) (vmin vmax : Q) :
  (forall k,
     In k (map fst (groupByConnector (objectValues (txSpansByTx c)))) ->
     ToString (ToNumber (JStr k)) = k) ->
  exists fd, finishParse name c vmin vmax = Ret fd.
Proof.
  intros C. unfold finishParse.
  destruct (sortEntries_total startTs _ C) as [o' E]. rewrite E. cbn [bind].
  eauto.
Qed.

End MeterFacts.

Section MeterWitnesses.
Import Examples.

Lemma suspicious_entry_logged_once_witness :
  exists c' msg,
    @meterEntry host "a.log" (JNum 1) JNull 0 emptyCtx
      (JObj [("timestamp", JStr "1999-01-01")]) = Ret c' /\
    points c' = [] /\ parsingErrors c' = ["Suspicious timestamp: " +++ msg].
Proof.
  destruct (@suspicious_entry_logged_once host "a.log" (JNum 1) JNull 0 emptyCtx
              (JObj [("timestamp", JStr "1999-01-01")]) 915148800000
              eq_refl eq_refl eq_refl)
    as [c' [msg [E [P [_ M]]]]].
  { apply Qle_bool_iff. reflexivity. }
  exists c', msg. split; [exact E | split; [exact P | exact M]].
Defined.


Lemma points_within_bounds_witness :
  exists c',
    @onMeterValues host "a.log" meterObject 0 emptyCtx = Ret c' /\
    Forall (fun p => (p_voltage p < 600)%Q /\
                     (@MIN_REASONABLE_TS <= p_ts p)%Q /\
                     (p_ts p <= @MAX_REASONABLE_TS host)%Q) (points c').
Proof.
  destruct (@onMeterValues host "a.log" meterObject 0 emptyCtx) as [c' | e |] eqn:E;
    [| vm_compute in E; discriminate E | vm_compute in E; discriminate E].
  exists c'. split; [reflexivity |].
  apply Forall_forall. intros p Hp.
  destruct (@points_within_bounds host "a.log" meterObject 0 emptyCtx c' E p Hp)
    as [[] | X].
  exact X.
Defined.

End MeterWitnesses.

(** ** Event counters of the dashboard *)

Section CountingFacts.
Context {A : Type}.

Lemma Permutation_filter (f : A -> bool) (l l' : list A) :
  Permutation l l' -> Permutation (filter f l) (filter f l').
Proof.
  induction 1 as [| x l l' P IH | x y l | l l' l'' P1 IH1 P2 IH2]; simpl.
  - constructor.
  - destruct (f x); [constructor |]; exact IH.
  - destruct (f x), (f y); try apply Permutation_refl.
    apply perm_swap.
  - eapply Permutation_trans; eassumption.
Qed.

Lemma filter_length_perm (f : A -> bool) (l l' : list A) :
  Permutation l l' -> List.length (filter f l) = List.length (filter f l').
Proof. intros P. apply Permutation_length, Permutation_filter, P. Qed.

Lemma filter_map_length {B : Type} (f : B -> bool) (g : A -> B) (l : list A) :
  List.length (filter f (map g l)) = List.length (filter (fun x => f (g x)) l).
Proof.
  induction l as [| x l IH]; simpl; [reflexivity |].
  destruct (f (g x)); simpl; rewrite IH; reflexivity.
Qed.

Lemma filter_length_ext (f g : A -> bool) (l : list A) :
  (forall x, In x l -> f x = g x) ->
  List.length (filter f l) = List.length (filter g l).
Proof.
  induction l as [| x l IH]; simpl; intros E; [reflexivity |].
  rewrite (E x (or_introl eq_refl)).
  destruct (g x); simpl; rewrite IH; auto.
Qed.

Lemma exclusive_counts (p q r : A -> bool) (l : list A) :
  (forall x, (p x && q x = false) /\ (p x && r x = false) /\ (q x && r x = false)) ->
  List.length (filter p l) + List.length (filter q l) + List.length (filter r l)
  <= List.length l.
Proof.
  intros X. induction l as [| x l IH]; simpl; [lia |].
  destruct (X x) as [X1 [X2 X3]].
  destruct (p x), (q x), (r x); simpl in *; try discriminate; lia.
Qed.

Lemma nonEmpty_existsb (f : A -> bool) (l : list A) :
  nonEmpty (filter f l) = existsb f l.
Proof.
  induction l as [| x l IH]; simpl; [reflexivity |].
  destruct (f x); simpl; [reflexivity | exact IH].
Qed.

End CountingFacts.

Lemma presentValues_perm (l l' : list (option Q)) :
  Permutation l l' -> Permutation (presentValues l) (presentValues l').
Proof.
  induction 1 as [| x l l' P IH | x y l | l l' l'' P1 IH1 P2 IH2]; simpl.
  - constructor.
  - destruct x; [constructor |]; exact IH.
  - destruct x, y; try apply Permutation_refl. apply perm_swap.
  - eapply Permutation_trans; eassumption.
Qed.

Lemma presentValues_app (l l' : list (option Q)) :
  presentValues (l ++ l') = presentValues l ++ presentValues l'.
Proof.
  induction l as [| [v |] l IH]; simpl; [reflexivity | f_equal; exact IH | exact IH].
Qed.

Section StatsExtent.
Context {H : Host}.

Lemma reEvaluate_fields (vmin vmax : Q) (t : VoltageTriplet) :
  t_ts (reEvaluate vmin vmax t) = t_ts t /\
  t_delta (reEvaluate vmin vmax t) = t_delta t /\
  t_status (reEvaluate vmin vmax t) = fst (evaluateStatus t vmin vmax) /\
  (forall ph, getPhase (reEvaluate vmin vmax t) ph = getPhase t ph) /\
  t_id (reEvaluate vmin vmax t) = t_id t.
Proof.
  unfold reEvaluate. destruct (evaluateStatus t vmin vmax) as [st dev]. simpl.
  repeat split; intros []; reflexivity.
Qed.

Lemma allData_perm (files : list FileData) (vmin vmax : Q) :
  Permutation (map (reEvaluate vmin vmax)
                 (flat_map f_triplets (filter f_enabled files)))
              (allData files vmin vmax).
Proof. unfold allData. apply sortBy_perm. Qed.

Lemma allData_nil (files : list FileData) (vmin vmax : Q) :
  allData files vmin vmax = [] <->
  flat_map f_triplets (filter f_enabled files) = [].
Proof.
  split; intros E.
  - pose proof (Permutation_length (allData_perm files vmin vmax)) as L.
    rewrite E, length_map in L.
    destruct (flat_map f_triplets (filter f_enabled files)); [reflexivity | discriminate].
  - unfold allData. rewrite E. reflexivity.
Qed.

Lemma allData_count (files : list FileData) (vmin vmax : Q)
  (f : VoltageTriplet -> bool) :
  List.length (filter f (allData files vmin vmax)) =
  List.length (filter (fun t => f (reEvaluate vmin vmax t))
                 (flat_map f_triplets (filter f_enabled files))).
Proof.
  rewrite <- (filter_length_perm f _ _ (allData_perm files vmin vmax)).
  apply filter_map_length.
Qed.

Lemma fold_statsStep_counts (vmin vmax : Q) (data : list VoltageTriplet) (a : Acc) :
  let a' := fold_left (statsStep vmin vmax) data a in
  a_cntUnder a' =
    a_cntUnder a + List.length (filter (fun t => isStatus (t_status t) under) data) /\
  a_cntOver a' =
    a_cntOver a + List.length (filter (fun t => isStatus (t_status t) over) data) /\
  a_cntImbalance a' =
    a_cntImbalance a +
    List.length (filter (fun t => isStatus (t_status t) imbalance) data).
Proof.
  revert a. induction data as [| t data IH]; intros a; simpl.
  - repeat split; lia.
  - destruct (IH (statsStep vmin vmax a t)) as [U [O I]].
    cbv zeta in *. rewrite U, O, I. simpl.
    unfold incIf.
    destruct (isStatus (t_status t) under), (isStatus (t_status t) over),
      (isStatus (t_status t) imbalance); simpl; repeat split; lia.
Qed.

Lemma fold_statsStep_maxDelta (vmin vmax : Q) (data : list VoltageTriplet) (a : Acc) :
  let a' := fold_left (statsStep vmin vmax) data a in
  (a_maxDelta a <= a_maxDelta a')%Q /\
  (forall t, In t data -> (t_delta t <= a_maxDelta a')%Q) /\
  (a_maxDelta a' = a_maxDelta a \/ exists t, In t data /\ a_maxDelta a' = t_delta t).
Proof.
  revert a. induction data as [| t data IH]; intros a; simpl.
  - split; [apply Qle_refl |]. split; [intros t [] | left; reflexivity].
  - destruct (IH (statsStep vmin vmax a t)) as [M [B W]]. cbv zeta in *.
    simpl in M, W.
    destruct (Qltb (a_maxDelta a) (t_delta t)) eqn:E.
    + apply Qltb_lt in E. split; [| split].
      * apply Qle_trans with (t_delta t); [apply Qlt_le_weak, E | exact M].
      * intros t' [<- | I]; [exact M | apply B, I].
      * right. destruct W as [W | [t' [I W]]].
        -- exists t. split; [now left | exact W].
        -- exists t'. split; [now right | exact W].
    + apply Qltb_ge in E. split; [| split].
      * exact M.
      * intros t' [<- | I]; [apply Qle_trans with (a_maxDelta a); assumption | apply B, I].
      * destruct W as [W | [t' [I W]]]; [left; exact W |].
        right. exists t'. split; [now right | exact W].
Qed.

Lemma status_by_values (t : VoltageTriplet) (vmin vmax : Q) :
  let anyOver := existsb (fun v => Qltb vmax v) (phaseValues t) in
  let anyUnder := existsb (fun v => Qltb v vmin) (phaseValues t) in
  let unbalanced := nonEmpty (phaseValues t) && Qle_bool 15 (t_delta t) in
  let st := fst (evaluateStatus t vmin vmax) in
  isStatus st over = anyOver /\
  isStatus st under = anyUnder && negb anyOver /\
  isStatus st imbalance = unbalanced && negb anyOver && negb anyUnder.
Proof.
  cbv zeta. rewrite evaluateStatus_status.
  rewrite !nonEmpty_existsb.
  destruct (phaseValues t) as [| v vs] eqn:Ev; [simpl; auto |].
  cbn [nonEmpty].
  destruct (existsb (fun v0 => Qltb vmax v0) (v :: vs));
    destruct (existsb (fun v0 => Qltb v0 vmin) (v :: vs));
    destruct (Qle_bool 15 (t_delta t)); simpl; auto.
Qed.

Lemma evaluateStatus_reEvaluate (vmin vmax : Q) (t : VoltageTriplet) :
  phaseValues (reEvaluate vmin vmax t) = phaseValues t.
Proof.
  unfold reEvaluate. destruct (evaluateStatus t vmin vmax). reflexivity.
Qed.

(** X6.  The event counters of the dashboard are decided by the phase
    values and the thresholds in force, not by the status stored at parse
    time: [cntOver] counts the triplets with a value above [vmax],
    [cntUnder] those with a value below [vmin] and none above [vmax],
    [cntImbalance] those with neither and a spread of 15 or more; no
    triplet is counted twice.  [maxDelta] is the largest spread, or 0. *)
Lemma event_counters_by_values (files : list FileData) (vmin vmax : Q) :
  let s := analysisStats files vmin vmax in
  let raw := flat_map f_triplets (filter f_enabled files) in
  let anyOver t := existsb (fun v => Qltb vmax v) (phaseValues t) in
  let anyUnder t := existsb (fun v => Qltb v vmin) (phaseValues t) in
  let unbalanced t := nonEmpty (phaseValues t) && Qle_bool 15 (t_delta t) in
  totalPoints s = List.length raw /\
  cntOver s = List.length (filter anyOver raw) /\
  cntUnder s = List.length (filter (fun t => anyUnder t && negb (anyOver t)) raw) /\
  cntImbalance s =
    List.length (filter (fun t => unbalanced t && negb (anyOver t) && negb (anyUnder t))
                   raw) /\
  cntOver s + cntUnder s + cntImbalance s <= totalPoints s /\
  (0 <= maxDelta s)%Q /\
  (forall t, In t raw -> (t_delta t <= maxDelta s)%Q) /\
  (maxDelta s = 0%Q \/ exists t, In t raw /\ maxDelta s = t_delta t).
Proof.
  intros s raw anyOver anyUnder unbalanced.
  assert (T : totalPoints s = List.length raw).
  { subst s. unfold analysisStats.
    destruct (allData files vmin vmax) eqn:E; cbn [totalPoints]; rewrite <- E;
      rewrite <- (Permutation_length (allData_perm files vmin vmax));
      apply length_map. }
  assert (CO : forall t, isStatus (t_status (reEvaluate vmin vmax t)) over = anyOver t).
  { intros t. destruct (reEvaluate_fields vmin vmax t) as [_ [_ [-> _]]].
    apply (status_by_values t vmin vmax). }
  assert (CU : forall t, isStatus (t_status (reEvaluate vmin vmax t)) under =
                         anyUnder t && negb (anyOver t)).
  { intros t. destruct (reEvaluate_fields vmin vmax t) as [_ [_ [-> _]]].
    apply (status_by_values t vmin vmax). }
  assert (CI : forall t, isStatus (t_status (reEvaluate vmin vmax t)) imbalance =
                         unbalanced t && negb (anyOver t) && negb (anyUnder t)).
  { intros t. destruct (reEvaluate_fields vmin vmax t) as [_ [_ [-> _]]].
    apply (status_by_values t vmin vmax). }
  assert (Counts :
    cntOver s = List.length (filter anyOver raw) /\
    cntUnder s = List.length (filter (fun t => anyUnder t && negb (anyOver t)) raw) /\
    cntImbalance s =
      List.length (filter (fun t => unbalanced t && negb (anyOver t) && negb (anyUnder t))
                     raw)).
  { subst s. unfold analysisStats.
    destruct (allData files vmin vmax) as [| t0 rest] eqn:E.
    - apply allData_nil in E. fold raw in E. rewrite E. simpl. auto.
    - cbn [cntOver cntUnder cntImbalance]. rewrite <- E.
      destruct (fold_statsStep_counts vmin vmax (allData files vmin vmax) initAcc)
        as [U [O I]].
      cbv zeta in U, O, I. rewrite U, O, I. cbn [initAcc a_cntUnder a_cntOver a_cntImbalance].
      rewrite !allData_count. fold raw.
      repeat split; simpl; apply filter_length_ext; intros t _; auto. }
  destruct Counts as [CO' [CU' CI']].
  split; [exact T |]. split; [exact CO' |]. split; [exact CU' |]. split; [exact CI' |].
  split.
  { rewrite CO', CU', CI', T. apply exclusive_counts. intros t.
    destruct (anyOver t), (anyUnder t), (unbalanced t); simpl; auto. }
  subst s. unfold analysisStats.
  destruct (allData files vmin vmax) as [| t0 rest] eqn:E.
  - apply allData_nil in E. fold raw in E. rewrite E. cbn [maxDelta].
    split; [apply Qle_refl |]. split; [intros t [] | left; reflexivity].
  - cbn [maxDelta]. rewrite <- E.
    destruct (fold_statsStep_maxDelta vmin vmax (allData files vmin vmax) initAcc)
      as [M [B W]].
    cbv zeta in M, B, W. cbn [initAcc a_maxDelta] in M, W.
    split; [exact M |]. split.
    + intros t It.
      destruct (reEvaluate_fields vmin vmax t) as [_ [D _]]. rewrite <- D.
      apply B. apply (Permutation_in _ (allData_perm files vmin vmax)).
      apply in_map. exact It.
    + destruct W as [W | [t [It W]]]; [left; exact W |]. right.
      apply (Permutation_in _ (Permutation_sym (allData_perm files vmin vmax))) in It.
      apply in_map_iff in It. destruct It as [t1 [<- I1]].
      exists t1. split; [exact I1 |].
      rewrite W. apply (reEvaluate_fields vmin vmax t1).
Qed.

End StatsExtent.

(** ** Observation period and per-phase statistics *)

Section PeriodFacts.
Context {H : Host}.

Lemma sorted_head_least {A : Type} (key : A -> Q) (x : A) (l : list A) :
  StronglySorted (fun a b => (key a <= key b)%Q) (x :: l) ->
  forall y, In y (x :: l) -> (key x <= key y)%Q.
Proof.
  intros S y [<- | I]; [apply Qle_refl |].
  apply StronglySorted_inv in S. destruct S as [_ F].
  rewrite Forall_forall in F. apply F, I.
Qed.

Lemma hd_error_rev_In {A : Type} (l : list A) (x : A) :
  hd_error (rev l) = Some x -> In x l.
Proof.
  intros E. apply in_rev. destruct (rev l); [discriminate |].
  injection E as ->. now left.
Qed.

Lemma sorted_last_greatest {A : Type} (key : A -> Q) (l : list A) (z : A) :
  StronglySorted (fun a b => (key a <= key b)%Q) l ->
  hd_error (rev l) = Some z ->
  forall y, In y l -> (key y <= key z)%Q.
Proof.
  intros S E y I. apply sorted_rev in S.
  destruct (rev l) as [| z' r] eqn:R; [discriminate |]. injection E as ->.
  apply in_rev in I. rewrite R in I.
  destruct I as [<- | I]; [apply Qle_refl |].
  apply StronglySorted_inv in S. destruct S as [_ F].
  rewrite Forall_forall in F. apply (F y I).
Qed.

Lemma allData_ts (files : list FileData) (vmin vmax : Q) (t : VoltageTriplet) :
  In t (flat_map f_triplets (filter f_enabled files)) ->
  exists t', In t' (allData files vmin vmax) /\ t_ts t' = t_ts t.
Proof.
  intros I. exists (reEvaluate vmin vmax t). split.
  - apply (Permutation_in _ (allData_perm files vmin vmax)), in_map, I.
  - apply reEvaluate_fields.
Qed.

Lemma allData_origin (files : list FileData) (vmin vmax : Q) (t' : VoltageTriplet) :
  In t' (allData files vmin vmax) ->
  exists t, In t (flat_map f_triplets (filter f_enabled files)) /\
            t' = reEvaluate vmin vmax t.
Proof.
  intros I.
  apply (Permutation_in _ (Permutation_sym (allData_perm files vmin vmax))) in I.
  apply in_map_iff in I. destruct I as [t [<- I]]. exists t. split; [exact I | reflexivity].
Qed.


End PeriodFacts.

Section PhaseFacts.
Context {H : Host}.

(** The per-phase accumulator after the readings [vals]. *)
Local Abbreviation feed vmin vmax :=
  (fold_left (fun pa v => phaseStep vmin vmax (Some v) pa)).

Lemma fold_phaseStep_present (vmin vmax : Q) (l : list (option Q)) (pa : PhaseAcc) :
  fold_left (fun pa o => phaseStep vmin vmax o pa) l pa =
  feed vmin vmax (presentValues l) pa.
Proof.
  revert pa. induction l as [| [v |] l IH]; intros pa; simpl; [reflexivity | |]; apply IH.
Qed.

Lemma fold_statsStep_phase (vmin vmax : Q) (data : list VoltageTriplet) (a : Acc) :
  let a' := fold_left (statsStep vmin vmax) data a in
  a_L1 a' = feed vmin vmax (phaseReadings L1 data) (a_L1 a) /\
  a_L2 a' = feed vmin vmax (phaseReadings L2 data) (a_L2 a) /\
  a_L3 a' = feed vmin vmax (phaseReadings L3 data) (a_L3 a).
Proof.
  unfold phaseReadings. cbv zeta.
  revert a. induction data as [| t data IH]; intros a; [simpl; auto |].
  cbn [fold_left map]. destruct (IH (statsStep vmin vmax a t)) as [A1 [A2 A3]].
  rewrite A1, A2, A3. cbn [statsStep a_L1 a_L2 a_L3 getPhase].
  repeat split.
  - destruct (t_L1 t); reflexivity.
  - destruct (t_L2 t); reflexivity.
  - destruct (t_L3 t); reflexivity.
Qed.

Lemma feed_spec (vmin vmax : Q) (vals : list Q) :
  let pa := feed vmin vmax vals
              {| a_stats := initPhaseStats; a_sum := 0; a_count := 0 |} in
  let ps := a_stats pa in
  a_count pa = List.length vals /\
  ps_avg ps = 0%Q /\
  zeroCount ps = 0 /\
  underCount ps = List.length (filter (fun v => Qltb v vmin) vals) /\
  overCount ps = List.length (filter (fun v => Qltb vmax v) vals) /\
  ((0 <= ps_max ps)%Q /\ (forall v, In v vals -> (v <= ps_max ps)%Q) /\
   (ps_max ps = 0%Q \/ In (ps_max ps) vals)) /\
  ((ps_min ps = 999%Q /\ forall v, In v vals -> (999 <= v)%Q) \/
   (In (ps_min ps) vals /\ (ps_min ps < 999)%Q /\
    forall v, In v vals -> (ps_min ps <= v)%Q)).
Proof.
  induction vals as [| x vals IH] using rev_ind.
  - simpl. repeat split; try reflexivity; try (intros v []).
    + lra.
    + left; reflexivity.
    + left. split; [reflexivity | intros v []].
  - cbv zeta in *. rewrite fold_left_app. cbn [fold_left].
    set (pa := feed vmin vmax vals
                 {| a_stats := initPhaseStats; a_sum := 0; a_count := 0 |}) in *.
    destruct IH as [C [Av [Z [U [O [[M0 [MB MW]] Mn]]]]]].
    cbn [phaseStep a_count a_sum a_stats ps_avg zeroCount underCount overCount
         ps_max ps_min].
    rewrite !filter_app, !length_app. cbn [filter].
    split; [rewrite C; simpl; lia |].
    split; [exact Av |]. split; [exact Z |].
    split.
    { rewrite U. unfold incIf. destruct (Qltb x vmin); simpl; lia. }
    split.
    { rewrite O. unfold incIf. destruct (Qltb vmax x); simpl; lia. }
    split.
    { destruct (Qltb (ps_max (a_stats pa)) x) eqn:E.
      - apply Qltb_lt in E. split; [lra |]. split.
        + intros v I. apply in_app_or in I. destruct I as [I | [<- | []]].
          * apply Qle_trans with (ps_max (a_stats pa)); [apply MB, I | lra].
          * apply Qle_refl.
        + right. apply in_or_app. right. now left.
      - apply Qltb_ge in E. split; [exact M0 |]. split.
        + intros v I. apply in_app_or in I. destruct I as [I | [<- | []]].
          * apply MB, I.
          * exact E.
        + destruct MW as [MW | MW]; [left; exact MW |].
          right. apply in_or_app. left. exact MW. }
    destruct (Qltb x (ps_min (a_stats pa))) eqn:E.
    + apply Qltb_lt in E. right. split; [apply in_or_app; right; now left |].
      destruct Mn as [[Mq Mb] | [Mi [Ml Mb]]].
      * split; [rewrite Mq in E; exact E |].
        intros v I. apply in_app_or in I. destruct I as [I | [<- | []]].
        -- apply Qle_trans with 999%Q; [rewrite Mq in E; lra | apply Mb, I].
        -- apply Qle_refl.
      * split; [lra |].
        intros v I. apply in_app_or in I. destruct I as [I | [<- | []]].
        -- apply Qle_trans with (ps_min (a_stats pa)); [lra | apply Mb, I].
        -- apply Qle_refl.
    + apply Qltb_ge in E.
      destruct Mn as [[Mq Mb] | [Mi [Ml Mb]]].
      * left. split; [exact Mq |].
        intros v I. apply in_app_or in I. destruct I as [I | [<- | []]].
        -- apply Mb, I.
        -- rewrite Mq in E. exact E.
      * right. split; [apply in_or_app; left; exact Mi |]. split; [exact Ml |].
        intros v I. apply in_app_or in I. destruct I as [I | [<- | []]].
        -- apply Mb, I.
        -- exact E.
Qed.

Lemma phaseReadings_perm (ph : Phase) (l l' : list VoltageTriplet) :
  Permutation l l' -> Permutation (phaseReadings ph l) (phaseReadings ph l').
Proof.
  intros P. unfold phaseReadings. apply presentValues_perm, Permutation_map, P.
Qed.

Lemma phaseReadings_reEvaluate (ph : Phase) (vmin vmax : Q) (l : list VoltageTriplet) :
  phaseReadings ph (map (reEvaluate vmin vmax) l) = phaseReadings ph l.
Proof.
  unfold phaseReadings. rewrite map_map. f_equal. apply map_ext.
  intros t. apply reEvaluate_fields.
Qed.

(** X8.  The per-phase counters and extremes of the dashboard, over the
    readings [vals] of the phase.  On an empty dashboard the record keeps
    its initial content, a minimum of 999 included.  Otherwise: the outage
    counter is never raised; [underCount] and [overCount] count the
    readings outside the thresholds; a phase without reading shows 0 for
    minimum, maximum and average; the maximum is the largest reading or 0,
    whichever is greater; the minimum is the smallest reading when one is
    below 999, and 0 when none is; the minimum never exceeds the maximum.
    Nothing is stated about the average of a phase with readings: the
    source adds and divides doubles, which round. *)
Lemma phase_statistics (files : list FileData) (vmin vmax : Q) (ph : Phase) :
  let s := analysisStats files vmin vmax in
  let raw := flat_map f_triplets (filter f_enabled files) in
  let vals := phaseReadings ph (allData files vmin vmax) in
  let ps := phaseStatsOf s ph in
  Permutation (phaseReadings ph raw) vals /\
  (raw = [] -> ps = initPhaseStats) /\
  (raw <> [] ->
   zeroCount ps = 0 /\
   underCount ps = List.length (filter (fun v => Qltb v vmin) vals) /\
   overCount ps = List.length (filter (fun v => Qltb vmax v) vals) /\
   (vals = [] -> ps_min ps = 0%Q /\ ps_max ps = 0%Q /\ ps_avg ps = 0%Q) /\
   ((0 <= ps_max ps)%Q /\ (forall v, In v vals -> (v <= ps_max ps)%Q) /\
    (ps_max ps = 0%Q \/ In (ps_max ps) vals)) /\
   ((exists v, In v vals /\ (v < 999)%Q) ->
    In (ps_min ps) vals /\ forall v, In v vals -> (ps_min ps <= v)%Q) /\
   ((forall v, In v vals -> (999 <= v)%Q) -> ps_min ps = 0%Q) /\
   (ps_min ps <= ps_max ps)%Q).
Proof.
  intros s raw vals ps.
  split.
  { subst vals. rewrite <- (phaseReadings_reEvaluate ph vmin vmax raw).
    apply phaseReadings_perm, allData_perm. }
  assert (Closed : raw <> [] ->
    ps = closePhase (feed vmin vmax vals
                       {| a_stats := initPhaseStats; a_sum := 0; a_count := 0 |})).
  { intros Ne. subst ps s vals. unfold analysisStats.
    destruct (allData files vmin vmax) as [| t0 rest] eqn:E.
    - apply allData_nil in E. contradiction.
    - destruct (fold_statsStep_phase vmin vmax (t0 :: rest) initAcc) as [A1 [A2 A3]].
      cbv zeta in A1, A2, A3.
      destruct ph; cbn [phaseStatsOf phases_L1 phases_L2 phases_L3];
        [rewrite A1 | rewrite A2 | rewrite A3]; reflexivity. }
  split.
  { intros En. subst ps s. unfold analysisStats.
    rewrite (proj2 (allData_nil files vmin vmax) En). destruct ph; reflexivity. }
  intros Ne. rewrite (Closed Ne). clear Closed.
  destruct (feed_spec vmin vmax vals) as [C [Av [Z [U [O [[M0 [MB MW]] Mn]]]]]].
  cbv zeta in *.
  set (pa := feed vmin vmax vals
               {| a_stats := initPhaseStats; a_sum := 0; a_count := 0 |}) in *.
  assert (MinCases :
    (ps_min (closePhase pa) = 0%Q /\ forall v, In v vals -> (999 <= v)%Q) \/
    (ps_min (closePhase pa) = ps_min (a_stats pa) /\
     In (ps_min (a_stats pa)) vals /\ (ps_min (a_stats pa) < 999)%Q /\
     forall v, In v vals -> (ps_min (a_stats pa) <= v)%Q)).
  { unfold closePhase. cbn [ps_min].
    destruct Mn as [[Mq Mb] | [Mi [Ml Mb]]].
    - left. rewrite Mq. split; [reflexivity | exact Mb].
    - right. destruct (Qeq_bool (ps_min (a_stats pa)) 999) eqn:Q.
      + apply Qeq_bool_iff in Q. lra.
      + auto. }
  cbn [closePhase zeroCount underCount overCount ps_max].
  split; [exact Z |]. split; [exact U |]. split; [exact O |].
  split.
  { intros Ev. unfold closePhase. cbn [ps_min ps_avg]. rewrite C, Ev. cbn [List.length Nat.ltb Nat.leb].
    destruct Mn as [[Mq _] | [Mi _]];
      [| rewrite Ev in Mi; destruct Mi].
    rewrite Mq. split; [reflexivity |]. split; [| exact Av].
    destruct MW as [MW | MW]; [exact MW | rewrite Ev in MW; destruct MW]. }
  split; [split; [exact M0 | split; [exact MB | exact MW]] |].
  split.
  { intros [v [Iv Lv]]. destruct MinCases as [[_ Mb] | [-> [Mi [_ Mb]]]].
    - specialize (Mb v Iv). lra.
    - split; assumption. }
  split.
  { intros All. destruct MinCases as [[M _] | [_ [Mi [Ml _]]]]; [exact M |].
    specialize (All _ Mi). lra. }
  destruct MinCases as [[-> _] | [-> [Mi _]]].
  - exact M0.
  - apply MB, Mi.
Qed.

End PhaseFacts.

(** ** Invariants of the parsing context *)

Section ParseInvariants.
Context {H : Host}.

Lemma bind_Ret {A B : Type} (c : exc A) (k : A -> exc B) (b : B) :
  bind c k = Ret b -> exists a, c = Ret a /\ k a = Ret b.
Proof.
  destruct c as [a | e |]; cbn [bind]; intros E; [| discriminate | discriminate].
  exists a. split; [reflexivity | exact E].
Qed.

Lemma scanFrom_inv (P : Ctx -> Prop) (fuel : nat) (text marker : string)
  (handler : jsval -> nat -> Ctx -> exc Ctx) (j : nat) (c c' : Ctx) :
  (forall obj p c0 c1, P c0 -> handler obj p c0 = Ret c1 -> P c1) ->
  P c -> scanFrom fuel text marker handler j c = Ret c' -> P c'.
Proof.
  intros Hh. revert j c. induction fuel as [| fuel IH]; intros j c Pc; cbn [scanFrom].
  - destruct (index j marker text); [discriminate |]. intros E. injection E as <-. exact Pc.
  - destruct (index j marker text) as [p |]; [| intros E; injection E as <-; exact Pc].
    intros E. apply bind_Ret in E. destruct E as [c1 [E1 E2]].
    refine (IH _ c1 _ E2).
    destruct (extractJsonFrom text p) as [obj |]; [| injection E1 as <-; exact Pc].
    destruct (truthy obj); [| injection E1 as <-; exact Pc].
    apply (Hh obj p c c1 Pc E1).
Qed.

Lemma scan_inv (P : Ctx -> Prop) (text marker : string)
  (handler : jsval -> nat -> Ctx -> exc Ctx) (c c' : Ctx) :
  (forall obj p c0 c1, P c0 -> handler obj p c0 = Ret c1 -> P c1) ->
  P c -> scan text marker handler c = Ret c' -> P c'.
Proof. unfold scan. apply scanFrom_inv. Qed.

Lemma meterLoop_inv (P : Ctx -> Prop) (fuel : nat) (dataset text : string)
  (idx : nat) (c c' : Ctx) :
  (forall obj p c0 c1, P c0 -> onMeterValues dataset obj p c0 = Ret c1 -> P c1) ->
  P c -> meterLoop fuel dataset text idx c = Ret c' -> P c'.
Proof.
  intros Hh. revert idx c. induction fuel as [| fuel IH]; intros idx c Pc; cbn [meterLoop].
  - destruct (index idx "MeterValues" text); [discriminate |].
    intros E. injection E as <-. exact Pc.
  - destruct (index idx "MeterValues" text) as [p |];
      [| intros E; injection E as <-; exact Pc].
    intros E. apply bind_Ret in E. destruct E as [c1 [E1 E2]].
    refine (IH _ c1 _ E2).
    destruct (extractJsonFrom text p) as [obj |]; [| injection E1 as <-; exact Pc].
    destruct (truthy obj && truthy (field obj "meterValue"));
      [| injection E1 as <-; exact Pc].
    apply (Hh obj p c c1 Pc E1).
Qed.

(** *** What each handler leaves alone *)

Lemma onStatusNotification_ctx (obj : jsval) (pos : nat) (c c' : Ctx) :
  onStatusNotification obj pos c = Ret c' ->
  points c' = points c /\ txSpansByTx c' = txSpansByTx c /\
  (parsingErrors c' = parsingErrors c \/
   exists msg, parsingErrors c' =
               parsingErrors c ++ ["Suspicious timestamp (StatusNotification): " +++ msg]).
Proof.
  unfold onStatusNotification.
  destruct (orNone _ _) as [ts |]; [| intros E; injection E as <-; auto].
  destruct (outOfWindow ts).
  - intros E. apply bind_Ret in E. destruct E as [iso [_ E]]. injection E as <-.
    cbn [pushError points txSpansByTx parsingErrors].
    split; [reflexivity |]. split; [reflexivity |]. right. eexists. reflexivity.
  - intros E. injection E as <-. unfold pushStatus, setTimeline.
    cbn [points txSpansByTx parsingErrors]. auto.
Qed.

Lemma widenSpan_ctx (c : Ctx) (key : string) (conn : jsval) (ts : Q)
  (tag : option string) :
  points (widenSpan c key conn ts tag) = points c /\
  parsingErrors (widenSpan c key conn ts tag) = parsingErrors c /\
  statusTimeline (widenSpan c key conn ts tag) = statusTimeline c.
Proof. unfold widenSpan, setSpans. cbn. auto. Qed.

Lemma widenSpan_spansOk (c : Ctx) (key : string) (conn : jsval) (ts : Q)
  (tag : option string) :
  spansOk c -> spansOk (widenSpan c key conn ts tag).
Proof.
  intros Ok k s. unfold widenSpan, setSpans. cbn [txSpansByTx].
  destruct (String.eqb_spec key k) as [<- | Ne].
  - rewrite objGet_objSet_eq. intros E. injection E as <-. cbn [tx startTs endTs].
    destruct (objGet (txSpansByTx c) key) as [s0 |] eqn:G.
    + destruct (Ok key s0 G) as [T L]. split; [exact T |].
      apply Qle_trans with (startTs s0); [apply Q.le_min_l |].
      apply Qle_trans with (endTs s0); [exact L | apply Q.le_max_l].
    + cbn [tx startTs endTs]. split; [reflexivity |].
      apply Qle_trans with ts; [apply Q.le_min_l | apply Q.le_max_l].
  - rewrite objGet_objSet_ne by congruence. apply Ok.
Qed.

Lemma widenSpan_covers (c : Ctx) (key : string) (conn : jsval) (ts : Q)
  (tag : option string) :
  covers (widenSpan c key conn ts tag) key ts /\
  forall k t, covers c k t -> covers (widenSpan c key conn ts tag) k t.
Proof.
  unfold covers, widenSpan, setSpans. cbn [txSpansByTx]. split.
  - rewrite objGet_objSet_eq. eexists. split; [reflexivity |]. cbn [startTs endTs].
    split; [apply Q.le_min_r | apply Q.le_max_r].
  - intros k t [s [G [A B]]].
    destruct (String.eqb_spec key k) as [<- | Ne].
    + rewrite objGet_objSet_eq. eexists. split; [reflexivity |].
      rewrite G. cbn [startTs endTs]. split.
      * apply Qle_trans with (startTs s); [apply Q.le_min_l | exact A].
      * apply Qle_trans with (endTs s); [exact B | apply Q.le_max_l].
    + rewrite objGet_objSet_ne by congruence. exists s. auto.
Qed.

Lemma onStartTransaction_ctx (obj : jsval) (pos : nat) (c c' : Ctx) :
  onStartTransaction obj pos c = Ret c' ->
  c' = c \/ exists key conn ts tag, c' = widenSpan c key conn ts tag.
Proof.
  unfold onStartTransaction. destruct (readAnyTimestamp obj) as [ts |];
    [| intros E; injection E as <-; now left].
  destruct (negb _); intros E; injection E as <-; [now left |].
  right. do 4 eexists. reflexivity.
Qed.

Lemma onStopTransaction_ctx (obj : jsval) (pos : nat) (c c' : Ctx) :
  onStopTransaction obj pos c = Ret c' ->
  c' = c \/ exists key conn ts tag, c' = widenSpan c key conn ts tag.
Proof.
  unfold onStopTransaction. destruct (readAnyTimestamp obj) as [ts |];
    [| intros E; injection E as <-; now left].
  destruct (negb _); intros E; injection E as <-; [now left |].
  right. do 4 eexists. reflexivity.
Qed.

Lemma incidentText_invalid (msg : string) :
  incidentText ("Invalid timestamp: " +++ msg) = true.
Proof. destruct msg; reflexivity. Qed.

Lemma incidentText_suspicious (msg : string) :
  incidentText ("Suspicious timestamp: " +++ msg) = true.
Proof. reflexivity. Qed.

Lemma incidentText_status (msg : string) :
  incidentText ("Suspicious timestamp (StatusNotification): " +++ msg) = true.
Proof. reflexivity. Qed.

Lemma errorsOk_push (c : Ctx) (msg : string) :
  errorsOk c -> incidentText msg = true -> errorsOk (pushError c msg).
Proof.
  intros Ok T e. unfold pushError. cbn [parsingErrors]. intros I.
  apply in_app_or in I. destruct I as [I | [<- | []]]; [apply Ok, I | exact T].
Qed.

(** One meter entry: the incident log grows by at most one text of a
    known kind, the spans are widened or left alone, and the status
    timeline is not touched. *)
Lemma meterEntry_ctx (dataset : string) (conn tx : jsval) (pos : nat)
  (c c' : Ctx) (mv : jsval) :
  meterEntry dataset conn tx pos c mv = Ret c' ->
  (errorsOk c -> errorsOk c') /\
  (spansOk c -> spansOk c') /\
  (forall k t, covers c k t -> covers c' k t) /\
  statusTimeline c' = statusTimeline c.
Proof.
  unfold meterEntry, getProp. destruct (nullish mv); cbn [bind]; [discriminate |].
  destruct (parseISO (field mv "timestamp")) as [dt |].
  2:{ intros E. injection E as <-. split; [| split; [| split]].
      - intros Ok. apply errorsOk_push; [exact Ok | apply incidentText_invalid].
      - auto.
      - auto.
      - reflexivity. }
  destruct (outOfWindow dt).
  { intros E. apply bind_Ret in E. destruct E as [iso [_ E]]. injection E as <-.
    split; [| split; [| split]].
    - intros Ok. apply errorsOk_push; [exact Ok | apply incidentText_suspicious].
    - auto.
    - auto.
    - reflexivity. }
  intros E. apply bind_Ret in E. destruct E as [samples [_ E]].
  apply bind_Ret in E. destruct E as [pts [_ E]]. injection E as <-.
  destruct (truthy tx).
  - unfold setPoints. cbn [parsingErrors txSpansByTx statusTimeline].
    split; [| split; [| split]].
    + intros Ok e. cbn [parsingErrors].
      rewrite (proj1 (proj2 (widenSpan_ctx c (ToString tx) conn dt None))). apply Ok.
    + intros Ok k s. cbn [txSpansByTx]. apply (widenSpan_spansOk c _ conn dt None Ok).
    + intros k t Cv.
      destruct (proj2 (widenSpan_covers c (ToString tx) conn dt None) k t Cv)
        as [s [G AB]].
      exists s. split; [exact G | exact AB].
    + apply widenSpan_ctx.
  - unfold setPoints. split; [| split; [| split]]; auto.
Qed.

Lemma onMeterValues_ctx (dataset : string) (obj : jsval) (pos : nat) (c c' : Ctx) :
  onMeterValues dataset obj pos c = Ret c' ->
  (errorsOk c -> errorsOk c') /\
  (spansOk c -> spansOk c') /\
  (forall k t, covers c k t -> covers c' k t) /\
  statusTimeline c' = statusTimeline c.
Proof.
  unfold onMeterValues. intros E. apply bind_Ret in E. destruct E as [entries [_ E]].
  set (f := meterEntry dataset (field obj "connectorId" ||| JNum 1)
              (field obj "transactionId" ??? field obj "transactionID" ???
               field obj "transactionid" ??? JNull) pos) in E.
  split; [| split; [| split]].
  - intros Ok. apply (forEachM_inv errorsOk f entries c c'); [| exact Ok | exact E].
    intros s0 a s1 P0 E0. apply (meterEntry_ctx _ _ _ _ _ _ _ E0), P0.
  - intros Ok. apply (forEachM_inv spansOk f entries c c'); [| exact Ok | exact E].
    intros s0 a s1 P0 E0. apply (meterEntry_ctx _ _ _ _ _ _ _ E0), P0.
  - intros k t Cv.
    apply (forEachM_inv (fun c0 => covers c0 k t) f entries c c'); [| exact Cv | exact E].
    intros s0 a s1 P0 E0. apply (meterEntry_ctx _ _ _ _ _ _ _ E0), P0.
  - apply (forEachM_inv (fun c0 => statusTimeline c0 = statusTimeline c) f entries c c');
      [| reflexivity | exact E].
    intros s0 a s1 P0 E0. rewrite <- P0. apply (meterEntry_ctx _ _ _ _ _ _ _ E0).
Qed.

Lemma onMeterValues_pointsOk (dataset : string) (obj : jsval) (pos : nat) (c c' : Ctx) :
  onMeterValues dataset obj pos c = Ret c' -> pointsOk dataset c -> pointsOk dataset c'.
Proof.
  unfold onMeterValues. intros E Ok. apply bind_Ret in E. destruct E as [entries [_ E]].
  revert E. apply forEachM_inv; [| exact Ok].
  intros s0 mv s1 P0 E0 p Ip.
  destruct (meterEntry_points _ _ _ _ _ _ _ E0 p Ip) as [Old | [_ D]];
    [apply P0, Old |].
  destruct (meterEntry_bounds _ _ _ _ _ _ _ E0 p Ip) as [Old | [V W]];
    [apply P0, Old |].
  auto.
Qed.

(** The context handed to the finishing step. *)
Lemma parse_context (name text : string) (vmin vmax : Q) (fd : FileData) :
  parseLogFile name text vmin vmax = Ret fd ->
  exists c,
    finishParse name c vmin vmax = Ret fd /\
    pointsOk name c /\ errorsOk c /\ spansOk c.
Proof.
  unfold parseLogFile. intros E.
  apply bind_Ret in E. destruct E as [c1 [E1 E]].
  apply bind_Ret in E. destruct E as [c2 [E2 E]].
  apply bind_Ret in E. destruct E as [c3 [E3 E]].
  apply bind_Ret in E. destruct E as [tl [E4 E]].
  apply bind_Ret in E. destruct E as [c4 [E5 E]].
  exists c4. split; [exact E |].
  set (P := fun c : Ctx => points c = [] /\ errorsOk c /\ spansOk c).
  assert (P1 : P c1).
  { revert E1. apply scan_inv.
    - intros obj p c0 c0' [Pp [Pe Ps]] E0.
      destruct (onStatusNotification_ctx _ _ _ _ E0) as [Qp [Qs Qe]].
      split; [congruence |]. split.
      + intros e. destruct Qe as [-> | [msg ->]]; [apply Pe |].
        intros I. apply in_app_or in I.
        destruct I as [I | [<- | []]]; [apply Pe, I | apply incidentText_status].
      + intros k s. rewrite Qs. apply Ps.
    - split; [reflexivity |]. split; [intros e [] | intros k s; discriminate]. }
  assert (Step : forall c0 c0',
            P c0 -> (c0' = c0 \/ exists key conn ts tag, c0' = widenSpan c0 key conn ts tag) ->
            P c0').
  { intros c0 c0' [Pp [Pe Ps]] [-> | [key [conn [ts [tag ->]]]]];
      [exact (conj Pp (conj Pe Ps)) |].
    destruct (widenSpan_ctx c0 key conn ts tag) as [Wp [We _]].
    split; [congruence |]. split.
    - intros e. rewrite We. apply Pe.
    - apply widenSpan_spansOk, Ps. }
  assert (P2 : P c2).
  { revert E2. apply scan_inv; [| exact P1].
    intros obj p c0 c0' P0 E0. apply (Step c0 c0' P0), (onStartTransaction_ctx _ _ _ _ E0). }
  assert (P3 : P c3).
  { revert E3. apply scan_inv; [| exact P2].
    intros obj p c0 c0' P0 E0. apply (Step c0 c0' P0), (onStopTransaction_ctx _ _ _ _ E0). }
  destruct P3 as [Pp [Pe Ps]].
  split; [| split].
  - revert E5. apply meterLoop_inv.
    + intros obj p c0 c0' P0 E0. apply (onMeterValues_pointsOk _ _ _ _ _ E0 P0).
    + intros p. unfold setTimeline. cbn [points]. rewrite Pp. intros [].
  - revert E5. apply meterLoop_inv.
    + intros obj p c0 c0' P0 E0. apply (onMeterValues_ctx _ _ _ _ _ E0), P0.
    + exact Pe.
  - revert E5. apply meterLoop_inv.
    + intros obj p c0 c0' P0 E0. apply (onMeterValues_ctx _ _ _ _ _ E0), P0.
    + exact Ps.
Qed.

End ParseInvariants.

(** ** What a parsed file contains *)

Section OutputFacts.
Context {H : Host}.

Lemma keepSome_map_In {A B : Type} (f : A -> option B) (l : list A) (b : B) :
  In b (keepSome (map f l)) -> exists a, In a l /\ f a = Some b.
Proof.
  induction l as [| a l IH]; simpl; [intros [] |].
  destruct (f a) as [b' |] eqn:E.
  - intros [<- | I].
    + exists a. split; [now left | exact E].
    + destruct (IH I) as [a' [Ia Ea]]. exists a'. split; [now right | exact Ea].
  - intros I. destruct (IH I) as [a' [Ia Ea]]. exists a'. split; [now right | exact Ea].
Qed.

Lemma finishParse_Ret (name : string) (c : Ctx) (vmin vmax : Q) (fd : FileData) :
  finishParse name c vmin vmax = Ret fd ->
  exists byConn,
    fd = {| f_name := name;
            f_enabled := true;
            f_triplets :=
              sortBy t_ts
                (keepSome
                   (map (fun kv => finalizeTriplet byConn (statusTimeline c)
                                     vmin vmax (snd kv))
                      (buildTripletMap (sortBy p_ts (points c)))));
            f_parsingErrors := parsingErrors c |}.
Proof.
  unfold finishParse. intros E. apply bind_Ret in E. destruct E as [byConn [_ E]].
  injection E as <-. exists byConn. reflexivity.
Qed.

(** Where an output triplet comes from: a triplet of the builder, made of
    collected points, and finalized. *)
Lemma output_triplet_origin (name : string) (c : Ctx) (vmin vmax : Q)
  (fd : FileData) (t : VoltageTriplet) :
  finishParse name c vmin vmax = Ret fd -> In t (f_triplets fd) ->
  exists byConn t0,
    finalizeTriplet byConn (statusTimeline c) vmin vmax t0 = Some t /\
    (exists r, In r (points c) /\ t_dataset t0 = p_dataset r /\
               t_ts t0 = roundedTs (p_ts r)) /\
    (forall ph v, getPhase t0 ph = Some v ->
                  exists r, In r (points c) /\ p_voltage r = v).
Proof.
  intros E I. apply finishParse_Ret in E. destruct E as [byConn ->].
  cbn [f_triplets] in I. apply sortBy_In in I.
  apply keepSome_map_In in I. destruct I as [[k t0] [Ik Ef]]. cbn [snd] in Ef.
  exists byConn, t0. split; [exact Ef |].
  destruct (buildTripletMap_inv (sortBy p_ts (points c))) as [ND Inv].
  specialize (Inv k). rewrite (In_objGet _ _ _ ND Ik) in Inv.
  destruct Inv as [_ [[r [Ir [_ [_ [Ed Et]]]]] [_ Vals]]].
  split.
  - exists r. split; [apply (sortBy_In p_ts), Ir | split; assumption].
  - intros ph v G. destruct (Vals ph v G) as [r' [Ir' [_ [_ Ev]]]].
    exists r'. split; [apply (sortBy_In p_ts), Ir' | exact Ev].
Qed.

Lemma outOfWindow_false (ts : Q) :
  outOfWindow ts = false <->
  (MIN_REASONABLE_TS <= ts)%Q /\ (ts <= MAX_REASONABLE_TS)%Q.
Proof.
  unfold outOfWindow. rewrite orb_false_iff, !Qltb_ge. reflexivity.
Qed.

Lemma roundedTs_bounds (ts : Q) :
  (MIN_REASONABLE_TS <= ts)%Q ->
  (MIN_REASONABLE_TS <= roundedTs ts)%Q /\ (roundedTs ts <= ts)%Q.
Proof.
  intros L. unfold roundedTs, MIN_REASONABLE_TS in *.
  assert (F : (1420070400 <= Qfloor (ts / 1000))%Z).
  { change 1420070400%Z with (Qfloor (inject_Z 1420070400)).
    apply Qfloor_resp_le. apply Qle_shift_div_l; [reflexivity |].
    change (inject_Z 1420070400 * 1000)%Q with (1420070400 * 1000)%Q. lra. }
  split.
  - change 1420070400000%Q with (inject_Z (1420070400 * 1000)).
    rewrite <- Zle_Qle. lia.
  - rewrite inject_Z_mult. change (inject_Z 1000) with 1000%Q.
    pose proof (Qfloor_le (ts / 1000)) as Fl.
    assert (X : (inject_Z (Qfloor (ts / 1000)) * 1000 <= ts / 1000 * 1000)%Q).
    { apply Qmult_le_compat_r; [exact Fl | discriminate]. }
    assert (Y : (ts / 1000 * 1000 == ts)%Q) by (field).
    rewrite Y in X. exact X.
Qed.

(** X9.  Timestamps of a parsed file.  The triplets are in ascending
    time order; each carries the file's name, a timestamp that is a whole
    number of seconds, and lies inside the plausibility window (from
    2015-01-01 to seven days past the time of parsing). *)
Lemma parsed_timestamps (name text : string) (vmin vmax : Q) (fd : FileData) :
  parseLogFile name text vmin vmax = Ret fd ->
  f_name fd = name /\ f_enabled fd = true /\
  StronglySorted (fun a b => (t_ts a <= t_ts b)%Q) (f_triplets fd) /\
  forall t, In t (f_triplets fd) ->
    t_dataset t = name /\
    (exists z, t_ts t = inject_Z (z * 1000)) /\
    (MIN_REASONABLE_TS <= t_ts t)%Q /\ (t_ts t <= MAX_REASONABLE_TS)%Q.
Proof.
  intros E. apply parse_context in E. destruct E as [c [E [Pp _]]].
  pose proof (finishParse_Ret _ _ _ _ _ E) as [byConn Efd].
  split; [rewrite Efd; reflexivity |]. split; [rewrite Efd; reflexivity |].
  split; [rewrite Efd; apply (sortBy_sorted t_ts) |].
  intros t It.
  destruct (output_triplet_origin _ _ _ _ _ _ E It)
    as [bc [t0 [Ef [[r [Ir [Ed Et]]] _]]]].
  destruct (finalizeTriplet_fields _ _ _ _ _ _ Ef) as [_ [Ts [Ds _]]].
  destruct (Pp r Ir) as [Dn [_ W]]. apply outOfWindow_false in W. destruct W as [Lo Hi].
  rewrite Ts, Ds, Ed, Et. split; [exact Dn |]. split; [eexists; reflexivity |].
  destruct (roundedTs_bounds (p_ts r) Lo) as [A B].
  split; [exact A |]. apply Qle_trans with (p_ts r); assumption.
Qed.

Lemma Qmin_cases (x y : Q) : Qmin x y = x \/ Qmin x y = y.
Proof.
  unfold Qmin, GenericMinMax.gmin. destruct (x ?= y)%Q; auto.
Qed.

Lemma Qmax_cases (x y : Q) : Qmax x y = x \/ Qmax x y = y.
Proof.
  unfold Qmax, GenericMinMax.gmax. destruct (x ?= y)%Q; auto.
Qed.

Lemma minOf_spec (v : Q) (vs : list Q) :
  In (minOf v vs) (v :: vs) /\ forall x, In x (v :: vs) -> (minOf v vs <= x)%Q.
Proof.
  unfold minOf. revert v. induction vs as [| y vs IH]; intros v; cbn [fold_left].
  - split; [now left |]. intros x [<- | []]. apply Qle_refl.
  - destruct (IH (Qmin v y)) as [I L]. split.
    + destruct I as [I | I]; [| right; right; exact I].
      rewrite <- I. destruct (Qmin_cases v y) as [-> | ->]; [now left | right; now left].
    + intros x [<- | [<- | Ix]].
      * apply Qle_trans with (Qmin v y); [apply L; now left | apply Q.le_min_l].
      * apply Qle_trans with (Qmin v y); [apply L; now left | apply Q.le_min_r].
      * apply L. now right.
Qed.

Lemma maxOf_spec (v : Q) (vs : list Q) :
  In (maxOf v vs) (v :: vs) /\ forall x, In x (v :: vs) -> (x <= maxOf v vs)%Q.
Proof.
  unfold maxOf. revert v. induction vs as [| y vs IH]; intros v; cbn [fold_left].
  - split; [now left |]. intros x [<- | []]. apply Qle_refl.
  - destruct (IH (Qmax v y)) as [I L]. split.
    + destruct I as [I | I]; [| right; right; exact I].
      rewrite <- I. destruct (Qmax_cases v y) as [-> | ->]; [now left | right; now left].
    + intros x [<- | [<- | Ix]].
      * apply Qle_trans with (Qmax v y); [apply Q.le_max_l | apply L; now left].
      * apply Qle_trans with (Qmax v y); [apply Q.le_max_r | apply L; now left].
      * apply L. now right.
Qed.

Lemma phaseValues_In (t : VoltageTriplet) (v : Q) :
  In v (phaseValues t) <-> exists ph, getPhase t ph = Some v.
Proof.
  unfold phaseValues. split.
  - intros I. destruct (t_L1 t) as [a |] eqn:E1, (t_L2 t) as [b |] eqn:E2,
      (t_L3 t) as [d |] eqn:E3; simpl in I;
      repeat (destruct I as [<- | I];
              [solve [exists L1; exact E1 | exists L2; exact E2 | exists L3; exact E3] |]);
      destruct I.
  - intros [ph G].
    destruct ph; simpl in G; rewrite G;
      destruct (t_L1 t), (t_L2 t), (t_L3 t); simpl; auto; try discriminate.
Qed.

Lemma phaseValues_ext (t t' : VoltageTriplet) :
  (forall ph, getPhase t' ph = getPhase t ph) -> phaseValues t' = phaseValues t.
Proof.
  intros G. unfold phaseValues.
  pose proof (G L1) as G1. pose proof (G L2) as G2. pose proof (G L3) as G3.
  cbn [getPhase] in G1, G2, G3. rewrite G1, G2, G3. reflexivity.
Qed.

Lemma evaluateStatus_ext (t t' : VoltageTriplet) (vmin vmax : Q) :
  phaseValues t' = phaseValues t -> t_delta t' = t_delta t ->
  evaluateStatus t' vmin vmax = evaluateStatus t vmin vmax.
Proof. intros P D. unfold evaluateStatus. rewrite P, D. reflexivity. Qed.

(** Delta and status of a finalized triplet. *)
Lemma finalizeTriplet_measure (byConn : jsobj (list TxSpan))
  (timeline : jsobj (list StatusEvent)) (vmin vmax : Q) (t t' : VoltageTriplet) :
  finalizeTriplet byConn timeline vmin vmax t = Some t' ->
  phaseValues t' = phaseValues t /\
  (exists v vs,
     phaseValues t = v :: vs /\
     t_delta t' = (if nonEmpty vs then maxOf v vs - minOf v vs else 0)%Q) /\
  evaluateStatus t' vmin vmax = (t_status t', t_deviationDetails t').
Proof.
  intros E.
  assert (P : phaseValues t' = phaseValues t).
  { apply phaseValues_ext. apply (finalizeTriplet_fields _ _ _ _ _ _ E). }
  split; [exact P |].
  unfold finalizeTriplet in E.
  destruct (phaseValues t) as [| v vs] eqn:Ev; [discriminate |].
  match type of E with
  | context [evaluateStatus ?t1 vmin vmax] =>
      assert (X : evaluateStatus t' vmin vmax = evaluateStatus t1 vmin vmax);
      [| destruct (evaluateStatus t1 vmin vmax) as [st dev] eqn:Es]
  end.
  { apply evaluateStatus_ext.
    - rewrite P, <- Ev. reflexivity.
    - destruct (evaluateStatus _ vmin vmax) as [st dev]. injection E as <-. reflexivity. }
  injection E as <-. cbn [t_delta t_status t_deviationDetails].
  split; [exists v, vs; split; reflexivity |].
  exact X.
Qed.


Lemma reEvaluate_fixed (vmin vmax : Q) (t : VoltageTriplet) :
  evaluateStatus t vmin vmax = (t_status t, t_deviationDetails t) ->
  reEvaluate vmin vmax t = t.
Proof.
  intros E. unfold reEvaluate. rewrite E. destruct t. reflexivity.
Qed.

(** X11.  Parsing and viewing agree.  The status and the deviation list
    stored in a parsed triplet are those of the evaluator at the parse
    thresholds, so that the dashboard's re-evaluation with the same
    thresholds reproduces the parsed triplets exactly, in the same
    order. *)
Lemma parsed_status_is_current (name text : string) (vmin vmax : Q) (fd : FileData) :
  parseLogFile name text vmin vmax = Ret fd ->
  (forall t, In t (f_triplets fd) ->
     evaluateStatus t vmin vmax = (t_status t, t_deviationDetails t)) /\
  allData [fd] vmin vmax = f_triplets fd.
Proof.
  intros E. apply parse_context in E. destruct E as [c [E _]].
  assert (St : forall t, In t (f_triplets fd) ->
                 evaluateStatus t vmin vmax = (t_status t, t_deviationDetails t)).
  { intros t It.
    destruct (output_triplet_origin _ _ _ _ _ _ E It) as [bc [t0 [Ef _]]].
    apply (finalizeTriplet_measure _ _ _ _ _ _ Ef). }
  split; [exact St |].
  pose proof (finishParse_Ret _ _ _ _ _ E) as [byConn Efd].
  unfold allData. cbn [filter]. replace (f_enabled fd) with true by (rewrite Efd; reflexivity).
  cbn [flat_map]. rewrite app_nil_r.
  rewrite (map_ext_in (reEvaluate vmin vmax) (fun t => t) (f_triplets fd)).
  - rewrite map_id. rewrite Efd. cbn [f_triplets]. apply sortBy_of_sorted, sortBy_sorted.
  - intros t It. apply reEvaluate_fixed, St, It.
Qed.

End OutputFacts.

(** ** Incidents, texts without payload, transaction spans *)

Section IncidentFacts.
Context {H : Host}.

Lemma incident_kinds_exclusive (e : string) :
  startsWith e "Invalid timestamp: " && startsWith e "Suspicious timestamp" = false.
Proof.
  unfold startsWith. destruct e as [| c e]; [reflexivity |].
  cbn [prefix]. destruct (ascii_dec "I" c) as [<- | N]; [| reflexivity].
  cbn. apply andb_false_r.
Qed.

Lemma two_kinds_count (p q : string -> bool) (l : list string) :
  (forall e, In e l -> p e || q e = true) ->
  (forall e, p e && q e = false) ->
  List.length (filter q l) + List.length (filter p l) = List.length l.
Proof.
  intros Any Ex. induction l as [| e l IH]; [reflexivity |].
  cbn [filter]. specialize (IH (fun e' I => Any e' (or_intror I))).
  pose proof (Any e (or_introl eq_refl)) as A. pose proof (Ex e) as X.
  destruct (p e), (q e); try discriminate; cbn [List.length]; lia.
Qed.

Lemma fold_error_count (l : list FileData) (n : nat) :
  fold_left (fun sum f => sum + List.length (f_parsingErrors f)) l n =
  n + List.length (flat_map f_parsingErrors l).
Proof.
  revert n. induction l as [| f l IH]; intros n; cbn [fold_left flat_map].
  - cbn. lia.
  - rewrite IH, length_app. lia.
Qed.

Lemma cntInvalidDates_total (files : list FileData) (vmin vmax : Q) :
  cntInvalidDates (analysisStats files vmin vmax) =
  List.length (flat_map f_parsingErrors (filter f_enabled files)).
Proof.
  unfold analysisStats.
  destruct (allData files vmin vmax); cbn [cntInvalidDates]; apply fold_error_count.
Qed.

(** X12.  Incidents of a parsed file.  Every incident text starts with
    [Invalid timestamp: ] or with [Suspicious timestamp], never both; the
    dashboard's summary lists exactly the file's incidents, and its count
    of suspicious timestamps plus the number of invalid ones is the
    [cntInvalidDates] of the statistics. *)
Lemma incident_kinds (name text : string) (vmin vmax : Q) (fd : FileData) :
  parseLogFile name text vmin vmax = Ret fd ->
  let agg := parsingErrorAgg [fd] in
  let invalid := filter (fun e => startsWith e "Invalid timestamp: ") (errors agg) in
  errors agg = f_parsingErrors fd /\
  (forall e, In e (errors agg) ->
     startsWith e "Invalid timestamp: " = negb (startsWith e "Suspicious timestamp")) /\
  suspiciousCount agg + List.length invalid =
    cntInvalidDates (analysisStats [fd] vmin vmax).
Proof.
  intros E agg invalid.
  apply parse_context in E. destruct E as [c [E [_ [Pe _]]]].
  pose proof (finishParse_Ret _ _ _ _ _ E) as [byConn Efd].
  assert (En : f_enabled fd = true) by (rewrite Efd; reflexivity).
  assert (Er : f_parsingErrors fd = parsingErrors c) by (rewrite Efd; reflexivity).
  assert (Ea : errors agg = f_parsingErrors fd).
  { subst agg. unfold parsingErrorAgg. cbn [errors filter]. rewrite En.
    cbn [flat_map]. apply app_nil_r. }
  assert (Kinds : forall e, In e (errors agg) ->
            startsWith e "Invalid timestamp: " || startsWith e "Suspicious timestamp" = true).
  { intros e I. rewrite Ea, Er in I. apply (Pe e I). }
  split; [exact Ea |]. split.
  - intros e I. specialize (Kinds e I). pose proof (incident_kinds_exclusive e) as X.
    destruct (startsWith e "Invalid timestamp: "), (startsWith e "Suspicious timestamp");
      try discriminate; reflexivity.
  - rewrite cntInvalidDates_total. cbn [filter]. rewrite En. cbn [flat_map].
    rewrite app_nil_r, <- Ea.
    subst invalid agg. unfold parsingErrorAgg at 1. cbn [suspiciousCount].
    fold (errors (parsingErrorAgg [fd])).
    apply (two_kinds_count (fun e => startsWith e "Invalid timestamp: ")
             (fun e => startsWith e "Suspicious timestamp")).
    + exact Kinds.
    + apply incident_kinds_exclusive.
Qed.

End IncidentFacts.

Section NoJsonFacts.
Context {H : Host}.

Lemma index_none_from (m text : string) (n : nat) :
  index 0 m text = None -> index n m text = None.
Proof.
  revert n. induction text as [| c text IH]; intros n E.
  - destruct n; [exact E | reflexivity].
  - destruct n as [| n]; [exact E |].
    cbn [index] in E |- *.
    destruct (prefix m (String c text)); [discriminate |].
    destruct (index 0 m text) as [k |] eqn:E0; [discriminate |].
    rewrite (IH n eq_refl). reflexivity.
Qed.

Lemma extractJsonFrom_no_brace (text : string) (p : nat) :
  index 0 "{" text = None -> extractJsonFrom text p = None.
Proof.
  intros E. unfold extractJsonFrom. rewrite (index_none_from _ _ p E). reflexivity.
Qed.

Lemma scanFrom_no_brace (fuel : nat) (text marker : string)
  (handler : jsval -> nat -> Ctx -> exc Ctx) (j : nat) (c : Ctx) :
  marker <> "" -> index 0 "{" text = None ->
  String.length text < fuel + j ->
  scanFrom fuel text marker handler j c = Ret c.
Proof.
  intros Nm Nb. revert j. induction fuel as [| fuel IH]; intros j L; cbn [scanFrom].
  - rewrite index_beyond by (assumption || lia). reflexivity.
  - destruct (index j marker text) as [p |] eqn:E; [| reflexivity].
    rewrite (extractJsonFrom_no_brace text p Nb). cbn [bind].
    apply index_ge in E.
    assert (0 < String.length marker) by (destruct marker; simpl; [congruence | lia]).
    apply IH. lia.
Qed.

Lemma meterLoop_no_brace (fuel : nat) (dataset text : string) (idx : nat) (c : Ctx) :
  index 0 "{" text = None ->
  String.length text < fuel + idx ->
  meterLoop fuel dataset text idx c = Ret c.
Proof.
  intros Nb. revert idx. induction fuel as [| fuel IH]; intros idx L; cbn [meterLoop].
  - rewrite index_beyond by (discriminate || lia). reflexivity.
  - destruct (index idx "MeterValues" text) as [p |] eqn:E; [| reflexivity].
    rewrite (extractJsonFrom_no_brace text p Nb). cbn [bind].
    apply index_ge in E. apply IH. lia.
Qed.

(** X13.  A text without any opening brace (the empty text included)
    parses to a file with no triplet and no incident, whatever markers it
    contains; the parse does not throw. *)
Lemma text_without_braces (name text : string) (vmin vmax : Q) :
  index 0 "{" text = None ->
  parseLogFile name text vmin vmax =
  Ret {| f_name := name; f_enabled := true;
         f_triplets := []; f_parsingErrors := [] |}.
Proof.
  intros Nb. unfold parseLogFile, scan.
  rewrite scanFrom_no_brace by (discriminate || assumption || lia). cbn [bind].
  rewrite scanFrom_no_brace by (discriminate || assumption || lia). cbn [bind].
  rewrite scanFrom_no_brace by (discriminate || assumption || lia). cbn [bind].
  cbn [emptyCtx statusTimeline]. unfold sortEntries at 1. cbn [objectKeys objectEntries
    indexProps namedProps fold_right filter map app forEachM bind].
  rewrite meterLoop_no_brace by (assumption || lia).
  reflexivity.
Qed.

End NoJsonFacts.

Section SpanFacts.
Context {H : Host}.

(** X14.  Transaction spans only widen, on logs whose ids are plain.  A
    start or stop message and a meter entry inside the window, carrying a
    transaction id that is not an inherited name, make the span of that
    transaction cover their timestamp; through the two transaction scans
    and the meter loop of such a log every span stays filed under its own
    id with [startTs <= endTs], and an instant once covered stays
    covered.  (For an id like [__proto__] or [constructor] the source
    files no span: its table answers with the inherited member.) *)
Lemma spans_only_widen (dataset text : string) :
  (forall obj pos c ts,
     plainPayload obj = true ->
     readAnyTimestamp obj = Some ts ->
     truthy (field obj "transactionId" ??? field obj "transactionID") = true ->
     exists c',
       onStartTransaction obj pos c = Ret c' /\
       covers c' (ToString (field obj "transactionId" ??? field obj "transactionID")) ts) /\
  (forall obj pos c ts,
     plainPayload obj = true ->
     readAnyTimestamp obj = Some ts ->
     truthy (field obj "transactionId" ??? field obj "transactionID") = true ->
     exists c',
       onStopTransaction obj pos c = Ret c' /\
       covers c' (ToString (field obj "transactionId" ??? field obj "transactionID")) ts) /\
  (forall conn tx pos c c' mv dt,
     printable mv = true -> printable tx = true -> plainId tx = true ->
     meterEntry dataset conn tx pos c mv = Ret c' ->
     parseISO (field mv "timestamp") = Some dt -> outOfWindow dt = false ->
     truthy tx = true ->
     covers c' (ToString tx) dt) /\
  (forall c c',
     plainLog text = true ->
     scan text "StartTransaction" onStartTransaction c = Ret c' \/
     scan text "StopTransaction" onStopTransaction c = Ret c' \/
     (exists fuel idx, meterLoop fuel dataset text idx c = Ret c') ->
     (spansOk c -> spansOk c') /\
     (forall k t, covers c k t -> covers c' k t)).
Proof.
  split; [| split; [| split]].
  - intros obj pos c ts _ Ts Tx. unfold onStartTransaction. rewrite Ts, Tx. cbn [negb].
    eexists. split; [reflexivity |]. apply (proj1 (widenSpan_covers _ _ _ _ _)).
  - intros obj pos c ts _ Ts Tx. unfold onStopTransaction. rewrite Ts, Tx. cbn [negb].
    eexists. split; [reflexivity |]. apply (proj1 (widenSpan_covers _ _ _ _ _)).
  - intros conn tx pos c c' mv dt _ _ _ E Ts W Tx. unfold meterEntry, getProp in E.
    destruct (nullish mv); cbn [bind] in E; [discriminate |].
    rewrite Ts, W, Tx in E.
    apply bind_Ret in E. destruct E as [samples [_ E]].
    apply bind_Ret in E. destruct E as [pts [_ E]]. injection E as <-.
    destruct (proj1 (widenSpan_covers c (ToString tx) conn dt None)) as [s [G AB]].
    exists s. split; [exact G | exact AB].
  - intros c c' _ Steps.
    assert (Tx : forall c0 c1,
              (c1 = c0 \/ exists key conn ts tag, c1 = widenSpan c0 key conn ts tag) ->
              (spansOk c0 -> spansOk c1) /\
              (forall k t, covers c0 k t -> covers c1 k t)).
    { intros c0 c1 [-> | [key [conn [ts [tag ->]]]]]; [auto |]. split.
      - apply widenSpan_spansOk.
      - apply (proj2 (widenSpan_covers _ _ _ _ _)). }
    destruct Steps as [E | [E | [fuel [idx E]]]].
    + split.
      * intros Ok. revert E. apply scan_inv; [| exact Ok].
        intros obj p c0 c1 P0 E0.
        apply (Tx c0 c1 (onStartTransaction_ctx _ _ _ _ E0)), P0.
      * intros k t Cv. revert E. apply (scan_inv (fun c0 => covers c0 k t)); [| exact Cv].
        intros obj p c0 c1 P0 E0.
        apply (Tx c0 c1 (onStartTransaction_ctx _ _ _ _ E0)), P0.
    + split.
      * intros Ok. revert E. apply scan_inv; [| exact Ok].
        intros obj p c0 c1 P0 E0.
        apply (Tx c0 c1 (onStopTransaction_ctx _ _ _ _ E0)), P0.
      * intros k t Cv. revert E. apply (scan_inv (fun c0 => covers c0 k t)); [| exact Cv].
        intros obj p c0 c1 P0 E0.
        apply (Tx c0 c1 (onStopTransaction_ctx _ _ _ _ E0)), P0.
    + split.
      * intros Ok. revert E. apply meterLoop_inv; [| exact Ok].
        intros obj p c0 c1 P0 E0. apply (onMeterValues_ctx _ _ _ _ _ E0), P0.
      * intros k t Cv. revert E.
        apply (meterLoop_inv (fun c0 => covers c0 k t)); [| exact Cv].
        intros obj p c0 c1 P0 E0. apply (onMeterValues_ctx _ _ _ _ _ E0), P0.
Qed.

End SpanFacts.

(** ** Phase attribution of a sample *)

Section PhaseAttribution.
Context {H : Host}.

Lemma upper_lower (c : ascii) : upperChar (lowerChar c) = upperChar c.
Proof.
  destruct c as [[] [] [] [] [] [] [] []]; reflexivity.
Qed.

Lemma toUpperCase_toLowerCase (s : string) :
  toUpperCase (toLowerCase s) = toUpperCase s.
Proof.
  unfold toUpperCase, toLowerCase. induction s as [| c s IH]; [reflexivity |].
  cbn [mapStr]. rewrite upper_lower, IH. reflexivity.
Qed.

Lemma lowerChar_dot (c : ascii) : Ascii.eqb (lowerChar c) "." = Ascii.eqb c ".".
Proof.
  destruct c as [[] [] [] [] [] [] [] []]; reflexivity.
Qed.

Lemma includes_dot (c : ascii) (s : string) :
  includes (String c s) "." = Ascii.eqb c "." || includes s ".".
Proof.
  unfold includes. cbn [index prefix].
  destruct (ascii_dec "." c) as [<- | N].
  - destruct s; reflexivity.
  - destruct (Ascii.eqb_spec c ".") as [-> | _]; [contradiction N; reflexivity |].
    cbn [orb]. destruct (index 0 "." s); reflexivity.
Qed.

Lemma includes_dot_lower (s : string) :
  includes (toLowerCase s) "." = includes s ".".
Proof.
  unfold toLowerCase. induction s as [| c s IH]; [reflexivity |].
  cbn [mapStr]. rewrite !includes_dot, lowerChar_dot, IH. reflexivity.
Qed.

Lemma afterLastDot_lower (s : string) :
  afterLastDot (toLowerCase s) = toLowerCase (afterLastDot s).
Proof.
  induction s as [| c s IH]; [reflexivity |].
  change (toLowerCase (String c s)) with (String (lowerChar c) (toLowerCase s)).
  cbn [afterLastDot]. rewrite includes_dot_lower, lowerChar_dot.
  destruct (includes s "."); [exact IH |].
  destruct (Ascii.eqb c "."); reflexivity.
Qed.

(** The phase named by the last dot-separated part of a measurand whose
    lower-case form is known. *)
Lemma suffix_phase (s low : string) :
  toLowerCase s = low ->
  normPhase (JStr (afterLastDot s)) =
  normPhase (JStr (toUpperCase (afterLastDot low))).
Proof.
  intros <-. rewrite afterLastDot_lower, toUpperCase_toLowerCase.
  unfold normPhase. cbn [truthy ToString].
  assert (U : toUpperCase (toUpperCase (afterLastDot s)) = toUpperCase (afterLastDot s)).
  { rewrite <- (toUpperCase_toLowerCase (afterLastDot s)) at 1.
    unfold toUpperCase, toLowerCase.
    induction (afterLastDot s) as [| c r IH]; [reflexivity |].
    cbn [mapStr]. f_equal; [| exact IH].
    destruct c as [[] [] [] [] [] [] [] []]; reflexivity. }
  rewrite U.
  destruct (afterLastDot s) as [| c r]; [reflexivity |].
  reflexivity.
Qed.


End PhaseAttribution.

(** ** Uploads, removals and the incident summary *)

Section UploadFacts.
Context {H : Host}.

Local Abbreviation parsesTo vmin vmax :=
  (fun (f : string * string) (fd : FileData) =>
     parseLogFile (fst f) (snd f) vmin vmax = Ret fd).

Local Abbreviation batchStep vmin vmax :=
  (fun (results : list FileData) (f : string * string) =>
     data <- parseLogFile (fst f) (snd f) vmin vmax ;; Ret (results ++ [data])).

Lemma parseBatch_spec (vmin vmax : Q) (l : list (string * string))
  (acc : list FileData) :
  match forEachM (batchStep vmin vmax) l acc with
  | Ret r => exists res, r = acc ++ res /\ Forall2 (parsesTo vmin vmax) l res
  | Throw e => exists f, In f l /\ parseLogFile (fst f) (snd f) vmin vmax = Throw e
  | Fuel => False
  end.
Proof.
  revert acc. induction l as [| f l IH]; intros acc; cbn [forEachM].
  - exists []. split; [symmetry; apply app_nil_r | constructor].
  - destruct (parseLogFile (fst f) (snd f) vmin vmax) as [fd | e |] eqn:E; cbn [bind].
    + specialize (IH (acc ++ [fd])).
      destruct (forEachM (batchStep vmin vmax) l (acc ++ [fd])) as [r | e |].
      * destruct IH as [res [-> F]]. exists (fd :: res). split.
        -- rewrite <- app_assoc. reflexivity.
        -- constructor; [exact E | exact F].
      * destruct IH as [f' [I E']]. exists f'. split; [now right | exact E'].
      * exact IH.
    + exists f. split; [now left | exact E].
    + exact (parseLogFile_no_fuel _ _ _ _ E).
Qed.

Lemma Forall2_unique (vmin vmax : Q) (l : list (string * string))
  (r r' : list FileData) :
  Forall2 (parsesTo vmin vmax) l r -> Forall2 (parsesTo vmin vmax) l r' -> r = r'.
Proof.
  intros F. revert r'. induction F as [| f fd l r E F IH]; intros r' F'.
  - inversion F'. reflexivity.
  - inversion F' as [| f0 fd' l0 r0 E' F0]. subst.
    cbv beta in E, E'. rewrite E in E'. injection E' as <-.
    f_equal. apply IH, F0.
Qed.

(** X16.  An upload is all or nothing.  When every dropped file parses,
    their results are appended to the loaded files, in the order they were
    dropped; when one of them throws, the loaded files stay as they were
    and nothing of the batch is kept, the files that parsed included.
    Nothing else can happen. *)
Lemma upload_all_or_nothing (prev : list FileData)
  (uploadedFiles : list (string * string)) (vmin vmax : Q) :
  let after := handleUpload prev uploadedFiles vmin vmax in
  (forall results,
     Forall2 (parsesTo vmin vmax) uploadedFiles results ->
     after = prev ++ results) /\
  (forall f e,
     In f uploadedFiles -> parseLogFile (fst f) (snd f) vmin vmax = Throw e ->
     after = prev) /\
  (after = prev \/
   exists results,
     Forall2 (parsesTo vmin vmax) uploadedFiles results /\ after = prev ++ results).
Proof.
  intros after. subst after. unfold handleUpload, parseBatch.
  pose proof (parseBatch_spec vmin vmax uploadedFiles []) as S.
  destruct (forEachM (batchStep vmin vmax) uploadedFiles []) as [r | e |];
    [| | destruct S].
  - destruct S as [res [-> F]]. cbn [app]. split; [| split].
    + intros results F'. rewrite (Forall2_unique _ _ _ _ _ F F'). reflexivity.
    + intros f e I E. exfalso.
      clear - F I E. induction F as [| f0 fd l r E0 F IH]; [destruct I |].
      destruct I as [<- | I]; [cbv beta in E0; congruence | apply IH, I].
    + right. exists res. split; [exact F | reflexivity].
  - destruct S as [f [I E]]. split; [| split].
    + intros results F. exfalso.
      clear - F I E. induction F as [| f0 fd l r E0 F IH]; [destruct I |].
      destruct I as [<- | I]; [cbv beta in E0; congruence | apply IH, I].
    + reflexivity.
    + left. reflexivity.
Qed.

Lemma removeFile_app (name : string) (l l' : list FileData) :
  removeFile name (l ++ l') = removeFile name l ++ removeFile name l'.
Proof. unfold removeFile. apply filter_app. Qed.

Lemma removeFile_absent (name : string) (l : list FileData) :
  (forall f, In f l -> f_name f <> name) -> removeFile name l = l.
Proof.
  unfold removeFile. induction l as [| f l IH]; intros Fresh; [reflexivity |].
  cbn [filter].
  assert (N : f_name f <> name) by (apply Fresh; now left).
  apply String.eqb_neq in N. rewrite N. cbn [negb]. f_equal.
  apply IH. intros f' I. apply Fresh. now right.
Qed.

Lemma parsed_name (name text : string) (vmin vmax : Q) (fd : FileData) :
  parseLogFile name text vmin vmax = Ret fd -> f_name fd = name /\ f_enabled fd = true.
Proof.
  intros E. apply parse_context in E. destruct E as [c [E _]].
  apply finishParse_Ret in E. destruct E as [byConn ->]. split; reflexivity.
Qed.


End UploadFacts.

Section SampleFacts.

Lemma setAdd_spec (set : list string) (x : string) :
  (exists tail, setAdd set x = set ++ tail /\
                (tail = [] \/ tail = [x])) /\
  (forall y, In y (setAdd set x) <-> In y set \/ y = x) /\
  (NoDup set -> NoDup (setAdd set x)).
Proof.
  unfold setAdd. destruct (existsb (String.eqb x) set) eqn:E.
  - apply existsb_exists in E. destruct E as [z [Iz Ez]]. apply String.eqb_eq in Ez.
    subst z. split; [| split].
    + exists []. split; [symmetry; apply app_nil_r | now left].
    + intros y. split; [now left | intros [I | ->]; assumption].
    + auto.
  - split; [| split].
    + exists [x]. split; [reflexivity | now right].
    + intros y. rewrite in_app_iff. cbn [In]. split.
      * intros [I | [<- | []]]; auto.
      * intros [I | ->]; [now left | right; now left].
    + intros ND. apply NoDup_snoc; [exact ND |].
      intros I. assert (X : existsb (String.eqb x) set = true).
      { apply existsb_exists. exists x. split; [exact I | apply String.eqb_refl]. }
      congruence.
Qed.

Lemma fold_setAdd_spec (l set : list string) :
  (exists tail, fold_left setAdd l set = set ++ tail /\
                List.length tail <= List.length l) /\
  (forall y, In y (fold_left setAdd l set) <-> In y set \/ In y l) /\
  (NoDup set -> NoDup (fold_left setAdd l set)).
Proof.
  revert set. induction l as [| x l IH]; intros set; cbn [fold_left].
  - split; [| split].
    + exists []. split; [symmetry; apply app_nil_r | cbn; lia].
    + intros y. split; [now left | intros [I | []]; exact I].
    + auto.
  - destruct (setAdd_spec set x) as [[t1 [E1 T1]] [I1 N1]].
    destruct (IH (setAdd set x)) as [[t2 [E2 L2]] [I2 N2]].
    split; [| split].
    + exists (t1 ++ t2). split.
      * rewrite E2, E1, app_assoc. reflexivity.
      * rewrite length_app. cbn [List.length]. destruct T1 as [-> | ->]; cbn; lia.
    + intros y. rewrite I2, I1. cbn [In]. split.
      * intros [[I | ->] | I]; auto.
      * intros [I | [<- | I]]; auto.
    + intros ND. apply N2, N1, ND.
Qed.

Lemma distinct_head (x : string) (l : list string) :
  exists tail, distinct (x :: l) = x :: tail.
Proof.
  unfold distinct. cbn [fold_left]. unfold setAdd at 2. cbn [existsb app].
  destruct (fold_setAdd_spec l [x]) as [[tail [E _]] _].
  exists tail. exact E.
Qed.

Lemma sample_head (l : list string) :
  hd_error (firstn 5 (distinct l)) = hd_error l.
Proof.
  destruct l as [| x l]; [reflexivity |].
  destruct (distinct_head x l) as [t ->]. reflexivity.
Qed.

Lemma NoDup_firstn {A : Type} (n : nat) (l : list A) :
  NoDup l -> NoDup (firstn n l).
Proof.
  intros ND. rewrite <- (firstn_skipn n l) in ND.
  apply NoDup_app_remove_r in ND. exact ND.
Qed.

Lemma In_firstn {A : Type} (n : nat) (l : list A) (x : A) :
  In x (firstn n l) -> In x l.
Proof.
  intros I. rewrite <- (firstn_skipn n l). apply in_or_app. now left.
Qed.

(** X18.  The sample of suspicious timestamps shown with the chart: at
    most five texts, all different, each one a suspicious-timestamp
    incident of an enabled file; the first of them is the first such
    incident, and the sample is empty only when there is none.  The
    count of suspicious timestamps counts repeated texts too. *)
Lemma suspicious_samples (files : list FileData) :
  let agg := parsingErrorAgg files in
  let suspicious := filter (fun e => startsWith e "Suspicious timestamp") (errors agg) in
  errors agg = flat_map f_parsingErrors (filter f_enabled files) /\
  suspiciousCount agg = List.length suspicious /\
  NoDup (suspiciousSamples agg) /\
  List.length (suspiciousSamples agg) <= 5 /\
  List.length (suspiciousSamples agg) <= suspiciousCount agg /\
  suspiciousCount agg <= List.length (errors agg) /\
  (forall e, In e (suspiciousSamples agg) ->
     In e (errors agg) /\ startsWith e "Suspicious timestamp" = true) /\
  hd_error (suspiciousSamples agg) = hd_error suspicious /\
  (List.length (distinct suspicious) <= 5 ->
   forall e, In e suspicious -> In e (suspiciousSamples agg)).
Proof.
  intros agg suspicious. subst agg. unfold parsingErrorAgg in *.
  cbn [errors suspiciousCount suspiciousSamples] in *.
  set (errs := flat_map f_parsingErrors (filter f_enabled files)) in *.
  destruct (fold_setAdd_spec suspicious []) as [[tail [E L]] [I N]].
  fold (distinct suspicious) in E, I, N. cbn [app] in E.
  split; [reflexivity |]. split; [reflexivity |].
  split; [apply NoDup_firstn, N, NoDup_nil |].
  split; [apply firstn_le_length |].
  split.
  { apply Nat.le_trans with (List.length (distinct suspicious)).
    - rewrite length_firstn. apply Nat.le_min_r.
    - rewrite E. exact L. }
  split; [apply filter_length_le |].
  split.
  { intros e Ie. apply In_firstn in Ie. apply I in Ie. destruct Ie as [[] | Ie].
    subst suspicious. apply filter_In in Ie. exact Ie. }
  split; [apply sample_head |].
  intros Small e Ie. rewrite firstn_all2 by exact Small. apply I. now right.
Qed.

End SampleFacts.

(** ** Time window and tick step of the chart *)

Section ChartFacts.

(** X19.  Clamping the visible time window to the data range
    [minTs, maxTs].  The result is a window inside the range; a window
    already inside is returned unchanged; a window no wider than the range
    keeps its width (it is shifted, not shrunk); a window at least as wide
    as the range becomes the whole range. *)
Lemma clampDomain_spec (a b minTs maxTs : Q) :
  (minTs <= maxTs)%Q -> (a <= b)%Q ->
  let r := clampDomain (a, b) minTs maxTs in
  (minTs <= fst r /\ fst r <= snd r /\ snd r <= maxTs)%Q /\
  ((minTs <= a)%Q -> (b <= maxTs)%Q -> r = (a, b)) /\
  ((b - a <= maxTs - minTs)%Q -> (snd r - fst r == b - a)%Q) /\
  ((maxTs - minTs <= b - a)%Q -> (fst r == minTs)%Q /\ (snd r == maxTs)%Q).
Proof.
  intros R W. unfold clampDomain. cbn [fst snd].
  destruct (Qltb a minTs) eqn:C1;
    [apply Qltb_lt in C1 | apply Qltb_ge in C1].
  - destruct (Qltb maxTs (minTs + (b - a))) eqn:C2;
      [apply Qltb_lt in C2 | apply Qltb_ge in C2].
    + destruct (Qltb (maxTs - (b - a)) minTs) eqn:C3;
        [apply Qltb_lt in C3 | apply Qltb_ge in C3];
        destruct (Qltb maxTs maxTs) eqn:C4;
        [apply Qltb_lt in C4 | apply Qltb_ge in C4 |
         apply Qltb_lt in C4 | apply Qltb_ge in C4];
        cbn [fst snd]; repeat split; intros; try lra.
    + destruct (Qltb minTs minTs) eqn:C3;
        [apply Qltb_lt in C3 | apply Qltb_ge in C3];
        destruct (Qltb maxTs (minTs + (b - a))) eqn:C4;
        [apply Qltb_lt in C4 | apply Qltb_ge in C4 |
         apply Qltb_lt in C4 | apply Qltb_ge in C4];
        cbn [fst snd]; repeat split; intros; try lra.
  - destruct (Qltb maxTs b) eqn:C2;
      [apply Qltb_lt in C2 | apply Qltb_ge in C2].
    + destruct (Qltb (maxTs - (b - a)) minTs) eqn:C3;
        [apply Qltb_lt in C3 | apply Qltb_ge in C3];
        destruct (Qltb maxTs maxTs) eqn:C4;
        [apply Qltb_lt in C4 | apply Qltb_ge in C4 |
         apply Qltb_lt in C4 | apply Qltb_ge in C4];
        cbn [fst snd]; repeat split; intros; try lra.
    + rewrite (proj2 (Qltb_ge a minTs) C1), (proj2 (Qltb_ge maxTs b) C2).
      cbn [fst snd]. repeat split; intros; try lra.
Qed.

Local Abbreviation pick target :=
  (fun (acc : Q * Q) (c : Q) =>
     let d := Qabs (c - target) in
     if Qltb d (snd acc) then (c, d) else acc).

Lemma niceStep_fold (target : Q) (l seen : list Q) (best : Q) :
  In best seen ->
  (forall c, In c seen -> (Qabs (best - target) <= Qabs (c - target))%Q) ->
  let r := fold_left (pick target) l (best, Qabs (best - target)) in
  In (fst r) (seen ++ l) /\
  snd r = Qabs (fst r - target) /\
  (forall c, In c (seen ++ l) -> (Qabs (fst r - target) <= Qabs (c - target))%Q).
Proof.
  revert seen best. induction l as [| x l IH]; intros seen best Ib Min; cbn [fold_left].
  - cbn [fst snd]. rewrite app_nil_r. auto.
  - cbv zeta. cbv beta. cbn [snd].
    destruct (Qltb (Qabs (x - target)) (Qabs (best - target))) eqn:C;
      [apply Qltb_lt in C | apply Qltb_ge in C].
    + destruct (IH (seen ++ [x]) x) as [A [B D]].
      * apply in_or_app. right. now left.
      * intros c Ic. apply in_app_or in Ic. destruct Ic as [Ic | [<- | []]].
        -- apply Qle_trans with (Qabs (best - target));
             [apply Qlt_le_weak, C | apply Min, Ic].
        -- apply Qle_refl.
      * rewrite <- app_assoc in A, D. cbn [app] in A, D. auto.
    + destruct (IH (seen ++ [x]) best) as [A [B D]].
      * apply in_or_app. now left.
      * intros c Ic. apply in_app_or in Ic. destruct Ic as [Ic | [<- | []]].
        -- apply Min, Ic.
        -- exact C.
      * rewrite <- app_assoc in A, D. cbn [app] in A, D. auto.
Qed.

(** X20.  The tick step of the time axis is one of the seventeen
    candidate steps, from one second to one day, and no candidate is
    nearer to an eighth of the visible span. *)
Lemma niceStep_nearest (spanMs : Q) :
  In (niceStep spanMs) candidates /\
  (forall c, In c candidates ->
     (Qabs (niceStep spanMs - spanMs / 8) <= Qabs (c - spanMs / 8))%Q) /\
  (1000 <= niceStep spanMs)%Q /\ (niceStep spanMs <= 86400000)%Q.
Proof.
  unfold niceStep.
  set (target := (spanMs / 8)%Q).
  set (best := nth 0 candidates 0%Q).
  cbv zeta.
  destruct (niceStep_fold target candidates [best] best) as [A [_ D]].
  { now left. }
  { intros c [<- | []]. apply Qle_refl. }
  cbv zeta in A, D.
  set (r := fold_left _ candidates _) in *.
  assert (I : In (fst r) candidates).
  { cbn [app] in A. destruct A as [<- | A]; [now left | exact A]. }
  split; [exact I |]. split.
  - intros c Ic. apply D. apply in_or_app. now right.
  - clearbody r. revert I. generalize (fst r).
    intros q I. unfold candidates in I. cbn [map] in I.
    repeat (destruct I as [<- | I]; [split; discriminate |]). destruct I.
Qed.

End ChartFacts.

(** ** Thinning of the drawn series *)

Section DownsampleFacts.
Context {A : Type}.

(** The indices [0, s, 2s, ...] read by the stride loop. *)
Local Abbreviation multiples s m := (map (fun k => k * s) (seq 0 m)).

(** An element paired with the index it was read at. *)
Local Abbreviation readAt data := (fun p : nat * A => nth_error data (fst p) = Some (snd p)).

Lemma multiples_S (s m : nat) : multiples s (S m) = multiples s m ++ [m * s].
Proof. rewrite seq_S, map_app. reflexivity. Qed.

Lemma multiples_In (s m j : nat) :
  In j (multiples s m) <-> exists k, k < m /\ j = k * s.
Proof.
  rewrite in_map_iff. split.
  - intros [k [<- I]]. apply in_seq in I. exists k. split; [lia | reflexivity].
  - intros [k [L ->]]. exists k. split; [reflexivity | apply in_seq; lia].
Qed.

Lemma multiples_sorted (s m : nat) : 1 <= s -> StronglySorted lt (multiples s m).
Proof.
  intros S1. induction m as [| m IH]; [constructor |].
  rewrite multiples_S. apply sorted_snoc; [exact IH |].
  apply Forall_forall. intros j I. apply multiples_In in I.
  destruct I as [k [L ->]]. nia.
Qed.

Lemma ceilDiv_spec (n t : nat) :
  0 < t -> n <= ceilDiv n t * t /\ (0 < n -> 1 <= ceilDiv n t).
Proof.
  intros T. unfold ceilDiv.
  pose proof (Nat.div_mod_eq (n + t - 1) t) as D.
  pose proof (Nat.mod_upper_bound (n + t - 1) t ltac:(lia)) as M.
  split; [nia |]. intros N.
  destruct ((n + t - 1) / t) eqn:E; [| lia]. nia.
Qed.

Lemma hd_error_rev_nth (l : list A) :
  hd_error (rev l) = nth_error l (List.length l - 1).
Proof.
  destruct l as [| a l'] using rev_ind; [reflexivity |].
  rewrite rev_app_distr, length_app. cbn [rev app hd_error List.length].
  rewrite nth_error_app2 by lia.
  replace (List.length l' + 1 - 1 - List.length l') with 0 by lia. reflexivity.
Qed.

Lemma strideLoop_spec (data : list A) (s : nat) (fuel i : nat)
  (out : list (nat * A)) :
  1 <= s -> i = List.length out * s ->
  map fst out = multiples s (List.length out) ->
  Forall (readAt data) out ->
  List.length data <= fuel + List.length out ->
  let r := strideLoop fuel data s i out in
  map fst r = multiples s (List.length r) /\
  Forall (readAt data) r /\
  List.length data <= List.length r * s.
Proof.
  intros S1. revert i out. induction fuel as [| fuel IH]; intros i out Ei Em Ok L;
    cbn [strideLoop].
  - cbv zeta. split; [exact Em |]. split; [exact Ok | nia].
  - destruct (nth_error data i) as [x |] eqn:E.
    + apply IH.
      * rewrite length_app. cbn [List.length]. lia.
      * rewrite map_app, length_app. cbn [map List.length fst].
        rewrite Nat.add_1_r, multiples_S, Em, Ei. reflexivity.
      * apply Forall_app. split; [exact Ok |]. constructor; [exact E | constructor].
      * rewrite length_app. cbn [List.length]. lia.
    + cbv zeta. split; [exact Em |]. split; [exact Ok |].
      apply nth_error_None in E. lia.
Qed.

Lemma readAt_map (data : list A) (l : list (nat * A)) :
  Forall (readAt data) l -> map (nth_error data) (map fst l) = map Some (map snd l).
Proof.
  induction 1 as [| p l E F IH]; [reflexivity |].
  cbn [map]. rewrite E, IH. reflexivity.
Qed.

Lemma last_index (s m : nat) (l : list (nat * A)) (p : nat * A) :
  map fst (l ++ [p]) = multiples s m -> List.length (l ++ [p]) = m ->
  fst p = (m - 1) * s.
Proof.
  intros E L. rewrite length_app in L. cbn [List.length] in L.
  destruct m as [| m]; [lia |].
  rewrite multiples_S, map_app in E. cbn [map] in E.
  apply app_inj_tail in E. destruct E as [_ ->].
  replace (S m - 1) with m by lia. reflexivity.
Qed.

(** X21.  Thinning the visible triplets for drawing.  Up to [target]
    triplets are drawn as they are.  Beyond that, with
    [step = ceil(n / target)], the drawn list consists exactly of the
    elements at the positions that are multiples of [step], followed by
    the last element when its position is not one of them: it keeps the
    order, starts with the first element, ends with the last one, and has
    at most [target + 1] elements. *)
Lemma downsample_spec (data : list A) (target : nat) :
  0 < target ->
  let n := List.length data in
  let step := ceilDiv n target in
  let out := downsample data target in
  (n <= target -> out = data) /\
  (target < n ->
   exists idxs,
     map (nth_error data) idxs = map Some out /\
     StronglySorted lt idxs /\
     (forall j, In j idxs <-> (j < n /\ exists k, j = k * step) \/ j = n - 1) /\
     List.length out <= target + 1 /\
     hd_error out = hd_error data /\
     hd_error (rev out) = hd_error (rev data)).
Proof.
  intros T n step out. split.
  - intros L. subst out. unfold downsample. fold n.
    apply Nat.leb_le in L. rewrite L. reflexivity.
  - intros L.
    destruct (ceilDiv_spec n target T) as [Cn C1]. fold step in Cn, C1.
    specialize (C1 ltac:(lia)).
    destruct (strideLoop_spec data step n 0 [] C1 eq_refl eq_refl (Forall_nil _)
                ltac:(cbn; lia)) as [Em [Ok Ln]].
    cbv zeta in Em, Ok, Ln.
    subst out. unfold downsample. fold n.
    assert (Lb : (n <=? target) = false) by (apply Nat.leb_gt; exact L).
    rewrite Lb. destruct target as [| t]; [lia |]. fold step.
    set (r := strideLoop n data step 0 []) in *.
    set (m := List.length r) in *.
    assert (M1 : 1 <= m) by (subst n; nia).
    destruct (nth_error data (n - 1)) as [y |] eqn:Ey.
    2:{ apply nth_error_None in Ey. subst n. lia. }
    assert (Rl : exists r' p, r = r' ++ [p]).
    { destruct r as [| p0 r0] using rev_ind; [cbn in M1; lia |]. eauto. }
    destruct Rl as [r' [[jl xl] Er]].
    assert (Jl : jl = (m - 1) * step).
    { apply (last_index step m r' (jl, xl)); [rewrite <- Er; exact Em |].
      rewrite <- Er. reflexivity. }
    assert (Okl : nth_error data jl = Some xl).
    { rewrite Er in Ok. apply Forall_app in Ok. destruct Ok as [_ Ok].
      inversion Ok. assumption. }
    assert (Jn : jl < n).
    { apply nth_error_Some. rewrite Okl. discriminate. }
    assert (Mt : m <= S t) by nia.
    assert (Hd : hd_error (map snd r) = hd_error data).
    { destruct r as [| [j0 x0] r0] eqn:Er0; [cbn in M1; lia |].
      inversion Ok as [| ? ? Ok0 _]. cbn [fst snd] in Ok0.
      assert (J0 : j0 = 0).
      { subst m. cbn [List.length] in Em. cbn [map seq fst] in Em.
        injection Em as -> _. reflexivity. }
      rewrite J0 in Ok0. cbn [map hd_error snd].
      destruct data; [discriminate |]. cbn in Ok0. cbn. congruence. }
    assert (Mem : forall j, In j (map fst r) <-> j < n /\ exists k, j = k * step).
    { intros j. rewrite Em. rewrite multiples_In. split.
      - intros [k [Lk ->]]. split; [| eauto]. nia.
      - intros [Lj [k ->]]. exists k. split; [nia | reflexivity]. }
    replace (hd_error (rev r)) with (Some (jl, xl))
      by (rewrite Er, rev_app_distr; reflexivity).
    rewrite (hd_error_rev_nth data). fold n. rewrite Ey.
    destruct (Nat.eqb_spec jl (n - 1)) as [Eq | Neq].
    + exists (map fst r). split; [apply readAt_map, Ok |].
      split; [rewrite Em; apply multiples_sorted, C1 |].
      split.
      { intros j. rewrite Mem. split; [now left |].
        intros [X | ->]; [exact X |]. rewrite <- Eq, Jl. split; [lia | eauto]. }
      split; [rewrite length_map; fold m; lia |].
      split; [exact Hd |].
      rewrite hd_error_rev_nth, length_map. fold m.
      rewrite nth_error_map, Er, nth_error_app2;
        [| subst m; rewrite Er, length_app; cbn [List.length]; lia].
      replace (m - 1 - List.length r') with 0
        by (subst m; rewrite Er, length_app; cbn [List.length]; lia).
      cbn [nth_error option_map snd]. rewrite <- Ey, <- Eq. symmetry. exact Okl.
    + exists (map fst (r ++ [(n - 1, y)])). split.
      { apply readAt_map. apply Forall_app. split; [exact Ok |].
        constructor; [exact Ey | constructor]. }
      split.
      { rewrite map_app. cbn [map fst]. apply sorted_snoc.
        - rewrite Em. apply multiples_sorted, C1.
        - apply Forall_forall. intros j I. apply Mem in I.
          destruct I as [Lj [k Ek]].
          rewrite Em in *. assert (Ij : In j (multiples step m)).
          { apply multiples_In. exists k. split; [nia | exact Ek]. }
          apply multiples_In in Ij. destruct Ij as [k' [Lk' Ek']].
          assert (j <= jl) by nia. lia. }
      split.
      { intros j. rewrite map_app, in_app_iff, Mem. cbn [map fst In]. split.
        - intros [X | [<- | []]]; [now left | now right].
        - intros [X | ->]; [now left | right; now left]. }
      split.
      { rewrite length_map, length_app. fold m. cbn [List.length]. lia. }
      split.
      { rewrite map_app. destruct (map snd r) eqn:Es; [| exact Hd].
        apply (f_equal (@List.length _)) in Es. rewrite length_map in Es.
        fold m in Es. cbn in Es. lia. }
      rewrite map_app, rev_app_distr. reflexivity.
Qed.

End DownsampleFacts.

(** ** Voltage histogram *)

Section HistogramFacts.

Lemma bucketKeys_In (fuel : nat) (v k : Z) :
  In k (bucketKeys fuel v) <->
  exists j, j < fuel /\ k = (v + 2 * Z.of_nat j)%Z /\ (k <= 280)%Z.
Proof.
  revert v. induction fuel as [| fuel IH]; intros v; cbn [bucketKeys].
  - split; [intros [] | intros [j [L _]]; lia].
  - destruct (Z.leb_spec v 280) as [Lv | Gv].
    + cbn [In]. rewrite IH. split.
      * intros [<- | [j [Lj [-> B]]]].
        -- exists 0. split; [lia |]. split; lia.
        -- exists (S j). split; [lia |]. split; lia.
      * intros [[| j] [Lj [-> B]]].
        -- left. lia.
        -- right. exists j. split; [lia |]. split; lia.
    + split; [intros [] |]. intros [j [_ [-> B]]]. lia.
Qed.

Lemma bucketKeys_sorted (fuel : nat) (v : Z) :
  StronglySorted Z.lt (bucketKeys fuel v).
Proof.
  revert v. induction fuel as [| fuel IH]; intros v; cbn [bucketKeys]; [constructor |].
  destruct (v <=? 280)%Z; [| constructor].
  constructor; [apply IH |].
  apply Forall_forall. intros k I. apply bucketKeys_In in I.
  destruct I as [j [_ [-> _]]]. lia.
Qed.

Lemma sorted_lt_NoDup (l : list Z) : StronglySorted Z.lt l -> NoDup l.
Proof.
  induction 1 as [| a l S IH F]; constructor; [| exact IH].
  intros I. rewrite Forall_forall in F. specialize (F a I). lia.
Qed.

Lemma binOf_key (v : Q) : In (binOf v) (bucketKeys 100 180).
Proof.
  apply bucketKeys_In. unfold binOf.
  set (b := (Qfloor (v / 2) * 2)%Z).
  destruct (Z.ltb_spec b 180) as [L | G].
  - cbn. exists 0. repeat split; lia.
  - destruct (Z.ltb_spec 280 b) as [L2 | G2].
    + exists 50. repeat split; lia.
    + exists (Z.to_nat (Qfloor (v / 2) - 90)). subst b. repeat split; lia.
Qed.

Lemma bucketGet_set_eq (bs : list (Z * Bucket)) (k : Z) (b : Bucket) :
  bucketGet (bucketSet bs k b) k = Some b.
Proof.
  induction bs as [| [k' b'] bs IH]; cbn [bucketSet bucketGet].
  - rewrite Z.eqb_refl. reflexivity.
  - destruct (Z.eqb_spec k' k) as [-> | N]; cbn [bucketGet].
    + rewrite Z.eqb_refl. reflexivity.
    + destruct (Z.eqb_spec k' k); [contradiction | exact IH].
Qed.

Lemma bucketGet_set_ne (bs : list (Z * Bucket)) (k k0 : Z) (b : Bucket) :
  k0 <> k -> bucketGet (bucketSet bs k b) k0 = bucketGet bs k0.
Proof.
  intros N. induction bs as [| [k' b'] bs IH]; cbn [bucketSet bucketGet].
  - destruct (Z.eqb_spec k k0); [congruence | reflexivity].
  - destruct (Z.eqb_spec k' k) as [-> | N']; cbn [bucketGet].
    + destruct (Z.eqb_spec k k0); [congruence | reflexivity].
    + destruct (Z.eqb_spec k' k0); [reflexivity | exact IH].
Qed.

Lemma bucketSet_keys (bs : list (Z * Bucket)) (k : Z) (b b0 : Bucket) :
  bucketGet bs k = Some b0 -> map fst (bucketSet bs k b) = map fst bs.
Proof.
  induction bs as [| [k' b'] bs IH]; cbn [bucketSet bucketGet map fst]; [discriminate |].
  destruct (Z.eqb_spec k' k) as [-> | N]; cbn [map fst]; [reflexivity |].
  intros G. rewrite (IH G). reflexivity.
Qed.

Lemma bucketGet_In (bs : list (Z * Bucket)) (k : Z) (b : Bucket) :
  NoDup (map fst bs) -> In (k, b) bs -> bucketGet bs k = Some b.
Proof.
  induction bs as [| [k' b'] bs IH]; cbn [bucketGet map fst]; [intros _ [] |].
  intros ND I. inversion ND as [| ? ? Nin ND']. subst.
  destruct I as [E | I].
  - injection E as -> ->. rewrite Z.eqb_refl. reflexivity.
  - destruct (Z.eqb_spec k' k) as [-> | N]; [| apply IH; assumption].
    exfalso. apply Nin. apply (in_map fst) in I. exact I.
Qed.

Lemma bucketGet_keys (bs : list (Z * Bucket)) (k : Z) :
  In k (map fst bs) -> exists b, bucketGet bs k = Some b.
Proof.
  induction bs as [| [k' b'] bs IH]; cbn [bucketGet map fst]; [intros [] |].
  intros [-> | I].
  - rewrite Z.eqb_refl. eauto.
  - destruct (k' =? k)%Z; [eauto | apply IH, I].
Qed.

(** What the buckets hold: the keys, the [bin] field of each bucket, and
    the count of a phase in the bucket of a key. *)
Local Abbreviation held bs k ph :=
  (match bucketGet bs k with Some b => bucketCount b ph | None => 0 end).

Local Abbreviation binsOk bs :=
  (forall k b, bucketGet bs k = Some b -> bin b = k).

Local Abbreviation hits k o :=
  (match o with Some v => if (binOf v =? k)%Z then 1 else 0 | None => 0 end).

Lemma countReading_spec (ph : Phase) (val : option Q) (bs : list (Z * Bucket)) :
  (forall v, val = Some v -> In (binOf v) (map fst bs)) ->
  map fst (countReading ph val bs) = map fst bs /\
  (binsOk bs -> binsOk (countReading ph val bs)) /\
  (forall k ph', In k (map fst bs) ->
     held (countReading ph val bs) k ph' =
     held bs k ph' + (if match ph, ph' with
                         | L1, L1 | L2, L2 | L3, L3 => true
                         | _, _ => false
                         end then hits k val else 0)).
Proof.
  intros K. unfold countReading. destruct val as [v |].
  2:{ split; [reflexivity |]. split; [auto |]. intros k ph' _.
      destruct ph, ph'; lia. }
  destruct (bucketGet_keys bs (binOf v) (K v eq_refl)) as [b G]. rewrite G.
  split; [apply (bucketSet_keys _ _ _ _ G) |]. split.
  - intros Ok k b0. destruct (Z.eq_dec k (binOf v)) as [-> | N].
    + rewrite bucketGet_set_eq. intros E. injection E as <-. cbn [incPhase bin].
      apply Ok, G.
    + rewrite bucketGet_set_ne by exact N. apply Ok.
  - intros k ph' Ik. destruct (Z.eq_dec k (binOf v)) as [-> | N].
    + rewrite bucketGet_set_eq, G, Z.eqb_refl.
      destruct ph, ph'; cbn [bucketCount incPhase h_L1 h_L2 h_L3]; lia.
    + rewrite bucketGet_set_ne by exact N.
      destruct (Z.eqb_spec (binOf v) k); [congruence |].
      destruct ph, ph'; lia.
Qed.

Local Abbreviation tripletStep :=
  (fun (bs : list (Z * Bucket)) (d : VoltageTriplet) =>
     countReading L3 (t_L3 d)
       (countReading L2 (t_L2 d) (countReading L1 (t_L1 d) bs))).

Lemma hits_count (k : Z) (ph : Phase) (d : VoltageTriplet) (data : list VoltageTriplet) :
  List.length (filter (fun v => (binOf v =? k)%Z) (phaseReadings ph (d :: data))) =
  hits k (getPhase d ph) +
  List.length (filter (fun v => (binOf v =? k)%Z) (phaseReadings ph data)).
Proof.
  unfold phaseReadings. cbn [map presentValues].
  destruct (getPhase d ph) as [v |]; [| reflexivity].
  cbn [filter]. destruct (binOf v =? k)%Z; reflexivity.
Qed.

Lemma fold_tripletStep_spec (data : list VoltageTriplet) (bs : list (Z * Bucket)) :
  map fst bs = bucketKeys 100 180 -> binsOk bs ->
  let bs' := fold_left tripletStep data bs in
  map fst bs' = bucketKeys 100 180 /\ binsOk bs' /\
  forall k ph, In k (bucketKeys 100 180) ->
    held bs' k ph =
    held bs k ph +
    List.length (filter (fun v => (binOf v =? k)%Z) (phaseReadings ph data)).
Proof.
  revert bs. induction data as [| d data IH]; intros bs Keys Ok; cbn [fold_left].
  - cbv zeta. split; [exact Keys |]. split; [exact Ok |]. intros k ph _. cbn. lia.
  - assert (K0 : forall (bs0 : list (Z * Bucket)) (val : option Q),
              map fst bs0 = bucketKeys 100 180 ->
              forall v, val = Some v -> In (binOf v) (map fst bs0)).
    { intros bs0 val E v _. rewrite E. apply binOf_key. }
    destruct (countReading_spec L1 (t_L1 d) bs (K0 bs _ Keys)) as [K1 [O1 H1]].
    rewrite Keys in K1.
    destruct (countReading_spec L2 (t_L2 d) _ (K0 _ _ K1)) as [K2 [O2 H2]].
    rewrite K1 in K2.
    destruct (countReading_spec L3 (t_L3 d) _ (K0 _ _ K2)) as [K3 [O3 H3]].
    rewrite K2 in K3.
    destruct (IH _ K3 (O3 (O2 (O1 Ok)))) as [Kf [Of Hf]].
    cbv zeta. split; [exact Kf |]. split; [exact Of |].
    intros k ph Ik. rewrite (Hf k ph Ik), hits_count.
    rewrite H3 by (rewrite K2; exact Ik).
    rewrite H2 by (rewrite K1; exact Ik).
    rewrite H1 by (rewrite Keys; exact Ik).
    destruct ph; cbn [getPhase]; lia.
Qed.

Lemma one_bin_each (keys : list Z) (l : list Q) :
  NoDup keys -> (forall v, In (binOf v) keys) ->
  fold_right (fun k acc => List.length (filter (fun v => (binOf v =? k)%Z) l) + acc)
             0 keys = List.length l.
Proof.
  intros ND All. induction l as [| v l IH].
  - clear. induction keys as [| k keys IHk]; [reflexivity |].
    cbn [fold_right filter List.length] in *. exact IHk.
  - cbn [List.length]. rewrite <- IH. clear IH.
    assert (One : forall ks, NoDup ks ->
              fold_right (fun k acc =>
                            List.length (filter (fun v0 => (binOf v0 =? k)%Z) (v :: l)) + acc)
                         0 ks =
              (if existsb (Z.eqb (binOf v)) ks then 1 else 0) +
              fold_right (fun k acc =>
                            List.length (filter (fun v0 => (binOf v0 =? k)%Z) l) + acc)
                         0 ks).
    { induction ks as [| k ks IHk]; intros NDk; [reflexivity |].
      inversion NDk as [| ? ? Nin NDk']. subst.
      cbn [fold_right existsb]. rewrite (IHk NDk'). cbn [filter].
      destruct (Z.eqb_spec (binOf v) k) as [E | N]; cbn [orb List.length].
      - assert (X : existsb (Z.eqb (binOf v)) ks = false).
        { destruct (existsb (Z.eqb (binOf v)) ks) eqn:Ex; [| reflexivity].
          apply existsb_exists in Ex. destruct Ex as [k' [Ik' Ek']].
          apply Z.eqb_eq in Ek'. subst. contradiction. }
        rewrite X. lia.
      - lia. }
    rewrite (One keys ND).
    assert (X : existsb (Z.eqb (binOf v)) keys = true).
    { apply existsb_exists. exists (binOf v). split; [apply All | apply Z.eqb_refl]. }
    rewrite X. reflexivity.
Qed.

Lemma binOf_range (v : Q) :
  (180 <= binOf v <= 280)%Z /\
  ((v < 180)%Q -> binOf v = 180%Z) /\
  ((282 <= v)%Q -> binOf v = 280%Z) /\
  ((180 <= v)%Q -> (v < 282)%Q ->
   (inject_Z (binOf v) <= v)%Q /\ (v < inject_Z (binOf v) + 2)%Q).
Proof.
  unfold binOf. set (f := Qfloor (v / 2)).
  assert (Fl : (inject_Z f <= v / 2)%Q) by apply Qfloor_le.
  assert (Fu : (v / 2 < inject_Z (f + 1))%Q) by apply Qlt_floor.
  rewrite inject_Z_plus in Fu. change (inject_Z 1) with 1%Q in Fu.
  clearbody f.
  assert (Ev : (v == v / 2 * 2)%Q) by field.
  set (half := (v / 2)%Q) in *. clearbody half.
  assert (Lo : (inject_Z (f * 2) <= v)%Q).
  { rewrite inject_Z_mult. change (inject_Z 2) with 2%Q. lra. }
  assert (Hi : (v < inject_Z (f * 2) + 2)%Q).
  { rewrite inject_Z_mult. change (inject_Z 2) with 2%Q. lra. }
  split; [| split; [| split]].
  - destruct (Z.ltb_spec (f * 2) 180); [cbn; lia |].
    destruct (Z.ltb_spec 280 (f * 2)); lia.
  - intros L. destruct (Z.ltb_spec (f * 2) 180) as [_ | G]; [reflexivity |].
    exfalso. assert (X : (inject_Z 180 <= inject_Z (f * 2))%Q) by (rewrite <- Zle_Qle; exact G).
    change (inject_Z 180) with 180%Q in X. lra.
  - intros G. assert (X : (280 <= f * 2)%Z).
    { assert (Y : (inject_Z 280 < inject_Z (f * 2 + 2))%Q).
      { rewrite inject_Z_plus. change (inject_Z 280) with 280%Q.
        change (inject_Z 2) with 2%Q. lra. }
      rewrite <- Zlt_Qlt in Y. lia. }
    destruct (Z.ltb_spec (f * 2) 180); [lia |].
    destruct (Z.ltb_spec 280 (f * 2)); lia.
  - intros G L.
    assert (X : (180 <= f * 2)%Z).
    { assert (Y : (inject_Z 178 < inject_Z (f * 2))%Q).
      { change (inject_Z 178) with 178%Q. lra. }
      rewrite <- Zlt_Qlt in Y. lia. }
    assert (Y : (f * 2 <= 280)%Z).
    { assert (Z0 : (inject_Z (f * 2) < inject_Z 282)%Q).
      { change (inject_Z 282) with 282%Q. lra. }
      rewrite <- Zlt_Qlt in Z0. lia. }
    destruct (Z.ltb_spec (f * 2) 180); [lia |].
    destruct (Z.ltb_spec 280 (f * 2)); [lia |]. split; assumption.
Qed.

(** X22.  The voltage histogram of the report.  With data it has the
    fifty-one bins 180, 182, ..., 280, in that order.  The count of a
    phase in a bin is the number of readings of that phase falling in
    the bin, so that the column of a phase adds up to the number of its
    readings.  A reading between 180 and 282 falls in the bin of width 2
    that contains it; the first bin also takes everything below 180 and
    the last everything from 282 up. *)
Lemma histogram_counts (data : list VoltageTriplet) :
  let h := histogramData data in
  (data = [] -> h = []) /\
  (data <> [] ->
   map bin h = bucketKeys 100 180 /\
   List.length h = 51 /\
   (forall b ph, In b h ->
      bucketCount b ph =
      List.length (filter (fun v => (binOf v =? bin b)%Z) (phaseReadings ph data))) /\
   (forall ph,
      fold_right (fun b acc => bucketCount b ph + acc) 0 h =
      List.length (phaseReadings ph data))) /\
  (forall v,
     (180 <= binOf v <= 280)%Z /\
     ((v < 180)%Q -> binOf v = 180%Z) /\
     ((282 <= v)%Q -> binOf v = 280%Z) /\
     ((180 <= v)%Q -> (v < 282)%Q ->
      (inject_Z (binOf v) <= v)%Q /\ (v < inject_Z (binOf v) + 2)%Q)).
Proof.
  intros h. split; [intros ->; reflexivity |]. split; [| apply binOf_range].
  intros Ne. subst h. unfold histogramData.
  destruct data as [| d0 rest] eqn:Ed; [contradiction |]. rewrite <- Ed. clear Ne.
  assert (O0 : binsOk initBuckets).
  { intros k b G. unfold initBuckets in G.
    induction (bucketKeys 100 180) as [| k' ks IH]; [discriminate |].
    cbn [map bucketGet] in G. destruct (Z.eqb_spec k' k) as [-> | N].
    - injection G as <-. reflexivity.
    - apply IH, G. }
  assert (H0 : forall k ph, held initBuckets k ph = 0).
  { intros k ph. unfold initBuckets.
    induction (bucketKeys 100 180) as [| k' ks IH]; [reflexivity |].
    cbn [map bucketGet]. destruct (k' =? k)%Z; [destruct ph; reflexivity | exact IH]. }
  assert (K0 : map fst initBuckets = bucketKeys 100 180).
  { unfold initBuckets. rewrite map_map. cbn [fst]. apply map_id. }
  destruct (fold_tripletStep_spec data initBuckets K0 O0) as [Kf [Of Hf]].
  cbv zeta in Kf, Of, Hf.
  set (bs := fold_left tripletStep data initBuckets) in *.
  pose proof (sorted_lt_NoDup _ (bucketKeys_sorted 100 180)) as ND.
  assert (Bins : map bin (map snd bs) = bucketKeys 100 180).
  { rewrite <- Kf. rewrite map_map. apply map_ext_in. intros [k b] I. cbn [fst snd].
    apply Of. apply bucketGet_In; [rewrite Kf; exact ND | exact I]. }
  assert (Srt : sortBy (fun b => inject_Z (bin b)) (map snd bs) = map snd bs).
  { apply sortBy_of_sorted.
    pose proof (bucketKeys_sorted 100 180) as S. rewrite <- Bins in S.
    clear - S. induction (map snd bs) as [| b l IH]; [constructor |].
    cbn [map] in S. apply StronglySorted_inv in S. destruct S as [S F].
    constructor; [apply IH, S |].
    rewrite Forall_forall in F |- *. intros b' I. cbv beta.
    rewrite <- Zle_Qle. apply Z.lt_le_incl, F, in_map, I. }
  rewrite Srt.
  assert (Cnt : forall b ph, In b (map snd bs) ->
            bucketCount b ph =
            List.length (filter (fun v => (binOf v =? bin b)%Z) (phaseReadings ph data))).
  { intros b ph I. apply in_map_iff in I. destruct I as [[k b'] [E I]]. cbn [snd] in E.
    subst b'.
    assert (G : bucketGet bs k = Some b)
      by (apply bucketGet_In; [rewrite Kf; exact ND | exact I]).
    assert (Ik : In k (bucketKeys 100 180))
      by (rewrite <- Kf; apply (in_map fst) in I; exact I).
    rewrite (Of k b G). specialize (Hf k ph Ik). rewrite G, H0 in Hf. exact Hf. }
  split; [exact Bins |].
  split; [rewrite <- (length_map bin), Bins; reflexivity |].
  split; [exact Cnt |].
  intros ph.
  rewrite <- (one_bin_each (bucketKeys 100 180) (phaseReadings ph data) ND binOf_key).
  rewrite <- Bins.
  clear - Cnt. induction (map snd bs) as [| b l IH]; [reflexivity |].
  cbn [map fold_right]. rewrite (Cnt b ph (or_introl eq_refl)).
  rewrite IH; [reflexivity |]. intros b0 ph0 I. apply Cnt. now right.
Qed.

End HistogramFacts.

(** ** Event table *)

Section EventTableFacts.
Variable lowerCase : string -> string.

Local Abbreviation descending :=
  (fun a b : VoltageTriplet => (t_ts b <= t_ts a)%Q).

Lemma sortDesc_sorted (l : list VoltageTriplet) :
  StronglySorted descending (sortBy (fun t => (- t_ts t)%Q) l).
Proof.
  pose proof (sortBy_sorted (fun t => (- t_ts t)%Q) l) as S. cbv beta in S.
  induction S as [| a r S IH F]; constructor; [exact IH |].
  rewrite Forall_forall in F |- *. intros b I. specialize (F b I). cbv beta in F.
  lra.
Qed.

Lemma filter_true {A : Type} (l : list A) : filter (fun _ => true) l = l.
Proof.
  induction l as [| x l IH]; [reflexivity |]. cbn [filter]. f_equal. exact IH.
Qed.

Lemma filter_filter {A : Type} (p q : A -> bool) (l : list A) :
  filter q (filter p l) = filter (fun x => p x && q x) l.
Proof.
  induction l as [| x l IH]; [reflexivity |]. cbn [filter].
  destruct (p x); cbn [andb filter]; [destruct (q x); [f_equal |] |]; exact IH.
Qed.

(** X23.  The rows of the event table.  They are the triplets passing
    the status filter and the search, latest first.  With a filter or a
    search text the caller's array is left as it was; with neither, the
    rows are the caller's array itself, sorted in place: after the call
    the caller's array holds the same triplets latest first, its first
    element being one with the greatest timestamp. *)
Lemma filteredData_in_place (data : list VoltageTriplet)
  (statusFilter : StatusFilter) (searchFilter : string) :
  let rows := fst (filteredData lowerCase data statusFilter searchFilter) in
  let after := snd (filteredData lowerCase data statusFilter searchFilter) in
  let passes t :=
    match statusFilter with
    | FilterAll => true
    | FilterIssue => negb (isStatus (t_status t) ok)
    | FilterOk => isStatus (t_status t) ok
    end &&
    (String.eqb searchFilter "" ||
     matchesSearch lowerCase (lowerCase searchFilter) t) in
  StronglySorted descending rows /\
  Permutation (filter passes data) rows /\
  (statusFilter = FilterAll -> searchFilter = "" ->
   after = rows /\ Permutation data after /\
   forall first, hd_error after = Some first ->
     forall t, In t data -> (t_ts t <= t_ts first)%Q) /\
  (statusFilter <> FilterAll \/ searchFilter <> "" -> after = data).
Proof.
  intros rows after passes.
  assert (Rows : rows = sortBy (fun t => (- t_ts t)%Q) (filter passes data)).
  { subst rows passes. unfold filteredData.
    destruct statusFilter; destruct (String.eqb searchFilter "") eqn:Es;
      cbn [negb fst snd]; f_equal; rewrite ?filter_filter;
      first [ reflexivity
            | apply filter_ext; intros t; cbn [andb orb]; rewrite ?andb_true_r;
              reflexivity
            | rewrite <- (filter_true data) at 1; apply filter_ext; reflexivity ]. }
  split; [rewrite Rows; apply sortDesc_sorted |].
  split; [rewrite Rows; apply sortBy_perm |].
  split.
  - intros -> ->. subst rows after passes. unfold filteredData. cbn [String.eqb negb fst snd].
    split; [reflexivity |]. split; [apply sortBy_perm |].
    intros first Hd t It.
    pose proof (sortDesc_sorted data) as S.
    apply (Permutation_in _ (sortBy_perm (fun t => (- t_ts t)%Q) data)) in It.
    destruct (sortBy (fun t => (- t_ts t)%Q) data) as [| x l]; [discriminate |].
    injection Hd as ->. destruct It as [<- | It]; [apply Qle_refl |].
    apply StronglySorted_inv in S. destruct S as [_ F].
    rewrite Forall_forall in F. apply (F t It).
  - intros Active. subst after. unfold filteredData.
    destruct statusFilter; destruct (String.eqb_spec searchFilter "") as [E | N];
      cbn [negb fst snd]; try reflexivity.
    destruct Active as [X | X]; contradiction.
Qed.

End EventTableFacts.

Section PagingFacts.
Context {A : Type}.

Lemma firstn_add (n m : nat) (l : list A) :
  firstn (n + m) l = firstn n l ++ firstn m (skipn n l).
Proof.
  revert l. induction n as [| n IH]; intros l; [reflexivity |].
  destruct l as [| x l]; cbn [Nat.add firstn skipn app].
  - rewrite firstn_nil. reflexivity.
  - f_equal. apply IH.
Qed.

Lemma page_chunk (rows : list A) (page pageSize : nat) :
  1 <= page ->
  paginatedData rows page pageSize =
  firstn pageSize (skipn ((page - 1) * pageSize) rows).
Proof.
  intros P. unfold paginatedData. f_equal. nia.
Qed.

Lemma chunks_concat (rows : list A) (pageSize m : nat) :
  List.concat (map (fun k => firstn pageSize (skipn (k * pageSize) rows)) (seq 0 m)) =
  firstn (m * pageSize) rows.
Proof.
  induction m as [| m IH]; [reflexivity |].
  rewrite seq_S, map_app, concat_app, IH. cbn [map List.concat Nat.add].
  rewrite app_nil_r. replace (S m * pageSize) with (m * pageSize + pageSize) by lia.
  symmetry. apply firstn_add.
Qed.

(** X24.  Paging of the event table.  For a positive page size the pages
    1 to [totalPages], one after the other, are exactly the rows: no row
    is shown twice and none is left out.  A page holds at most
    [pageSize] rows; each page up to [totalPages] holds at least one and
    every later page is empty; a table without rows has 0 pages. *)
Lemma pages_cover_rows (rows : list A) (pageSize : nat) :
  0 < pageSize ->
  let pages := totalPages rows pageSize in
  List.concat (map (fun p => paginatedData rows p pageSize) (seq 1 pages)) = rows /\
  (forall p, List.length (paginatedData rows p pageSize) <= pageSize) /\
  (forall p, 1 <= p -> p <= pages -> paginatedData rows p pageSize <> []) /\
  (forall p, pages < p -> paginatedData rows p pageSize = []) /\
  (pages = 0 <-> rows = []).
Proof.
  intros P pages.
  destruct (ceilDiv_spec (List.length rows) pageSize P) as [Up Pos].
  fold (totalPages rows pageSize) in Up, Pos. fold pages in Up, Pos.
  assert (Tight : forall p, 1 <= p -> p <= pages -> (p - 1) * pageSize < List.length rows).
  { intros p P1 Pp. subst pages. unfold totalPages, ceilDiv in *.
    pose proof (Nat.div_mod_eq (List.length rows + pageSize - 1) pageSize) as D.
    pose proof (Nat.mod_upper_bound (List.length rows + pageSize - 1) pageSize
                  ltac:(lia)) as M.
    nia. }
  split; [| split; [| split; [| split]]].
  - rewrite <- seq_shift, map_map.
    rewrite (map_ext _ (fun k => firstn pageSize (skipn (k * pageSize) rows))).
    + rewrite chunks_concat. apply firstn_all2. lia.
    + intros k. rewrite page_chunk by lia. replace (S k - 1) with k by lia. reflexivity.
  - intros p. unfold paginatedData. rewrite length_firstn.
    apply Nat.le_trans with (p * pageSize - (p - 1) * pageSize); [apply Nat.le_min_l | nia].
  - intros p P1 Pp E. rewrite page_chunk in E by exact P1.
    apply (f_equal (@List.length _)) in E. rewrite length_firstn, length_skipn in E.
    cbn [List.length] in E. specialize (Tight p P1 Pp). lia.
  - intros p Lp. unfold paginatedData.
    rewrite skipn_all2; [apply firstn_nil | nia].
  - split.
    + intros Z0. destruct rows as [| x l]; [reflexivity |]. cbn [List.length] in Pos. lia.
    + intros ->. subst pages. unfold totalPages, ceilDiv. cbn [List.length].
      apply Nat.div_small. lia.
Qed.

End PagingFacts.

(** ** CSV cells *)

Section CsvFacts.

Lemma append_nil_r (s : string) : s +++ "" = s.
Proof. induction s as [| c s IH]; [reflexivity |]. cbn. rewrite IH. reflexivity. Qed.

Lemma read_cell (x cur tail : string) :
  readCells (doubleQuotes x +++ dq +++ tail) true cur =
  match tail with
  | EmptyString => Some [cur +++ x]
  | String c rest =>
      if Ascii.eqb c dquote then readCells rest true (cur +++ x +++ dq)
      else if Ascii.eqb c ","
      then option_map (cons (cur +++ x)) (readCells rest false EmptyString)
      else None
  end.
Proof.
  revert cur. induction x as [| c x IH]; intros cur.
  - cbn [doubleQuotes String.append dq readCells]. rewrite Ascii.eqb_refl.
    rewrite !append_nil_r. destruct tail; reflexivity.
  - cbn [doubleQuotes]. destruct (Ascii.eqb_spec c dquote) as [-> | N].
    + cbn [String.append readCells]. rewrite !Ascii.eqb_refl. rewrite IH.
      unfold dq. destruct tail as [| c' rest];
        rewrite ?append_assoc; reflexivity.
    + cbn [String.append readCells].
      destruct (Ascii.eqb_spec c dquote) as [| _]; [contradiction |].
      rewrite IH.
      destruct tail as [| c' rest]; rewrite ?append_assoc; reflexivity.
Qed.

(** X25.  A row of the chart's CSV export reads back.  Every cell is
    written between double quotes with its own double quotes doubled, so
    that an RFC 4180 reader recovers the cells exactly, whatever commas,
    quotes or line breaks they contain; two different rows are never
    written alike. *)
Lemma csv_row_reads_back (r : list string) :
  readRow (csvRow r) = Some r /\
  (forall r', csvRow r' = csvRow r -> r' = r).
Proof.
  assert (Back : forall l, readRow (csvRow l) = Some l).
  { unfold readRow. induction l as [| x l IH]; [reflexivity |].
    destruct l as [| y l].
    - cbn [csvRow]. unfold csvCell, dq at 1. cbn [String.append readCells].
      rewrite Ascii.eqb_refl.
      rewrite <- (append_nil_r (doubleQuotes x +++ dq)), append_assoc.
      rewrite read_cell. reflexivity.
    - change (csvRow (x :: y :: l)) with (csvCell x +++ "," +++ csvRow (y :: l)).
      unfold csvCell at 1, dq at 1. cbn [String.append readCells].
      rewrite Ascii.eqb_refl. rewrite append_assoc. rewrite read_cell.
      cbn [String.append]. cbn [Ascii.eqb Bool.eqb dquote].
      rewrite IH. reflexivity. }
  split; [apply Back |].
  intros r' E. apply (f_equal readRow) in E. rewrite !Back in E.
  injection E as ->. reflexivity.
Qed.

End CsvFacts.

(** ** Deviation texts *)

Section DeviationFacts.
Context {H : Host}.

(** X26.  The deviation texts of the evaluator.  For a triplet with at
    least one reading they are, in this order, [High] when a reading is
    above [vmax], [Low] when one is below [vmin], and the rounded spread
    when it is 15 or more; all the deviations are listed, also those
    that the status, which names one of them, does not show.  The list is
    empty exactly when the status is [ok]. *)
Lemma deviation_details (t : VoltageTriplet) (vmin vmax : Q) :
  let anyOver := existsb (fun v => Qltb vmax v) (phaseValues t) in
  let anyUnder := existsb (fun v => Qltb v vmin) (phaseValues t) in
  let unbalanced := Qle_bool 15 (t_delta t) in
  let st := fst (evaluateStatus t vmin vmax) in
  let details := snd (evaluateStatus t vmin vmax) in
  (phaseValues t <> [] ->
   details =
     (if anyOver then ["High"] else []) ++
     (if anyUnder then ["Low"] else []) ++
     (if unbalanced then ["Δ " +++ toFixed0 (t_delta t) +++ "V"] else [])) /\
  (phaseValues t = [] -> details = []) /\
  (details = [] <-> st = ok) /\
  List.length details <= 3.
Proof.
  cbv zeta. unfold evaluateStatus. rewrite !nonEmpty_existsb.
  destruct (phaseValues t) as [| v vs] eqn:Ev.
  - cbn. repeat split; congruence || lia || auto.
  - cbn [nonEmpty].
    destruct (existsb (fun v0 => Qltb vmax v0) (v :: vs));
      destruct (existsb (fun v0 => Qltb v0 vmin) (v :: vs));
      destruct (Qle_bool 15 (t_delta t));
      cbn [fst snd app isOver isOk negb List.length];
      (split; [reflexivity |]); (split; [congruence |]);
      (split; [split; congruence | lia]).
Qed.

End DeviationFacts.

(** ** Range statistics against the dashboard *)

Section RangeFacts.
Context {H : Host}.

Lemma phaseReadings_cons (ph : Phase) (t : VoltageTriplet) (l : list VoltageTriplet) :
  phaseReadings ph (t :: l) =
  match getPhase t ph with Some v => v :: phaseReadings ph l | None => phaseReadings ph l end.
Proof. unfold phaseReadings. cbn [map presentValues]. destruct (getPhase t ph); reflexivity. Qed.

Lemma fold_rangeStep_spec (rows : list VoltageTriplet) (a : RangeAcc) :
  let a' := fold_left rangeStep rows a in
  acc_L1 a' = acc_L1 a ++ phaseReadings L1 rows /\
  acc_L2 a' = acc_L2 a ++ phaseReadings L2 rows /\
  acc_L3 a' = acc_L3 a ++ phaseReadings L3 rows /\
  acc_issues a' =
    acc_issues a + List.length (filter (fun r => negb (isStatus (t_status r) ok)) rows).
Proof.
  revert a. induction rows as [| r rows IH]; intros a; cbn [fold_left].
  - cbv zeta. unfold phaseReadings. cbn. rewrite !app_nil_r. repeat split; lia.
  - destruct (IH (rangeStep a r)) as [A1 [A2 [A3 Ai]]]. cbv zeta in *.
    rewrite A1, A2, A3, Ai, !phaseReadings_cons.
    cbn [rangeStep acc_L1 acc_L2 acc_L3 acc_issues getPhase filter].
    unfold pushIf, incIf.
    destruct (t_L1 r), (t_L2 r), (t_L3 r), (negb (isStatus (t_status r) ok));
      rewrite <- ?app_assoc; cbn [app List.length]; repeat split; lia.
Qed.

Lemma filter_all {A : Type} (f : A -> bool) (l : list A) :
  (forall x, In x l -> f x = true) -> filter f l = l.
Proof.
  induction l as [| x l IH]; intros All; [reflexivity |]. cbn [filter].
  rewrite (All x (or_introl eq_refl)). f_equal. apply IH.
  intros y I. apply All. now right.
Qed.

Lemma issues_are_violations (l : list VoltageTriplet) :
  List.length (filter (fun r => negb (isStatus (t_status r) ok)) l) =
  List.length (filter (fun t => isStatus (t_status t) under) l) +
  List.length (filter (fun t => isStatus (t_status t) over) l) +
  List.length (filter (fun t => isStatus (t_status t) imbalance) l).
Proof.
  induction l as [| t l IH]; [reflexivity |]. cbn [filter].
  destruct (t_status t); cbn [isStatus negb List.length]; lia.
Qed.

Lemma stat_spec (vals : list Q) :
  match stat vals with
  | None => vals = []
  | Some pr =>
      In (r_min pr) vals /\ In (r_max pr) vals /\
      (forall v, In v vals -> (r_min pr <= v)%Q /\ (v <= r_max pr)%Q)
  end.
Proof.
  unfold stat. destruct vals as [| v vs]; [reflexivity |].
  cbn [r_min r_max r_avg].
  destruct (minOf_spec v vs) as [Imin Lmin]. destruct (maxOf_spec v vs) as [Imax Lmax].
  split; [exact Imin |]. split; [exact Imax |].
  intros x I; split; [apply Lmin, I | apply Lmax, I].
Qed.

(** X27.  The statistics of a selected range against the dashboard.
    Over a range that takes in every triplet, the chart's range
    statistics count the dashboard's points, and their issues are its
    under, over and imbalance events together.  For a phase with readings
    they give the smallest and the largest reading; the dashboard shows
    the same maximum unless every reading is negative, and the same
    minimum unless every reading is 999 or more.  The means are left
    out: both sides add and divide doubles, which round. *)
Lemma range_stats_agree (files : list FileData) (vmin vmax start finish : Q)
  (ph : Phase) :
  let data := allData files vmin vmax in
  let s := analysisStats files vmin vmax in
  let r := rangeStats (sortBy t_ts data) start finish in
  data <> [] ->
  (forall t, In t data -> (start <= t_ts t)%Q /\ (t_ts t <= finish)%Q) ->
  r_points r = totalPoints s /\
  r_issues r = cntUnder s + cntOver s + cntImbalance s /\
  match rangePhase r ph with
  | None => phaseReadings ph data = []
  | Some pr =>
      In (r_min pr) (phaseReadings ph data) /\
      In (r_max pr) (phaseReadings ph data) /\
      (forall v, In v (phaseReadings ph data) -> (r_min pr <= v)%Q /\ (v <= r_max pr)%Q) /\
      ((0 <= r_max pr)%Q -> (ps_max (phaseStatsOf s ph) == r_max pr)%Q) /\
      ((r_min pr < 999)%Q -> (ps_min (phaseStatsOf s ph) == r_min pr)%Q)
  end.
Proof.
  intros data s r Ne In_range.
  assert (Sorted : sortBy t_ts data = data).
  { subst data. unfold allData. apply sortBy_idempotent. }
  assert (Rows : filter (fun p => Qle_bool start (t_ts p) && Qle_bool (t_ts p) finish)
                   data = data).
  { apply filter_all. intros t It. destruct (In_range t It) as [A B].
    apply andb_true_iff. split; apply Qle_bool_iff; assumption. }
  subst r. unfold rangeStats. rewrite Sorted, Rows.
  destruct (fold_rangeStep_spec data
              {| acc_L1 := []; acc_L2 := []; acc_L3 := [];
                 acc_sessions := 0; acc_issues := 0 |}) as [A1 [A2 [A3 Ai]]].
  cbv zeta in A1, A2, A3, Ai. cbn [acc_L1 acc_L2 acc_L3 acc_issues app] in A1, A2, A3, Ai.
  cbn [r_points r_issues].
  assert (Stats :
    totalPoints s = List.length data /\
    cntUnder s + cntOver s + cntImbalance s =
      List.length (filter (fun r => negb (isStatus (t_status r) ok)) data) /\
    phaseStatsOf s ph =
      closePhase (fold_left (fun pa v => phaseStep vmin vmax (Some v) pa)
                    (phaseReadings ph data)
                    {| a_stats := initPhaseStats; a_sum := 0; a_count := 0 |})).
  { subst s. unfold analysisStats. fold data.
    destruct data as [| t0 rest] eqn:Ed; [contradiction |].
    cbn [totalPoints cntUnder cntOver cntImbalance].
    destruct (fold_statsStep_counts vmin vmax (t0 :: rest) initAcc) as [U [O I]].
    destruct (fold_statsStep_phase vmin vmax (t0 :: rest) initAcc) as [P1 [P2 P3]].
    cbv zeta in U, O, I, P1, P2, P3.
    split; [reflexivity |]. split.
    - rewrite U, O, I. cbn [initAcc a_cntUnder a_cntOver a_cntImbalance].
      rewrite issues_are_violations. lia.
    - destruct ph; cbn [phaseStatsOf phases_L1 phases_L2 phases_L3];
        [rewrite P1 | rewrite P2 | rewrite P3]; reflexivity. }
  destruct Stats as [Tp [Vi Ph]].
  split; [symmetry; exact Tp |]. split; [rewrite Ai, Vi; reflexivity |].
  assert (Acc : rangePhase
                  {| r_points := List.length data;
                     r_sessions := acc_sessions
                       (fold_left rangeStep data
                          {| acc_L1 := []; acc_L2 := []; acc_L3 := [];
                             acc_sessions := 0; acc_issues := 0 |});
                     r_issues := acc_issues
                       (fold_left rangeStep data
                          {| acc_L1 := []; acc_L2 := []; acc_L3 := [];
                             acc_sessions := 0; acc_issues := 0 |});
                     r_L1 := stat (acc_L1 (fold_left rangeStep data
                          {| acc_L1 := []; acc_L2 := []; acc_L3 := [];
                             acc_sessions := 0; acc_issues := 0 |}));
                     r_L2 := stat (acc_L2 (fold_left rangeStep data
                          {| acc_L1 := []; acc_L2 := []; acc_L3 := [];
                             acc_sessions := 0; acc_issues := 0 |}));
                     r_L3 := stat (acc_L3 (fold_left rangeStep data
                          {| acc_L1 := []; acc_L2 := []; acc_L3 := [];
                             acc_sessions := 0; acc_issues := 0 |})) |} ph =
                stat (phaseReadings ph data)).
  { destruct ph; cbn [rangePhase r_L1 r_L2 r_L3]; [rewrite A1 | rewrite A2 | rewrite A3];
      reflexivity. }
  rewrite Acc. clear Acc.
  pose proof (stat_spec (phaseReadings ph data)) as St.
  destruct (stat (phaseReadings ph data)) as [pr |]; [| exact St].
  destruct St as [Imin [Imax Bnd]].
  split; [exact Imin |]. split; [exact Imax |]. split; [exact Bnd |].
  rewrite Ph.
  destruct (feed_spec vmin vmax (phaseReadings ph data))
    as [C [Av [Z [U [O [[M0 [MB MW]] Mn]]]]]].
  cbv zeta in C, Av, Z, U, O, M0, MB, MW, Mn.
  set (pa := fold_left (fun pa v => phaseStep vmin vmax (Some v) pa)
               (phaseReadings ph data)
               {| a_stats := initPhaseStats; a_sum := 0; a_count := 0 |}) in *.
  unfold closePhase. cbn [ps_max ps_min].
  split.
  - intros Pos. apply Qle_antisym.
    + destruct MW as [-> | MW]; [exact Pos | apply Bnd, MW].
    + apply MB, Imax.
  - intros Small.
    destruct Mn as [[Mq Mb] | [Mi [Ml Mb]]].
    + specialize (Mb _ Imin). lra.
    + destruct (Qeq_bool (ps_min (a_stats pa)) 999) eqn:Q9.
      * apply Qeq_bool_iff in Q9. lra.
      * apply Qle_antisym; [apply Mb, Imin | apply Bnd, Mi].
Qed.

End RangeFacts.

(** ** Firmware version and connector type *)

Section MetadataFacts.
Context {H : Host}.

Local Abbreviation noSpace := (allChars (fun c => negb (isSpace c))).

Lemma allChars_impl (f g : ascii -> bool) (s : string) :
  (forall c, f c = true -> g c = true) -> allChars f s = true -> allChars g s = true.
Proof.
  intros I. induction s as [| c s IH]; [reflexivity |]. cbn [allChars].
  rewrite !andb_true_iff. intros [A B]. split; [apply I, A | apply IH, B].
Qed.

Lemma alnum_noSpace (c : ascii) : isAlnum c = true -> isSpace c = false.
Proof.
  destruct c as [[] [] [] [] [] [] [] []]; vm_compute; intros E;
    first [reflexivity | discriminate E].
Qed.

Lemma punct_noSpace (c : ascii) :
  (isAlnum c || Ascii.eqb c "/" || Ascii.eqb c "." || Ascii.eqb c "_" ||
   Ascii.eqb c "-") = true -> negb (isSpace c) = true.
Proof.
  destruct c as [[] [] [] [] [] [] [] []]; vm_compute; intros E;
    first [reflexivity | discriminate E].
Qed.

Lemma version_noSpace (c : ascii) :
  (isAlnum c || Ascii.eqb c "." || Ascii.eqb c "_" || Ascii.eqb c "-") = true ->
  negb (isSpace c) = true.
Proof.
  destruct c as [[] [] [] [] [] [] [] []]; vm_compute; intros E;
    first [reflexivity | discriminate E].
Qed.

Lemma noSpace_trimStart (s : string) : noSpace s = true -> trimStart s = s.
Proof.
  destruct s as [| c s]; [reflexivity |]. cbn [allChars trimStart].
  rewrite andb_true_iff, negb_true_iff. intros [-> _]. reflexivity.
Qed.

Lemma noSpace_trimEnd (s : string) : noSpace s = true -> trimEnd s = s.
Proof.
  induction s as [| c s IH]; [reflexivity |]. cbn [allChars trimEnd].
  rewrite andb_true_iff, negb_true_iff. intros [C S]. rewrite (IH S), C.
  destruct s; reflexivity.
Qed.

Lemma noSpace_trim (s : string) : noSpace s = true -> trim s = s.
Proof.
  intros N. unfold trim. rewrite (noSpace_trimStart s N). apply noSpace_trimEnd, N.
Qed.

Lemma looksLikeVersion_shape (s : string) :
  looksLikeVersion s = true ->
  noSpace s = true /\ 2 <= String.length s /\ String.length s <= 61 /\
  someChar isDigit s = true.
Proof.
  unfold looksLikeVersion. destruct s as [| c rest]; [discriminate |].
  rewrite !andb_true_iff. intros [[[[A B] L1] L2] D].
  apply Nat.leb_le in L1, L2. split; [| split; [| split]].
  - cbn [allChars]. apply andb_true_iff. split.
    + rewrite (alnum_noSpace c A). reflexivity.
    + revert B. apply allChars_impl. intros x. apply version_noSpace.
  - cbn [String.length]. lia.
  - cbn [String.length]. lia.
  - exact D.
Qed.

Lemma looksLikeType_noSpace (s : string) : looksLikeType s = true -> noSpace s = true.
Proof.
  unfold looksLikeType. destruct s as [| c rest]; [discriminate |].
  rewrite !andb_true_iff. intros [[[[A B] _] _] _].
  cbn [allChars]. apply andb_true_iff. split.
  - rewrite (alnum_noSpace c A). reflexivity.
  - revert B. apply allChars_impl. intros x. apply punct_noSpace.
Qed.

Local Abbreviation acceptable :=
  (fun c : jsval => negb (nullish c) && looksLikeVersion (trim (ToString c))).

Lemma maybeSetFirmware_kept (v : string) (c : jsval) :
  v <> "" -> maybeSetFirmware (Some v) c = Some v.
Proof.
  intros N. unfold maybeSetFirmware. apply String.eqb_neq in N. rewrite N. reflexivity.
Qed.

Lemma maybeSetFirmware_unset (c : jsval) :
  maybeSetFirmware None c = if acceptable c then Some (trim (ToString c)) else None.
Proof.
  unfold maybeSetFirmware. destruct (nullish c); [reflexivity |]. cbn [negb andb].
  destruct (String.eqb_spec (trim (ToString c)) "") as [-> | _]; [reflexivity |].
  destruct (looksLikeVersion (trim (ToString c))); reflexivity.
Qed.


(** X29.  Connector types have a normal form.  When
    [normalizeConnectorType] gives a type, it is one of the six canonical
    names, or else the trimmed input itself, a token of 2 to 21 letters,
    digits and [/._-] with at least one letter; normalizing the result
    again returns it unchanged. *)
Lemma connector_type_normal_form (raw : jsval) (r : string) :
  normalizeConnectorType raw = Some r ->
  (In r ["CCS2"; "CCS"; "CHAdeMO"; "Type2"; "GB/T"; "NACS"] \/
   (r = trim (ToString (raw ||| JStr "")) /\ looksLikeType r = true)) /\
  normalizeConnectorType (JStr r) = Some r.
Proof.
  unfold normalizeConnectorType at 1.
  set (s := trim (ToString (raw ||| JStr ""))).
  destruct (String.eqb_spec s "") as [_ | Ne]; [discriminate |].
  set (u := removeSpaces (toUpperCase s)).
  destruct (includes u "CCS") eqn:C1.
  { destruct (includes u "CCS2"); intros E; injection E as <-;
      (split; [left; cbn [In]; repeat (first [now left | right]) | reflexivity]). }
  destruct (includes u "CHADEMO") eqn:C2.
  { intros E; injection E as <-. split; [left; cbn [In]; repeat (first [now left | right]) | reflexivity]. }
  destruct (includes u "TYPE2" || includes u "IEC62196T2" || includes u "IEC62196-2")
    eqn:C3.
  { intros E; injection E as <-. split; [left; cbn [In]; repeat (first [now left | right]) | reflexivity]. }
  destruct (includes u "GBT" || includes u "GB/T") eqn:C4.
  { intros E; injection E as <-. split; [left; cbn [In]; repeat (first [now left | right]) | reflexivity]. }
  destruct (includes u "NACS" || includes u "TESLA") eqn:C5.
  { intros E; injection E as <-. split; [left; cbn [In]; repeat (first [now left | right]) | reflexivity]. }
  destruct (looksLikeType s) eqn:T; [| discriminate].
  intros E. injection E as <-. split; [right; split; [reflexivity | exact T] |].
  unfold normalizeConnectorType.
  assert (Same : trim (ToString (JStr s ||| JStr "")) = s).
  { unfold orElse. cbn [truthy]. apply String.eqb_neq in Ne. rewrite Ne. cbn [negb ToString].
    apply noSpace_trim, looksLikeType_noSpace, T. }
  rewrite Same. apply String.eqb_neq in Ne. rewrite Ne. fold u.
  rewrite C1, C2, C3, C4, C5, T. reflexivity.
Qed.

End MetadataFacts.

(** ** Risk level in terms of the data *)

Section RiskFacts.
Context {H : Host}.

Lemma deepDip_positive (l : list VoltageTriplet) :
  (0 <? deepDipReadings l) = existsb hasDeepDip l.
Proof.
  induction l as [| t l IH]; [reflexivity |].
  cbn [deepDipReadings existsb]. rewrite <- IH. unfold hasDeepDip.
  rewrite <- nonEmpty_existsb.
  destruct (filter isDeep (phaseValues t)) as [| v vs]; [reflexivity |].
  cbn [List.length nonEmpty Nat.add orb]. reflexivity.
Qed.

Lemma not_ok_by_values (t : VoltageTriplet) (vmin vmax : Q) :
  negb (isStatus (fst (evaluateStatus t vmin vmax)) ok) =
  existsb (fun v => Qltb vmax v) (phaseValues t) ||
  existsb (fun v => Qltb v vmin) (phaseValues t) ||
  (nonEmpty (phaseValues t) && Qle_bool 15 (t_delta t)).
Proof.
  destruct (status_by_values t vmin vmax) as [O [U I]]. cbv zeta in O, U, I.
  destruct (fst (evaluateStatus t vmin vmax)); cbn [isStatus negb] in *;
    destruct (existsb (fun v => Qltb vmax v) (phaseValues t));
    destruct (existsb (fun v => Qltb v vmin) (phaseValues t));
    destruct (nonEmpty (phaseValues t) && Qle_bool 15 (t_delta t));
    cbn in *; congruence.
Qed.

(** X3.  The risk level in terms of the data.  With at least one triplet
    in the enabled files the risk is [high] when some reading is below
    190 V, or some triplet has a spread above 30 V, or the enabled files
    hold more than 100 incidents; else [medium] when more than 50
    triplets deviate at the thresholds in force (a reading above [vmax]
    or below [vmin], or a spread of 15 V or more) or there are more than
    10 incidents; else [low].  The stored statuses play no part. *)
Lemma riskLevel_by_readings (files : list FileData) (vmin vmax : Q) :
  let raw := flat_map f_triplets (filter f_enabled files) in
  let incidents := List.length (flat_map f_parsingErrors (filter f_enabled files)) in
  let wide t := Qltb 30 (t_delta t) in
  let deviating t :=
    existsb (fun v => Qltb vmax v) (phaseValues t) ||
    existsb (fun v => Qltb v vmin) (phaseValues t) ||
    (nonEmpty (phaseValues t) && Qle_bool 15 (t_delta t)) in
  raw <> [] ->
  riskLevel (analysisStats files vmin vmax) =
  if existsb hasDeepDip raw || existsb wide raw || (100 <? incidents) then high
  else if (50 <? List.length (filter deviating raw)) || (10 <? incidents)
       then medium
       else low.
Proof.
  intros raw incidents wide deviating Ne.
  assert (Nd : allData files vmin vmax <> []).
  { intros E. apply allData_nil in E. contradiction. }
  rewrite (riskLevel_nonempty files vmin vmax Nd). cbv zeta.
  rewrite cntInvalidDates_total. fold incidents.
  assert (Deep : (0 <? cntDeepDip (analysisStats files vmin vmax)) =
                 existsb hasDeepDip raw).
  { rewrite <- deepDip_positive. f_equal. unfold analysisStats.
    destruct (allData files vmin vmax) as [| t0 rest] eqn:E; [contradiction |].
    cbn [cntDeepDip]. rewrite fold_statsStep_deepDip. cbn [initAcc a_cntDeepDip Nat.add].
    rewrite <- E. unfold allData.
    now rewrite deepDipReadings_sortBy, deepDipReadings_reEvaluate. }
  assert (Wide : Qltb 30 (maxDelta (analysisStats files vmin vmax)) =
                 existsb wide raw).
  { unfold analysisStats.
    destruct (allData files vmin vmax) as [| t0 rest] eqn:E; [contradiction |].
    cbn [maxDelta]. rewrite <- E.
    destruct (fold_statsStep_maxDelta vmin vmax (allData files vmin vmax) initAcc)
      as [_ [B W]].
    cbv zeta in B, W. cbn [initAcc a_maxDelta] in W.
    set (m := a_maxDelta (fold_left (statsStep vmin vmax) (allData files vmin vmax)
                            initAcc)) in *.
    destruct (existsb wide raw) eqn:Ex.
    - apply existsb_exists in Ex. destruct Ex as [t [It Wt]].
      apply Qltb_lt in Wt. apply Qltb_lt.
      apply Qlt_le_trans with (t_delta t); [exact Wt |].
      destruct (reEvaluate_fields vmin vmax t) as [_ [D _]]. rewrite <- D.
      apply B. apply (Permutation_in _ (allData_perm files vmin vmax)).
      apply in_map. exact It.
    - destruct (Qltb 30 m) eqn:L; [| reflexivity]. exfalso.
      apply Qltb_lt in L.
      destruct W as [W | [t [It W]]].
      + rewrite W in L. revert L. apply Qle_not_lt. discriminate.
      + apply (Permutation_in _ (Permutation_sym (allData_perm files vmin vmax))) in It.
        apply in_map_iff in It. destruct It as [t1 [<- I1]].
        destruct (reEvaluate_fields vmin vmax t1) as [_ [D _]]. rewrite D in W.
        assert (X : existsb wide raw = true).
        { apply existsb_exists. exists t1. split; [exact I1 |].
          apply Qltb_lt. rewrite <- W. exact L. }
        congruence. }
  assert (Dev : cntUnder (analysisStats files vmin vmax) +
                cntOver (analysisStats files vmin vmax) +
                cntImbalance (analysisStats files vmin vmax) =
                List.length (filter deviating raw)).
  { unfold analysisStats.
    destruct (allData files vmin vmax) as [| t0 rest] eqn:E; [contradiction |].
    cbn [cntUnder cntOver cntImbalance]. rewrite <- E.
    destruct (fold_statsStep_counts vmin vmax (allData files vmin vmax) initAcc)
      as [U [O I]].
    cbv zeta in U, O, I. rewrite U, O, I.
    cbn [initAcc a_cntUnder a_cntOver a_cntImbalance Nat.add].
    rewrite <- issues_are_violations. rewrite allData_count. fold raw.
    apply filter_length_ext. intros t _.
    destruct (reEvaluate_fields vmin vmax t) as [_ [_ [-> _]]].
    apply not_ok_by_values. }
  rewrite Deep, Wide, Dev. reflexivity.
Qed.

End RiskFacts.

(** ** Session matching on finalized triplets *)

Section SessionOnTriplets.
Context {H : Host}.

Local Abbreviation groupStep :=
  (fun (acc : jsobj (list TxSpan)) (sp : TxSpan) =>
     let k := ToString (sp_connectorId sp) in
     let cur := match objGet acc k with Some l => l | None => [] end in
     objSet acc k (cur ++ [sp])).

Local Abbreviation onConnector k :=
  (fun sp : TxSpan => String.eqb (ToString (sp_connectorId sp)) k).

(** Grouping files every span under the text of its connector, in the
    order of the spans. *)
Lemma fold_groupStep_get (spans : list TxSpan) (acc : jsobj (list TxSpan))
  (k : string) :
  objGet (fold_left groupStep spans acc) k =
  match filter (onConnector k) spans with
  | [] => objGet acc k
  | mine => Some (match objGet acc k with Some l => l | None => [] end ++ mine)
  end.
Proof.
  revert acc. induction spans as [| sp spans IH]; intros acc; [reflexivity |].
  cbn [fold_left filter]. rewrite IH. cbv beta zeta.
  destruct (String.eqb_spec (ToString (sp_connectorId sp)) k) as [-> | N].
  - rewrite objGet_objSet_eq.
    destruct (filter (onConnector k) spans) as [| s1 rest].
    + reflexivity.
    + rewrite <- app_assoc. reflexivity.
  - rewrite objGet_objSet_ne by (intros X; apply N; now symmetry). reflexivity.
Qed.

Lemma groupByConnector_get (spans : list TxSpan) (k : string) :
  objGet (groupByConnector spans) k =
  match filter (onConnector k) spans with
  | [] => None
  | mine => Some mine
  end.
Proof.
  unfold groupByConnector. rewrite fold_groupStep_get. reflexivity.
Qed.

(** The sorting loop adds no entry. *)
Lemma sortEntries_absent {A : Type} (key : A -> Q) (o o' : jsobj (list A))
  (k : string) :
  sortEntries key o = Ret o' -> objGet o k = None -> objGet o' k = None.
Proof.
  unfold sortEntries. generalize (objectKeys o) as ks. intros ks. revert o.
  induction ks as [| k0 ks IH]; intros o; cbn [forEachM]; cbv beta zeta.
  - intros E. now injection E as <-.
  - destruct (objGet o (ToString (ToNumber (JStr k0)))) as [l0 |] eqn:G0;
      cbn [bind]; [| discriminate].
    intros E G. apply (IH _ E).
    rewrite objGet_objSet_ne; [exact G |]. intros X. rewrite <- X in G0. congruence.
Qed.


End SessionOnTriplets.

(** ** Further concrete instances *)

Section FurtherInstances.
Import Examples.
#[local] Existing Instance host.

Local Abbreviation earlier := (fun a b : VoltageTriplet => (t_ts a <= t_ts b)%Q).

(** X3 on the file with one triplet, whose readings 180 and 185 are below
    190. *)
Lemma riskLevel_by_readings_witness :
  riskLevel (analysisStats [dipFile] 207 253) = high.
Proof.
  assert (Ne : flat_map f_triplets (filter f_enabled [dipFile]) <> [])
    by discriminate.
  rewrite (riskLevel_by_readings [dipFile] 207 253 Ne). reflexivity.
Defined.

(** X14 on the sample log, whose ids are plain: the meter loop leaves
    every span filed under its own id. *)
Lemma spans_only_widen_witness :
  plainLog sampleLog = true /\
  exists c',
    meterLoop (S (String.length sampleLog)) "a.log" sampleLog 0 emptyCtx = Ret c' /\
    spansOk c' /\ covers c' "7" 1704067200250.
Proof.
  assert (Pl : plainLog sampleLog = true) by (vm_compute; reflexivity).
  split; [exact Pl |].
  destruct (meterLoop (S (String.length sampleLog)) "a.log" sampleLog 0 emptyCtx)
    as [c' | e |] eqn:E;
    [| vm_compute in E; discriminate E | vm_compute in E; discriminate E].
  exists c'. split; [reflexivity |].
  destruct (proj2 (proj2 (proj2 (spans_only_widen "a.log" sampleLog))) emptyCtx c' Pl)
    as [Ok _].
  { right. right. exists (S (String.length sampleLog)), 0. exact E. }
  split.
  - apply Ok. intros k s G. discriminate G.
  - vm_compute in E. injection E as <-.
    eexists. split; [reflexivity |]. split; discriminate.
Defined.


(** X9 on the sample log. *)
Lemma parsed_timestamps_witness :
  exists fd,
    parseLogFile "a.log" sampleLog 207 253 = Ret fd /\
    f_name fd = "a.log" /\ f_enabled fd = true /\
    StronglySorted earlier (f_triplets fd) /\
    forall t, In t (f_triplets fd) ->
      t_dataset t = "a.log" /\
      (exists z, t_ts t = inject_Z (z * 1000)) /\
      (MIN_REASONABLE_TS <= t_ts t)%Q /\ (t_ts t <= MAX_REASONABLE_TS)%Q.
Proof.
  destruct (parseLogFile "a.log" sampleLog 207 253) as [fd | e |] eqn:E;
    [| vm_compute in E; discriminate E | vm_compute in E; discriminate E].
  exists fd. split; [reflexivity |].
  exact (parsed_timestamps "a.log" sampleLog 207 253 fd E).
Defined.


(** X11 on the sample log. *)
Lemma parsed_status_is_current_witness :
  exists fd,
    parseLogFile "a.log" sampleLog 207 253 = Ret fd /\
    (forall t, In t (f_triplets fd) ->
       evaluateStatus t 207 253 = (t_status t, t_deviationDetails t)) /\
    allData [fd] 207 253 = f_triplets fd.
Proof.
  destruct (parseLogFile "a.log" sampleLog 207 253) as [fd | e |] eqn:E;
    [| vm_compute in E; discriminate E | vm_compute in E; discriminate E].
  exists fd. split; [reflexivity |].
  exact (parsed_status_is_current "a.log" sampleLog 207 253 fd E).
Defined.

(** X12 on the sample log: one invalid and one suspicious timestamp. *)
Lemma incident_kinds_witness :
  exists fd,
    parseLogFile "a.log" sampleLog 207 253 = Ret fd /\
    errors (parsingErrorAgg [fd]) = f_parsingErrors fd /\
    suspiciousCount (parsingErrorAgg [fd]) +
    List.length (filter (fun e => startsWith e "Invalid timestamp: ")
                   (errors (parsingErrorAgg [fd]))) =
    cntInvalidDates (analysisStats [fd] 207 253).
Proof.
  destruct (parseLogFile "a.log" sampleLog 207 253) as [fd | e |] eqn:E;
    [| vm_compute in E; discriminate E | vm_compute in E; discriminate E].
  exists fd. split; [reflexivity |].
  destruct (incident_kinds "a.log" sampleLog 207 253 fd E) as [A [_ B]].
  split; [exact A | exact B].
Defined.

(** X13 on a line that names a message and carries no payload. *)
Lemma text_without_braces_witness :
  parseLogFile "a.log" "MeterValues: payload dropped" 207 253 =
  Ret {| f_name := "a.log"; f_enabled := true;
         f_triplets := []; f_parsingErrors := [] |}.
Proof.
  apply (text_without_braces "a.log" "MeterValues: payload dropped" 207 253).
  reflexivity.
Defined.


(** X16 on a batch whose second file throws: the first is not kept. *)
Lemma upload_all_or_nothing_witness :
  handleUpload [dipFile] [("a.log", sampleLog); ("b.log", logNotArray)] 207 253 =
  [dipFile].
Proof.
  apply (proj1 (proj2 (upload_all_or_nothing [dipFile]
                         [("a.log", sampleLog); ("b.log", logNotArray)] 207 253))
           ("b.log", logNotArray) TypeError).
  - right. left. reflexivity.
  - vm_compute. reflexivity.
Defined.


(** X19 on the window [0, 10] and the data range [5, 100]. *)
Lemma clampDomain_spec_witness :
  (5 <= fst (clampDomain (0, 10) 5 100))%Q /\
  (snd (clampDomain (0, 10) 5 100) - fst (clampDomain (0, 10) 5 100) == 10 - 0)%Q.
Proof.
  assert (R : (5 <= 100)%Q) by discriminate.
  assert (W : (0 <= 10)%Q) by discriminate.
  destruct (clampDomain_spec 0 10 5 100 R W) as [[A _] [_ [B _]]].
  split; [exact A |]. apply B. discriminate.
Defined.

(** X21 on seven elements thinned to a target of three. *)
Lemma downsample_spec_witness :
  exists idxs,
    map (nth_error [10; 11; 12; 13; 14; 15; 16]) idxs =
      map Some (downsample [10; 11; 12; 13; 14; 15; 16] 3) /\
    StronglySorted lt idxs /\
    List.length (downsample [10; 11; 12; 13; 14; 15; 16] 3) <= 3 + 1.
Proof.
  assert (T : 0 < 3) by lia.
  destruct (proj2 (downsample_spec [10; 11; 12; 13; 14; 15; 16] 3 T)) as
    [idxs [A [B [_ [C _]]]]].
  - cbn. lia.
  - exists idxs. split; [exact A |]. split; [exact B | exact C].
Defined.

(** X24 on 120 rows in pages of 50. *)
Lemma pages_cover_rows_witness :
  List.concat (map (fun p => paginatedData (seq 0 120) p 50)
                 (seq 1 (totalPages (seq 0 120) 50))) = seq 0 120.
Proof.
  assert (P : 0 < 50) by lia.
  exact (proj1 (pages_cover_rows (seq 0 120) 50 P)).
Defined.

(** X27 on the file with one triplet, over a range that contains it. *)
Lemma range_stats_agree_witness :
  r_points (rangeStats (sortBy t_ts (allData [dipFile] 207 253)) 0 2000000000000) =
    totalPoints (analysisStats [dipFile] 207 253) /\
  r_issues (rangeStats (sortBy t_ts (allData [dipFile] 207 253)) 0 2000000000000) =
    cntUnder (analysisStats [dipFile] 207 253) +
    cntOver (analysisStats [dipFile] 207 253) +
    cntImbalance (analysisStats [dipFile] 207 253).
Proof.
  assert (Ne : allData [dipFile] 207 253 <> []) by (vm_compute; discriminate).
  assert (In_range : forall t, In t (allData [dipFile] 207 253) ->
                       (0 <= t_ts t)%Q /\ (t_ts t <= 2000000000000)%Q).
  { intros t I. vm_compute in I. destruct I as [<- | []]. split; discriminate. }
  destruct (range_stats_agree [dipFile] 207 253 0 2000000000000 L1 Ne In_range)
    as [A [B _]].
  split; [exact A | exact B].
Defined.

(** X29 on [  ccs combo ]. *)
Lemma connector_type_normal_form_witness :
  normalizeConnectorType (JStr "CCS") = Some "CCS".
Proof.
  exact (proj2 (connector_type_normal_form (JStr "  ccs combo ") "CCS" eq_refl)).
Defined.

End FurtherInstances.
